(** * The cron scheduler of mister_morph: cron engine, schedule resolver,
    enqueue transaction, worker outcome and orphan recovery.

    Embedded sources:
    - [scheduler/cronexpr.go]  (parseCronExpr, parseField, valueSet.has,
      cronExpr.next)
    - the scheduler proper     (New, Start, truncateString, nextRunAt,
      recoverOrphanedRuns, reconcileNextRunAt, tick,
      reconcileMissingNextRunAt, enqueueJobIfDue, the inner loop of
      workerLoop, claimNextQueuedRun, executeRun, finishRun)
    - the two job tools        (schedule_job, unschedule_job)
    - [db/models]              (CronJob, CronRun)

    Conventions.  A Go [string] is a sequence of bytes: [String.string].
    Go's [int], [int64] and [time.Duration] are 64-bit: a [Z] with the
    wrap-around written where the source multiplies or adds.  A [time.Time]
    is the number of nanoseconds since the Unix epoch, in UTC, over the
    mathematical integers; a property that needs the sums of seconds to
    stay within 64 bits bounds the Unix time it starts from.  The two
    tables are lists of rows. *)

From Stdlib Require Import ZArith Lia Ascii String.
From stdpp Require Import base option list gmap strings.

Local Open Scope Z_scope.

(** ** Errors *)

Inductive error : Type :=
  | ErrFieldCount (expr : string)            (* invalid cron expression (expected 5 fields) *)
  | ErrEmptyField                            (* empty field *)
  | ErrInvalidStep (p : string)              (* invalid step %q *)
  | ErrInvalidValue (p : string)             (* invalid value %q *)
  | ErrOutOfRange (n lo hi : Z)              (* value %d out of range (%d-%d) *)
  | ErrNoValues (tok : string)               (* no values parsed from %q *)
  | ErrField (field : string) (e : error)    (* "minute: %w", "hour: %w", ... *)
  | ErrNoMatch                               (* no matching time within search window *)
  | ErrNoSchedule                            (* job has neither schedule nor interval_seconds *)
  | ErrComputeNext (e : error)               (* "compute next: %w" *)
  | ErrRecordNotFound                        (* gorm.ErrRecordNotFound *)
  | ErrDuplicateKey (id : string).           (* primary key already taken *)

Inductive result (A : Type) : Type :=
  | Ok (a : A)
  | Err (e : error).
Arguments Ok {A} a.
Arguments Err {A} e.

Definition is_ok {A} (r : result A) : bool :=
  match r with Ok _ => true | Err _ => false end.

(** ** 64-bit integers *)

Definition wrap64 (z : Z) : Z := (z + 2^63) mod 2^64 - 2^63.

Definition minInt64 : Z := - 2^63.
Definition maxInt64 : Z := 2^63 - 1.

Definition inInt64 (z : Z) : bool := (minInt64 <=? z) && (z <=? maxInt64).

(** ** Go's [strings] and [strconv] on byte strings *)

Module GoStrings.

Local Open Scope N_scope.

Definition byteOf (c : ascii) : N := N_of_ascii c.

(** Width in bytes of the white-space rune (unicode.IsSpace) encoded at the
    head of [s]; [0%nat] when the head is not white space.  The runes are
    U+0009..U+000D, U+0020, U+0085, U+00A0, U+1680, U+2000..U+200A, U+2028,
    U+2029, U+202F, U+205F and U+3000 in their UTF-8 encodings. *)
Definition spaceWidth (s : string) : nat :=
  match s with
  | EmptyString => 0%nat
  | String c0 r0 =>
    let b0 := byteOf c0 in
    if ((9 <=? b0) && (b0 <=? 13)) || (b0 =? 32) then 1%nat
    else
      match r0 with
      | EmptyString => 0%nat
      | String c1 r1 =>
        let b1 := byteOf c1 in
        if (b0 =? 194) && ((b1 =? 133) || (b1 =? 160)) then 2%nat
        else
          match r1 with
          | EmptyString => 0%nat
          | String c2 _ =>
            let b2 := byteOf c2 in
            if (b0 =? 225) && (b1 =? 154) && (b2 =? 128) then 3%nat
            else if (b0 =? 226) && (b1 =? 128)
                    && (((128 <=? b2) && (b2 <=? 138))
                        || (b2 =? 168) || (b2 =? 169) || (b2 =? 175)) then 3%nat
            else if (b0 =? 226) && (b1 =? 129) && (b2 =? 159) then 3%nat
            else if (b0 =? 227) && (b1 =? 128) && (b2 =? 128) then 3%nat
            else 0%nat
          end
      end
  end.

Fixpoint dropBytes (n : nat) (s : string) : string :=
  match n, s with
  | O, _ => s
  | S n', String _ r => dropBytes n' r
  | S _, EmptyString => EmptyString
  end.

(** strings.TrimLeftFunc(s, unicode.IsSpace); [fuel] bounds the number of
    runes removed and [String.length s] is always enough. *)
Fixpoint trimLeftN (fuel : nat) (s : string) : string :=
  match fuel with
  | O => s
  | S f =>
    match spaceWidth s with
    | O => s
    | w => trimLeftN f (dropBytes w s)
    end
  end.

Definition TrimLeftSpace (s : string) : string := trimLeftN (String.length s) s.

(** [s] consists of white-space runes only. *)
Fixpoint allSpaceN (fuel : nat) (s : string) : bool :=
  match s with
  | EmptyString => true
  | String _ _ =>
    match fuel with
    | O => false
    | S f =>
      match spaceWidth s with
      | O => false
      | w => allSpaceN f (dropBytes w s)
      end
    end
  end.

Definition allSpace (s : string) : bool := allSpaceN (String.length s) s.

(** strings.TrimRightFunc(s, unicode.IsSpace): the shortest prefix whose
    remainder is white space only. *)
Fixpoint TrimRightSpace (s : string) : string :=
  match s with
  | EmptyString => EmptyString
  | String c r => if allSpace s then EmptyString else String c (TrimRightSpace r)
  end.

(** strings.TrimSpace *)
Definition TrimSpace (s : string) : string := TrimRightSpace (TrimLeftSpace s).

Definition flush (cur : string) : list string :=
  match cur with EmptyString => [] | _ => [cur] end.

Fixpoint fieldsN (fuel : nat) (s cur : string) : list string :=
  match fuel with
  | O => flush cur
  | S f =>
    match s with
    | EmptyString => flush cur
    | String c r =>
      match spaceWidth s with
      | O => fieldsN f r (cur +:+ String c EmptyString)
      | w => flush cur ++ fieldsN f (dropBytes w s) EmptyString
      end
    end
  end.

(** strings.Fields: the maximal runs of bytes between white-space runes. *)
Definition Fields (s : string) : list string := fieldsN (String.length s) s EmptyString.

(** strings.Split(s, ","): every comma separates, empty pieces are kept. *)
Fixpoint splitCommaFrom (s cur : string) : list string :=
  match s with
  | EmptyString => [cur]
  | String c r =>
    if byteOf c =? 44 then cur :: splitCommaFrom r EmptyString
    else splitCommaFrom r (cur +:+ String c EmptyString)
  end.

Definition SplitComma (s : string) : list string := splitCommaFrom s EmptyString.

(** strings.HasPrefix(p, "*/") and strings.TrimPrefix(p, "*/") *)
Definition hasStarSlash (p : string) : bool :=
  match p with
  | String c0 (String c1 _) => (byteOf c0 =? 42) && (byteOf c1 =? 47)
  | _ => false
  end.

Definition trimStarSlash (p : string) : string :=
  if hasStarSlash p then dropBytes 2 p else p.

Definition lowerByte (c : ascii) : ascii :=
  let b := byteOf c in
  if (65 <=? b) && (b <=? 90) then ascii_of_N (b + 32) else c.

(** strings.ToLower, as far as ASCII text is concerned: the letters A..Z
    are lowered, and so are the two runes whose lower case is an ASCII
    letter, U+0130 (to [i]) and U+212A (to [k]).  Every other byte is kept,
    where the library maps the rune through the Unicode tables; such a rune
    and its lower case are both outside ASCII, so the comparison of the
    result with an ASCII word comes out the same. *)
Fixpoint ToLower (s : string) : string :=
  match s with
  | EmptyString => EmptyString
  | String c0 r0 =>
    let plain := String (lowerByte c0) (ToLower r0) in
    match r0 with
    | EmptyString => plain
    | String c1 r1 =>
      if (byteOf c0 =? 196) && (byteOf c1 =? 176) then String "i"%char (ToLower r1)
      else
        match r1 with
        | EmptyString => plain
        | String c2 r2 =>
          if (byteOf c0 =? 226) && (byteOf c1 =? 132) && (byteOf c2 =? 170)
          then String "k"%char (ToLower r2)
          else plain
        end
    end
  end.

(** The decimal value of a run of digits, [None] on any other byte. *)
Fixpoint digitsFrom (s : string) (acc : Z) : option Z :=
  match s with
  | EmptyString => Some acc
  | String c r =>
    let b := byteOf c in
    if (48 <=? b) && (b <=? 57)
    then digitsFrom r (10 * acc + Z.of_N (b - 48))%Z
    else None
  end.

(** strconv.Atoi: an optional sign, at least one decimal digit, and a value
    that fits in 64 bits; [None] stands for its syntax and range errors. *)
Definition Atoi (s : string) : option Z :=
  match s with
  | EmptyString => None
  | String c r =>
    let b := byteOf c in
    let neg := b =? 45 in
    let body := if neg || (b =? 43) then r else s in
    match body with
    | EmptyString => None
    | _ =>
      match digitsFrom body 0%Z with
      | None => None
      | Some n =>
        let v := if neg then (- n)%Z else n in
        if inInt64 v then Some v else None
      end
    end
  end.

End GoStrings.

(** ** Go's [time] in UTC *)

Module GoTime.

(** Nanoseconds since 1970-01-01T00:00:00Z, on the unbounded line of
    instants.  The library keeps the seconds of an instant in 64 bits; the
    two agree as long as no sum of seconds leaves 64 bits, and a property
    that needs this says so with a bound on the Unix time it starts
    from. *)
Definition Time : Type := Z.
Definition Duration : Type := Z.

Definition Nanosecond : Duration := 1.
Definition Second : Duration := 1000000000.
Definition Minute : Duration := 60 * Second.
Definition Hour : Duration := 60 * Minute.

Definition Unix (sec nsec : Z) : Time := sec * Second + nsec.
Definition ToUnix (t : Time) : Z := t / Second.
Definition UTC (t : Time) : Time := t.
Definition Add (t : Time) (d : Duration) : Time := t + d.
Definition Truncate (t : Time) (d : Duration) : Time := t - t mod d.
Definition Before (t u : Time) : bool := t <? u.

Definition daysOf (t : Time) : Z := t / (24 * Hour).

Definition MinuteOf (t : Time) : Z := (t / Minute) mod 60.
Definition HourOf (t : Time) : Z := (t / Hour) mod 24.

(** Sunday = 0; the epoch was a Thursday. *)
Definition WeekdayOf (t : Time) : Z := (daysOf t + 4) mod 7.

(** Proleptic Gregorian date of a day number: (year, month, day). *)
Definition civil (days : Z) : Z * Z * Z :=
  let z := days + 719468 in
  let era := z / 146097 in
  let doe := z - era * 146097 in
  let yoe := (doe - doe / 1460 + doe / 36524 - doe / 146096) / 365 in
  let y := yoe + era * 400 in
  let doy := doe - (365 * yoe + yoe / 4 - yoe / 100) in
  let mp := (5 * doy + 2) / 153 in
  let d := doy - (153 * mp + 2) / 5 + 1 in
  let m := if mp <? 10 then mp + 3 else mp - 9 in
  (if m <=? 2 then y + 1 else y, m, d).

Definition YearOf (t : Time) : Z := (civil (daysOf t)).1.1.
Definition MonthOf (t : Time) : Z := (civil (daysOf t)).1.2.
Definition DayOf (t : Time) : Z := (civil (daysOf t)).2.

(** Day number of a Gregorian date. *)
Definition daysFromCivil (y m d : Z) : Z :=
  let y' := if m <=? 2 then y - 1 else y in
  let era := y' / 400 in
  let yoe := y' - era * 400 in
  let mp := if 2 <? m then m - 3 else m + 9 in
  let doy := (153 * mp + 2) / 5 + d - 1 in
  let doe := yoe * 365 + yoe / 4 - yoe / 100 + doy in
  era * 146097 + doe - 719468.

(** time.Date(y, m, d, hh, mm, ss, 0, time.UTC) *)
Definition Date (y m d hh mm ss : Z) : Time :=
  daysFromCivil y m d * (24 * Hour) + hh * Hour + mm * Minute + ss * Second.

(** Duration.String: [fmtInt] and [fmtFrac] write decimal digits from the
    right, as the library does into its buffer. *)
Definition digitChar (d : Z) : ascii := ascii_of_N (Z.to_N (d + 48)).

Fixpoint fmtIntLoop (fuel : nat) (v : Z) (buf : string) : string :=
  match fuel with
  | O => buf
  | S f => if 0 <? v then fmtIntLoop f (v / 10) (String (digitChar (v mod 10)) buf) else buf
  end.

Definition fmtInt (v : Z) (buf : string) : string :=
  if v =? 0 then String "0"%char buf else fmtIntLoop 20 v buf.

Fixpoint fmtFracLoop (prec : nat) (v : Z) (print : bool) (buf : string)
  : Z * bool * string :=
  match prec with
  | O => (v, print, buf)
  | S p =>
    let digit := v mod 10 in
    let print' := print || negb (digit =? 0) in
    fmtFracLoop p (v / 10) print'
      (if print' then String (digitChar digit) buf else buf)
  end.

Definition fmtFrac (v : Z) (prec : nat) (buf : string) : Z * string :=
  let '(v', print, buf') := fmtFracLoop prec v false buf in
  (v', if print then String "."%char buf' else buf').

Definition Microsecond : Duration := 1000.
Definition Millisecond : Duration := 1000000.

Definition DurationString (d : Duration) : string :=
  let neg := d <? 0 in
  let u := if neg then - d else d in
  let body :=
    if u <? Second then
      if u =? 0 then "0s"%string
      else if u <? Microsecond then
        let '(u1, b) := fmtFrac u 0 "ns" in fmtInt u1 b
      else if u <? Millisecond then
        let '(u1, b) := fmtFrac u 3 (String (ascii_of_N 194) (String (ascii_of_N 181) "s")) in
        fmtInt u1 b
      else
        let '(u1, b) := fmtFrac u 6 "ms" in fmtInt u1 b
    else
      let '(u1, b) := fmtFrac u 9 "s" in
      let b1 := fmtInt (u1 mod 60) b in
      let u2 := u1 / 60 in
      if 0 <? u2 then
        let b2 := fmtInt (u2 mod 60) (String "m"%char b1) in
        let u3 := u2 / 60 in
        if 0 <? u3 then fmtInt u3 (String "h"%char b2) else b2
      else b1
  in
  if neg then String "-"%char body else body.

End GoTime.

(** ** The cron expression engine (scheduler/cronexpr.go) *)

Module Cron.

Import GoStrings GoTime.

(** [val] is the key set of the Go map; a nil map reads as the empty set. *)
Record valueSet : Type := mkValueSet {
  vmin : Z;
  vmax : Z;
  all : bool;
  val : gset Z
}.

(** Fields are pointers in the source: [None] is the nil pointer. *)
Record cronExpr : Type := mkCronExpr {
  minute : option valueSet;
  hour : option valueSet;
  dom : option valueSet;
  month : option valueSet;
  dow : option valueSet;
  domAny : bool;
  dowAny : bool
}.

Definition has (s : option valueSet) (v : Z) : bool :=
  match s with
  | None => false
  | Some vs => if all vs then true else bool_decide (v ∈ val vs)
  end.

(** [for v := min; v <= max; v += step { out.val[v] = struct{}{} }] on
    64-bit integers. *)
Fixpoint stepLoop (fuel : nat) (v hi step : Z) (acc : gset Z) : gset Z :=
  match fuel with
  | O => acc
  | S f =>
    if v <=? hi then stepLoop f (wrap64 (v + step)) hi step ({[ v ]} ∪ acc)
    else acc
  end.

Definition stepFuel (lo hi : Z) : nat := Z.to_nat (hi - lo) + 3.

(** The body of [for _, p := range parts] in parseField, with [out] threaded
    through; the early [return out, nil] on a ["*"] part ends the loop. *)
Fixpoint parseParts (parts : list string) (lo hi : Z) (out : valueSet)
  : result valueSet :=
  match parts with
  | [] => Ok out
  | p0 :: rest =>
    let p := TrimSpace p0 in
    if String.eqb p "" then parseParts rest lo hi out
    else if String.eqb p "*" then Ok (mkValueSet (vmin out) (vmax out) true ∅)
    else if hasStarSlash p then
      match Atoi (trimStarSlash p) with
      | None => Err (ErrInvalidStep p)
      | Some step =>
        if step <=? 0 then Err (ErrInvalidStep p)
        else parseParts rest lo hi
               (mkValueSet (vmin out) (vmax out) (all out)
                  (stepLoop (stepFuel lo hi) lo hi step (val out)))
      end
    else
      match Atoi p with
      | None => Err (ErrInvalidValue p)
      | Some n =>
        if (n <? lo) || (hi <? n) then Err (ErrOutOfRange n lo hi)
        else parseParts rest lo hi
               (mkValueSet (vmin out) (vmax out) (all out) ({[ n ]} ∪ val out))
      end
  end.

Definition parseField (tok0 : string) (lo hi : Z) : result valueSet :=
  let tok := TrimSpace tok0 in
  if String.eqb tok "" then Err ErrEmptyField
  else if String.eqb tok "*" then Ok (mkValueSet lo hi true ∅)
  else
    match parseParts (SplitComma tok) lo hi (mkValueSet lo hi false ∅) with
    | Err e => Err e
    | Ok out0 =>
      let out := if all out0 then mkValueSet (vmin out0) (vmax out0) true ∅ else out0 in
      if negb (all out) && bool_decide (val out = ∅) then Err (ErrNoValues tok)
      else Ok out
    end.

Definition parseFieldWithAny (tok : string) (lo hi : Z) : result (valueSet * bool) :=
  match parseField tok lo hi with
  | Err e => Err e
  | Ok vs => Ok (vs, String.eqb (TrimSpace tok) "*")
  end.

Definition parseCronExpr (expr : string) : result cronExpr :=
  match Fields (TrimSpace expr) with
  | [f0; f1; f2; f3; f4] =>
    match parseField f0 0 59 with
    | Err e => Err (ErrField "minute" e)
    | Ok mi =>
      match parseField f1 0 23 with
      | Err e => Err (ErrField "hour" e)
      | Ok ho =>
        match parseFieldWithAny f2 1 31 with
        | Err e => Err (ErrField "dom" e)
        | Ok (dm, dmAny) =>
          match parseField f3 1 12 with
          | Err e => Err (ErrField "month" e)
          | Ok mo =>
            match parseFieldWithAny f4 0 6 with
            | Err e => Err (ErrField "dow" e)
            | Ok (dw, dwAny) =>
              Ok (mkCronExpr (Some mi) (Some ho) (Some dm) (Some mo) (Some dw) dmAny dwAny)
            end
          end
        end
      end
    end
  | _ => Err (ErrFieldCount expr)
  end.

(** The day rule in the words of the specification: with both day fields
    restricted either may match, with one restricted that one must match,
    and a field given as [*] is not consulted. *)
Definition dayRule (e : cronExpr) (t : Time) : bool :=
  match domAny e, dowAny e with
  | false, false => has (dom e) (DayOf t) || has (dow e) (WeekdayOf t)
  | false, true => has (dom e) (DayOf t)
  | true, false => has (dow e) (WeekdayOf t)
  | true, true => true
  end.

(** The body of the search loop of [next] at candidate [t]: [false] where
    the source says [continue], [true] where it returns [t]. *)
Definition candidate (e : cronExpr) (t : Time) : bool :=
  if negb (has (minute e) (MinuteOf t)) then false
  else if negb (has (hour e) (HourOf t)) then false
  else if negb (has (month e) (MonthOf t)) then false
  else
    let domMatch := has (dom e) (DayOf t) in
    let dowMatch := has (dow e) (WeekdayOf t) in
    if negb (domAny e) && negb (dowAny e) then
      if negb (domMatch || dowMatch) then false else true
    else
      if negb (domAny e) && negb domMatch then false
      else if negb (dowAny e) && negb dowMatch then false
      else true.

(** [for t := start; t.Before(limit); t = t.Add(time.Minute)]; [None] is
    the model running out of [fuel], which [nextLoop_fuel] excludes. *)
Fixpoint nextLoop (fuel : nat) (e : cronExpr) (t limit : Time)
  : option (result Time) :=
  match fuel with
  | O => None
  | S f =>
    if Before t limit then
      if candidate e t then Some (Ok (UTC t))
      else nextLoop f e (Add t Minute) limit
    else Some (Err ErrNoMatch)
  end.

Definition searchWindow : Duration := 366 * 24 * Hour.
Definition searchFuel : nat := Z.to_nat (366 * 24 * 60) + 1.

Definition nextStart (after : Time) : Time :=
  Truncate (Add (UTC after) Minute) Minute.

Definition next (e : cronExpr) (after : Time) : result Time :=
  let start := nextStart after in
  let limit := Add start searchWindow in
  match nextLoop searchFuel e start limit with
  | Some r => r
  | None => Err ErrNoMatch
  end.

End Cron.

(** ** The rows (db/models) *)

Module CronJob.
Record t : Type := mk {
  ID : string;
  Name : string;
  Enabled : bool;
  Schedule : option string;
  IntervalSeconds : option Z;
  Task : string;
  RunOnce : bool;
  NotifyTelegramChatID : option Z;
  Provider : option string;
  Model : option string;
  TimeoutSeconds : option Z;
  OverlapPolicy : string;
  LastRunAt : option Z;
  NextRunAt : option Z;
  CreatedAt : Z;
  UpdatedAt : Z
}.
End CronJob.

Module CronRun.
Record t : Type := mk {
  ID : string;
  JobID : string;
  JobUpdatedAt : Z;
  Status : string;
  ScheduledFor : Z;
  StartedAt : option Z;
  FinishedAt : option Z;
  Attempt : Z;
  Error : option string;
  ResultSummary : option string;
  CreatedAt : Z;
  UpdatedAt : Z
}.
End CronRun.

(** ** The store: the two tables and the statements the scheduler issues *)

Module DB.

(** A table is the list of its rows, in insertion order. *)
Record Store : Type := mkStore {
  jobs : list CronJob.t;
  runs : list CronRun.t
}.

(** What a statement takes from outside the program: the value of
    uuid.NewString() in the BeforeCreate hook, and the clock gorm reads for
    the autoCreateTime and autoUpdateTime columns. *)
Record Env : Type := mkEnv {
  uuid : string;
  dbNow : Z
}.

(** A statement inside a transaction: it may change the store and fail. *)
Definition tx (A : Type) : Type := Store → Store * result A.

Definition ret {A} (a : A) : tx A := λ st, (st, Ok a).
Definition fail {A} (e : error) : tx A := λ st, (st, Err e).
Definition bind {A B} (m : tx A) (k : A → tx B) : tx B :=
  λ st, match m st with
        | (st', Ok a) => k a st'
        | (st', Err e) => (st', Err e)
        end.

Notation "'let*' x ':=' m 'in' k" := (bind m (λ x, k))
  (at level 10, x name, m at level 100, k at level 200, only parsing).

(** db.Transaction(fc): commit when [fc] returns nil, roll back when it
    returns an error. *)
Definition Transaction {A} (fc : tx A) : tx A :=
  λ st, match fc st with
        | (st', Ok a) => (st', Ok a)
        | (_, Err e) => (st, Err e)
        end.

(** The columns of cron_jobs the scheduler assigns. *)
Inductive jobColumn : Type :=
  | ColEnabled (b : bool)
  | ColLastRunAt (v : option Z)
  | ColNextRunAt (v : option Z)
  | ColJobUpdatedAt (v : Z).

Definition setJobColumn (j : CronJob.t) (c : jobColumn) : CronJob.t :=
  match c with
  | ColEnabled b =>
    CronJob.mk (CronJob.ID j) (CronJob.Name j) b (CronJob.Schedule j)
      (CronJob.IntervalSeconds j) (CronJob.Task j) (CronJob.RunOnce j)
      (CronJob.NotifyTelegramChatID j) (CronJob.Provider j) (CronJob.Model j)
      (CronJob.TimeoutSeconds j) (CronJob.OverlapPolicy j) (CronJob.LastRunAt j)
      (CronJob.NextRunAt j) (CronJob.CreatedAt j) (CronJob.UpdatedAt j)
  | ColLastRunAt v =>
    CronJob.mk (CronJob.ID j) (CronJob.Name j) (CronJob.Enabled j) (CronJob.Schedule j)
      (CronJob.IntervalSeconds j) (CronJob.Task j) (CronJob.RunOnce j)
      (CronJob.NotifyTelegramChatID j) (CronJob.Provider j) (CronJob.Model j)
      (CronJob.TimeoutSeconds j) (CronJob.OverlapPolicy j) v
      (CronJob.NextRunAt j) (CronJob.CreatedAt j) (CronJob.UpdatedAt j)
  | ColNextRunAt v =>
    CronJob.mk (CronJob.ID j) (CronJob.Name j) (CronJob.Enabled j) (CronJob.Schedule j)
      (CronJob.IntervalSeconds j) (CronJob.Task j) (CronJob.RunOnce j)
      (CronJob.NotifyTelegramChatID j) (CronJob.Provider j) (CronJob.Model j)
      (CronJob.TimeoutSeconds j) (CronJob.OverlapPolicy j) (CronJob.LastRunAt j)
      v (CronJob.CreatedAt j) (CronJob.UpdatedAt j)
  | ColJobUpdatedAt v =>
    CronJob.mk (CronJob.ID j) (CronJob.Name j) (CronJob.Enabled j) (CronJob.Schedule j)
      (CronJob.IntervalSeconds j) (CronJob.Task j) (CronJob.RunOnce j)
      (CronJob.NotifyTelegramChatID j) (CronJob.Provider j) (CronJob.Model j)
      (CronJob.TimeoutSeconds j) (CronJob.OverlapPolicy j) (CronJob.LastRunAt j)
      (CronJob.NextRunAt j) (CronJob.CreatedAt j) v
  end.

(** The columns of cron_runs the scheduler assigns. *)
Inductive runColumn : Type :=
  | ColStatus (s : string)
  | ColStartedAt (v : option Z)
  | ColFinishedAt (v : option Z)
  | ColError (v : option string)
  | ColResultSummary (v : option string)
  | ColRunUpdatedAt (v : Z).

Definition setRunColumn (r : CronRun.t) (c : runColumn) : CronRun.t :=
  match c with
  | ColStatus s =>
    CronRun.mk (CronRun.ID r) (CronRun.JobID r) (CronRun.JobUpdatedAt r) s
      (CronRun.ScheduledFor r) (CronRun.StartedAt r) (CronRun.FinishedAt r)
      (CronRun.Attempt r) (CronRun.Error r) (CronRun.ResultSummary r)
      (CronRun.CreatedAt r) (CronRun.UpdatedAt r)
  | ColStartedAt v =>
    CronRun.mk (CronRun.ID r) (CronRun.JobID r) (CronRun.JobUpdatedAt r) (CronRun.Status r)
      (CronRun.ScheduledFor r) v (CronRun.FinishedAt r)
      (CronRun.Attempt r) (CronRun.Error r) (CronRun.ResultSummary r)
      (CronRun.CreatedAt r) (CronRun.UpdatedAt r)
  | ColFinishedAt v =>
    CronRun.mk (CronRun.ID r) (CronRun.JobID r) (CronRun.JobUpdatedAt r) (CronRun.Status r)
      (CronRun.ScheduledFor r) (CronRun.StartedAt r) v
      (CronRun.Attempt r) (CronRun.Error r) (CronRun.ResultSummary r)
      (CronRun.CreatedAt r) (CronRun.UpdatedAt r)
  | ColError v =>
    CronRun.mk (CronRun.ID r) (CronRun.JobID r) (CronRun.JobUpdatedAt r) (CronRun.Status r)
      (CronRun.ScheduledFor r) (CronRun.StartedAt r) (CronRun.FinishedAt r)
      (CronRun.Attempt r) v (CronRun.ResultSummary r)
      (CronRun.CreatedAt r) (CronRun.UpdatedAt r)
  | ColResultSummary v =>
    CronRun.mk (CronRun.ID r) (CronRun.JobID r) (CronRun.JobUpdatedAt r) (CronRun.Status r)
      (CronRun.ScheduledFor r) (CronRun.StartedAt r) (CronRun.FinishedAt r)
      (CronRun.Attempt r) (CronRun.Error r) v
      (CronRun.CreatedAt r) (CronRun.UpdatedAt r)
  | ColRunUpdatedAt v =>
    CronRun.mk (CronRun.ID r) (CronRun.JobID r) (CronRun.JobUpdatedAt r) (CronRun.Status r)
      (CronRun.ScheduledFor r) (CronRun.StartedAt r) (CronRun.FinishedAt r)
      (CronRun.Attempt r) (CronRun.Error r) (CronRun.ResultSummary r)
      (CronRun.CreatedAt r) v
  end.

Definition assignJob (cols : list jobColumn) (j : CronJob.t) : CronJob.t :=
  fold_left setJobColumn cols j.

Definition assignRun (cols : list runColumn) (r : CronRun.t) : CronRun.t :=
  fold_left setRunColumn cols r.

(** [Model(&CronJob{}).Where("id = ?", id).Updates(cols)]: every matching
    row gets the columns, and updated_at from gorm's clock. *)
Definition updateJobsWhereID (env : Env) (id : string) (cols : list jobColumn)
  (st : Store) : Store :=
  mkStore
    (map (λ j, if String.eqb (CronJob.ID j) id
               then assignJob (cols ++ [ColJobUpdatedAt (dbNow env)]) j else j)
         (jobs st))
    (runs st).

(** [Model(&CronRun{}).Where(cond).Updates(cols)]; the second component is
    RowsAffected. *)
Definition updateRunsWhere (env : Env) (cond : CronRun.t → bool)
  (cols : list runColumn) (st : Store) : Store * Z :=
  (mkStore (jobs st)
     (map (λ r, if cond r
                then assignRun (cols ++ [ColRunUpdatedAt (dbNow env)]) r else r)
          (runs st)),
   Z.of_nat (length (filter (λ r, cond r = true) (runs st)))).

(** [Where("id = ?", id).First(&job)] *)
Definition firstJob (id : string) : tx CronJob.t :=
  λ st, match find (λ j, String.eqb (CronJob.ID j) id) (jobs st) with
        | Some j => (st, Ok j)
        | None => (st, Err ErrRecordNotFound)
        end.

(** [Model(&CronRun{}).Where("job_id = ? AND status = ?", ..).Count(&n)] *)
Definition countRuns (cond : CronRun.t → bool) : tx Z :=
  λ st, (st, Ok (Z.of_nat (length (filter (λ r, cond r = true) (runs st))))).

(** [Create(&run)]: the BeforeCreate hook fills an empty ID, gorm fills the
    zero time columns, and the primary key must be new. *)
Definition createRun (env : Env) (r : CronRun.t) : tx unit :=
  λ st,
    let id := if String.eqb (CronRun.ID r) "" then uuid env else CronRun.ID r in
    let row :=
      CronRun.mk id (CronRun.JobID r) (CronRun.JobUpdatedAt r) (CronRun.Status r)
        (CronRun.ScheduledFor r) (CronRun.StartedAt r) (CronRun.FinishedAt r)
        (CronRun.Attempt r) (CronRun.Error r) (CronRun.ResultSummary r)
        (if CronRun.CreatedAt r =? 0 then dbNow env else CronRun.CreatedAt r)
        (if CronRun.UpdatedAt r =? 0 then dbNow env else CronRun.UpdatedAt r) in
    if existsb (λ r', String.eqb (CronRun.ID r') id) (runs st)
    then (st, Err (ErrDuplicateKey id))
    else (mkStore (jobs st) (runs st ++ [row]), Ok tt).

Definition updatesJob (env : Env) (id : string) (cols : list jobColumn) : tx unit :=
  λ st, (updateJobsWhereID env id cols st, Ok tt).

End DB.

(** ** The scheduler *)

Module Scheduler.

Import GoStrings GoTime DB.

Definition StatusQueued : string := "queued".
Definition StatusRunning : string := "running".
Definition StatusSuccess : string := "succeeded".
Definition StatusFailed : string := "failed".
Definition StatusCanceled : string := "canceled".
Definition StatusTimedOut : string := "timed_out".
Definition StatusSkipped : string := "skipped".

Definition overlapForbid : string := "forbid".

Definition defaultTimeout : Duration := 10 * Minute.

(** The OnRunFinished callback is left out: it runs after the run is
    persisted and does not touch the tables. *)
Record Config : Type := mkConfig {
  Enabled : bool;
  Concurrency : Z;
  Tick : Duration;
  MaxErrorChars : Z;
  MaxSummaryChars : Z
}.

Definition DefaultConfig : Config := mkConfig false 1 (1 * Second) 2000 1000.

Record t : Type := mkScheduler {
  cfg : Config;
  defaultModel : string
}.

(** [New]: the nil checks on the database handle, the runner and the logger
    have no counterpart here; the configuration is normalised as in the
    source. *)
Definition New (model : string) (c : Config) : option t :=
  if String.eqb (TrimSpace model) "" then None
  else
    let c1 := if Concurrency c <=? 0
              then mkConfig (Enabled c) 1 (Tick c) (MaxErrorChars c) (MaxSummaryChars c) else c in
    let c2 := if Tick c1 <=? 0
              then mkConfig (Enabled c1) (Concurrency c1) (1 * Second) (MaxErrorChars c1) (MaxSummaryChars c1) else c1 in
    let c3 := if MaxErrorChars c2 <=? 0
              then mkConfig (Enabled c2) (Concurrency c2) (Tick c2) 2000 (MaxSummaryChars c2) else c2 in
    let c4 := if MaxSummaryChars c3 <=? 0
              then mkConfig (Enabled c3) (Concurrency c3) (Tick c3) (MaxErrorChars c3) 1000 else c3 in
    Some (mkScheduler c4 model).

(** [len(s)] is the number of bytes and [s[:max]] the first [max] bytes. *)
Definition truncateString (s : string) (max : Z) : string :=
  if (max <=? 0) || (Z.of_nat (String.length s) <=? max) then s
  else substring 0 (Z.to_nat max) s.

(** The schedule resolver.  The product of the interval and a second is
    the 64-bit product of the source; the instants are those of [GoTime],
    so [afterUnix] and the result stand for the [int64] of the source
    where the sums of seconds stay within 64 bits. *)
Definition nextRunAt (job : CronJob.t) (afterUnix : Z) : result Z :=
  let after := UTC (Unix afterUnix 0) in
  let viaInterval :=
    match CronJob.IntervalSeconds job with
    | Some iv =>
      if 0 <? iv then Ok (ToUnix (Add after (wrap64 (iv * Second))))
      else Err ErrNoSchedule
    | None => Err ErrNoSchedule
    end in
  match CronJob.Schedule job with
  | Some sched =>
    if negb (String.eqb (TrimSpace sched) "") then
      match Cron.parseCronExpr sched with
      | Err e => Err e
      | Ok expr =>
        match Cron.next expr after with
        | Err e => Err e
        | Ok nxt => Ok (ToUnix nxt)
        end
      end
    else viaInterval
  | None => viaInterval
  end.

Definition recoverOrphanedRuns (env : Env) (now : Z) (st : Store) : Store * Z :=
  let msg := "process restarted" in
  updateRunsWhere env (λ r, String.eqb (CronRun.Status r) StatusRunning)
    [ColStatus StatusFailed; ColFinishedAt (Some now); ColError (Some msg)] st.

(** One turn of [for _, job := range jobs] in reconcileNextRunAt. *)
Definition reconcileJob (env : Env) (now : Z) (st : Store) (job : CronJob.t) : Store :=
  match nextRunAt job now with
  | Err _ => updateJobsWhereID env (CronJob.ID job) [ColEnabled false] st
  | Ok nxt =>
    match CronJob.NextRunAt job with
    | None => updateJobsWhereID env (CronJob.ID job) [ColNextRunAt (Some nxt)] st
    | Some at_ =>
      if at_ <? now
      then updateJobsWhereID env (CronJob.ID job) [ColNextRunAt (Some nxt)] st
      else st
    end
  end.

Definition reconcileNextRunAt (env : Env) (now : Z) (st : Store) : Store :=
  fold_left (reconcileJob env now)
    (filter (λ j, CronJob.Enabled j = true) (jobs st)) st.

(** The effects of [Start] in program order. *)
Inductive action : Type :=
  | ActRecoverOrphanedRuns
  | ActReconcileNextRunAt
  | ActGoScheduleLoop
  | ActGoWorkerLoop (workerID : Z)
  | ActWakeWorkers.

(** [for i := 0; i < Concurrency; i++ { go workerLoop(ctx, i+1) }] *)
Definition spawnWorkers (n : Z) : list action :=
  map (λ i, ActGoWorkerLoop (Z.of_nat i + 1)) (seq 0 (Z.to_nat n)).

(** [Start]: the two clock readings are [nowRecover] and [nowReconcile]. *)
Definition Start (s : t) (env : Env) (nowRecover nowReconcile : Z) (st : Store)
  : Store * list action :=
  if negb (Enabled (cfg s)) then (st, [])
  else
    let st1 := (recoverOrphanedRuns env nowRecover st).1 in
    let st2 := reconcileNextRunAt env nowReconcile st1 in
    (st2,
     [ActRecoverOrphanedRuns; ActReconcileNextRunAt; ActGoScheduleLoop]
     ++ spawnWorkers (Concurrency (cfg s)) ++ [ActWakeWorkers]).

(** The function handed to [Transaction] in enqueueJobIfDue; its value is
    the captured variable [queued]. *)
Definition enqueueBody (env : Env) (jobID : string) (now : Z) : tx bool :=
  let* job := firstJob jobID in
  match CronJob.Enabled job, CronJob.NextRunAt job with
  | false, _ | _, None => ret false
  | true, Some scheduledFor =>
    if now <? scheduledFor then ret false
    else
      let* updates :=
        (if CronJob.RunOnce job then
           ret [ColEnabled false; ColLastRunAt (Some scheduledFor); ColNextRunAt None]
         else
           match nextRunAt job scheduledFor with
           | Err e =>
             let* _ := updatesJob env (CronJob.ID job) [ColEnabled false] in
             fail (ErrComputeNext e)
           | Ok nxt =>
             ret [ColLastRunAt (Some scheduledFor); ColNextRunAt (Some nxt)]
           end) in
      let* runningCount :=
        countRuns (λ r, String.eqb (CronRun.JobID r) (CronJob.ID job)
                        && String.eqb (CronRun.Status r) StatusRunning) in
      let policy0 := ToLower (TrimSpace (CronJob.OverlapPolicy job)) in
      let policy := if String.eqb policy0 "" then overlapForbid else policy0 in
      if (0 <? runningCount) && String.eqb policy overlapForbid then
        let msg := "overlap_forbid: prior run still running" in
        let run := CronRun.mk "" (CronJob.ID job) (CronJob.UpdatedAt job) StatusSkipped
                     scheduledFor None None 1 (Some msg) None 0 0 in
        let* _ := createRun env run in
        let* _ := updatesJob env (CronJob.ID job) updates in
        ret false
      else
        let run := CronRun.mk "" (CronJob.ID job) (CronJob.UpdatedAt job) StatusQueued
                     scheduledFor None None 1 None None 0 0 in
        let* _ := createRun env run in
        let* _ := updatesJob env (CronJob.ID job) updates in
        ret true
  end.

(** [Ok true] is the case in which the workers are woken. *)
Definition enqueueJobIfDue (env : Env) (jobID : string) (now : Z) : tx bool :=
  Transaction (enqueueBody env jobID now).

(** ctx.Err() *)
Inductive ctxErr : Type :=
  | CtxNone
  | CtxCanceled
  | CtxDeadlineExceeded.

(** What one execution meets.  [lookupErr] is the text of the error of the
    job look-up when the query itself fails (it runs under the worker's
    context, so a context that is done makes it fail); the runner is then
    not called.  Otherwise the task runner hands back [summary] and
    [runErr], the text of its error, and the two contexts are in the
    states [runCtxErr] and [parentCtxErr] when it returns. *)
Record outcome : Type := mkOutcome {
  summary : option string;
  runErr : option string;
  runCtxErr : ctxErr;
  parentCtxErr : ctxErr;
  lookupErr : option string
}.

Definition isCanceled (e : ctxErr) : bool :=
  match e with CtxCanceled => true | _ => false end.

Definition isDeadlineExceeded (e : ctxErr) : bool :=
  match e with CtxDeadlineExceeded => true | _ => false end.

Definition resolveTimeout (job : CronJob.t) : Duration :=
  match CronJob.TimeoutSeconds job with
  | Some ts => if 0 <? ts then wrap64 (ts * Second) else defaultTimeout
  | None => defaultTimeout
  end.

(** The status and error message chosen after the runner returns. *)
Definition classify (s : t) (timeout : Duration) (o : outcome) : string * option string :=
  match runErr o with
  | None => (StatusSuccess, None)
  | Some text =>
    if isDeadlineExceeded (runCtxErr o) then
      (StatusTimedOut,
       Some ("timeout: run exceeded " +:+ DurationString timeout +:+ " deadline"))
    else if isCanceled (runCtxErr o) || isCanceled (parentCtxErr o) then
      (StatusCanceled, Some "canceled")
    else
      (StatusFailed, Some (truncateString text (MaxErrorChars (cfg s))))
  end.

Definition finishRun (env : Env) (now : Z) (runID : string) (status : string)
  (errStr summary : option string) (st : Store) : Store :=
  (updateRunsWhere env (λ r, String.eqb (CronRun.ID r) runID)
     [ColStatus status; ColFinishedAt (Some now);
      ColError errStr; ColResultSummary summary] st).1.

(** What executeRun persists: (status, error, result summary). *)
Definition runResult (s : t) (job : CronJob.t) (o : outcome)
  : string * option string * option string :=
  let timeout := resolveTimeout job in
  let '(status, errStr) := classify s timeout o in
  let summary' := option_map (λ x, truncateString x (MaxSummaryChars (cfg s))) (summary o) in
  let errStr' := option_map (λ x, truncateString x (MaxErrorChars (cfg s))) errStr in
  (status, errStr', summary').

Definition executeRun (s : t) (env : Env) (now : Z) (run : CronRun.t) (o : outcome)
  (st : Store) : Store :=
  match lookupErr o with
  | Some text =>
    let msg := truncateString text (MaxErrorChars (cfg s)) in
    finishRun env now (CronRun.ID run) StatusFailed (Some msg) None st
  | None =>
    match firstJob (CronRun.JobID run) st with
    | (_, Err _) =>
      let msg := truncateString "record not found" (MaxErrorChars (cfg s)) in
      finishRun env now (CronRun.ID run) StatusFailed (Some msg) None st
    | (_, Ok job) =>
      let '(status, errStr, summary') := runResult s job o in
      finishRun env now (CronRun.ID run) status errStr summary' st
    end
  end.

End Scheduler.

(** * Vocabulary of the properties, and sample rows *)

Import GoStrings GoTime DB Scheduler.

(** The answer of the cron engine for the expression [sched], in Unix
    seconds. *)
Definition cronNextUnix (sched : string) (afterUnix : Z) : result Z :=
  match Cron.parseCronExpr sched with
  | Err e => Err e
  | Ok expr =>
    match Cron.next expr (Unix afterUnix 0) with
    | Err e => Err e
    | Ok nxt => Ok (ToUnix nxt)
    end
  end.

(** The job is cron-scheduled: its expression is set and not blank. *)
Definition scheduleSet (job : CronJob.t) : bool :=
  match CronJob.Schedule job with
  | Some sched => negb (String.eqb (TrimSpace sched) "")
  | None => false
  end.

Definition withInterval (job : CronJob.t) (iv : option Z) : CronJob.t :=
  CronJob.mk (CronJob.ID job) (CronJob.Name job) (CronJob.Enabled job)
    (CronJob.Schedule job) iv (CronJob.Task job) (CronJob.RunOnce job)
    (CronJob.NotifyTelegramChatID job) (CronJob.Provider job) (CronJob.Model job)
    (CronJob.TimeoutSeconds job) (CronJob.OverlapPolicy job) (CronJob.LastRunAt job)
    (CronJob.NextRunAt job) (CronJob.CreatedAt job) (CronJob.UpdatedAt job).

(** The largest interval whose duration in nanoseconds fits in 64 bits. *)
Definition maxIntervalSeconds : Z := 9223372036.

(** Sample rows. *)

Definition jobEveryMinute : CronJob.t :=
  CronJob.mk "j1" "job" true (Some "* * * * *") (Some 60) "do" false
    None None None None "forbid" None None 5 7.

Definition jobHugeInterval : CronJob.t :=
  CronJob.mk "j1" "job" true None (Some 9223372037) "do" false
    None None None None "forbid" None None 5 7.

(** The number of characters of a UTF-8 text: the bytes that do not
    continue a character (those outside 0x80..0xBF). *)
Definition isContinuation (c : ascii) : bool :=
  (128 <=? byteOf c)%N && (byteOf c <? 192)%N.

Fixpoint charCount (s : string) : Z :=
  match s with
  | EmptyString => 0
  | String c r => (if isContinuation c then 0 else 1) + charCount r
  end.

(** U+00E9, two bytes in UTF-8. *)
Definition eAcute : string := String (ascii_of_N 195) (String (ascii_of_N 169) EmptyString).

Definition accents2 : string := eAcute +:+ eAcute.
Definition accents3 : string := eAcute +:+ eAcute +:+ eAcute.
Definition accents5 : string := accents3 +:+ accents2.



(** The row [r] after orphan recovery. *)
Definition recoveredRow (env : Env) (now : Z) (r : CronRun.t) : CronRun.t :=
  if String.eqb (CronRun.Status r) StatusRunning then
    CronRun.mk (CronRun.ID r) (CronRun.JobID r) (CronRun.JobUpdatedAt r) StatusFailed
      (CronRun.ScheduledFor r) (CronRun.StartedAt r) (Some now)
      (CronRun.Attempt r) (Some "process restarted") (CronRun.ResultSummary r)
      (CronRun.CreatedAt r) (dbNow env)
  else r.

Definition sampleConfig : Config := mkConfig true 2 (1 * Second) 2000 1000.
Definition sampleScheduler : Scheduler.t := mkScheduler sampleConfig "default-model".
Definition tightScheduler : Scheduler.t :=
  mkScheduler (mkConfig true 1 (1 * Second) 4 4) "default-model".
Definition sampleEnv : Env := mkEnv "run-2" 1000.

Definition jobInterval : CronJob.t :=
  CronJob.mk "j1" "job" true None (Some 60) "do" false
    None None None None "forbid" None (Some 100) 5 7.

Definition runRunning : CronRun.t :=
  CronRun.mk "run-1" "j1" 7 "running" 40 (Some 41) None 1 None None 40 41.

Definition runQueued : CronRun.t :=
  CronRun.mk "run-0" "j1" 7 "queued" 40 None None 1 None None 40 40.

Definition sampleStore : Store := mkStore [jobInterval] [runQueued; runRunning].

Definition outcomeTimedOut : outcome :=
  mkOutcome None (Some "context deadline exceeded") CtxDeadlineExceeded CtxNone None.

Definition outcomeAccents : outcome :=
  mkOutcome (Some accents5) (Some accents3) CtxNone CtxNone None.

(** The number of runs of the job that are running. *)
Definition runningCount (st : Store) (jobID : string) : Z :=
  Z.of_nat (length (filter (λ r, String.eqb (CronRun.JobID r) jobID
                                 && String.eqb (CronRun.Status r) StatusRunning = true)
                      (runs st))).

(** The overlap policy as the enqueue transaction reads it: trimmed, in
    lower case, and [forbid] when nothing is left. *)
Definition normalPolicy (p : string) : string :=
  let p0 := ToLower (TrimSpace p) in
  if String.eqb p0 "" then overlapForbid else p0.

(** The job-row update of a fire at [scheduledFor] (step 3 of the enqueue
    transaction), when it can be computed. *)
Definition firedColumns (job : CronJob.t) (scheduledFor : Z) : result (list jobColumn) :=
  if CronJob.RunOnce job then
    Ok [ColEnabled false; ColLastRunAt (Some scheduledFor); ColNextRunAt None]
  else
    match nextRunAt job scheduledFor with
    | Err e => Err e
    | Ok nxt => Ok [ColLastRunAt (Some scheduledFor); ColNextRunAt (Some nxt)]
    end.

(** The run row a fire inserts. *)
Definition newRun (env : Env) (job : CronJob.t) (scheduledFor : Z) (skip : bool) : CronRun.t :=
  CronRun.mk (uuid env) (CronJob.ID job) (CronJob.UpdatedAt job)
    (if skip then StatusSkipped else StatusQueued) scheduledFor None None 1
    (if skip then Some "overlap_forbid: prior run still running" else None) None
    (dbNow env) (dbNow env).

(** The job is due at [now], for the fire time [scheduledFor]. *)
Definition due (job : CronJob.t) (now scheduledFor : Z) : Prop :=
  CronJob.Enabled job = true ∧ CronJob.NextRunAt job = Some scheduledFor
  ∧ scheduledFor ≤ now.

Definition freshUUID (env : Env) (st : Store) : Prop :=
  existsb (λ r, String.eqb (CronRun.ID r) (uuid env)) (runs st) = false.

Definition jobQueuePolicy : CronJob.t :=
  CronJob.mk "j1" "job" true None (Some 60) "do" false
    None None None None "queue" None (Some 100) 5 7.

Definition jobRunOnce : CronJob.t :=
  CronJob.mk "j1" "job" true (Some "0 9 * * *") None "do" true
    None None None None "forbid" None (Some 100) 5 7.

Definition storeQueuePolicy : Store := mkStore [jobQueuePolicy] [runQueued; runRunning].
Definition storeRunOnce : Store := mkStore [jobRunOnce] [runQueued].

Definition jobNoSchedule : CronJob.t :=
  CronJob.mk "j1" "job" true None None "do" false
    None None None None "forbid" None (Some 100) 5 7.

Definition storeNoSchedule : Store := mkStore [jobNoSchedule] [runRunning].

(** The expression of a parsed text, for the examples. *)
Definition nextOf (expr : string) (after : Time) : result Time :=
  match Cron.parseCronExpr expr with
  | Ok e => Cron.next e after
  | Err e => Err e
  end.

(** The Unix times from which every sum of seconds taken below stays
    within 64 bits: the library adds 62135596800 to the seconds of an
    instant, the search of the cron engine at most 367 days, and an
    interval whose duration fits in 64 bits at most 9223372036 seconds. *)
Definition unixInRange (t : Z) : Prop := - 2^62 ≤ t ≤ 2^62.

(** A due job whose interval is one second more than fits in 64 bits of
    nanoseconds, with a run still running. *)
Definition jobHugeDue : CronJob.t :=
  CronJob.mk "j1" "job" true None (Some 9223372037) "do" false
    None None None None "forbid" None (Some 100) 5 7.

Definition storeHugeDue : Store := mkStore [jobHugeDue] [runRunning].

(** A job with a timeout of 90 seconds and a model of its own. *)
Definition jobTimeout90 : CronJob.t :=
  CronJob.mk "j1" "job" true None (Some 60) "do" false
    None None (Some " small-model ") (Some 90) "forbid" None (Some 100) 5 7.



(** The job look-up failed because the worker's context was canceled. *)
Definition outcomeLookupCanceled : outcome :=
  mkOutcome None None CtxNone CtxCanceled (Some "context canceled").

(** No white-space rune starts at any byte of [s]. *)
Fixpoint noSpaceIn (s : string) : Prop :=
  match s with
  | EmptyString => True
  | String _ r => spaceWidth s = 0%nat ∧ noSpaceIn r
  end.

(** No white-space rune starts at any byte of [cur] when [cur] is followed
    by [s]: what Fields has gathered of a field while [s] is still to be
    read. *)
Fixpoint clearOf (cur s : string) : Prop :=
  match cur with
  | EmptyString => True
  | String _ r => spaceWidth (cur +:+ s) = 0%nat ∧ clearOf r s
  end.

(** ["0 0 13 * 5"] as parseCronExpr returns it: midnight on the 13th of
    the month or on a Friday. *)
Definition exprThirteenthOrFriday : Cron.cronExpr :=
  Cron.mkCronExpr
    (Some (Cron.mkValueSet 0 59 false {[ 0 ]}))
    (Some (Cron.mkValueSet 0 23 false {[ 0 ]}))
    (Some (Cron.mkValueSet 1 31 false {[ 13 ]}))
    (Some (Cron.mkValueSet 1 12 true ∅))
    (Some (Cron.mkValueSet 0 6 false {[ 5 ]}))
    false false.
(** * The rest of the scheduler: the tick, the claim and the drain loop *)

(** One turn of [for _, job := range jobs] in reconcileMissingNextRunAt. *)
Definition reconcileMissingJob (env : Env) (now : Z) (st : Store) (job : CronJob.t) : Store :=
  match nextRunAt job now with
  | Err _ => updateJobsWhereID env (CronJob.ID job) [ColEnabled false] st
  | Ok nxt => updateJobsWhereID env (CronJob.ID job) [ColNextRunAt (Some nxt)] st
  end.

(** [Where("enabled = ?", true).Where("next_run_at IS NULL").Find(&jobs)],
    then the loop. *)
Definition reconcileMissingNextRunAt (env : Env) (now : Z) (st : Store) : Store :=
  fold_left (reconcileMissingJob env now)
    (filter (λ j, CronJob.Enabled j = true ∧ CronJob.NextRunAt j = None) (jobs st)) st.

(** [enabled = true AND next_run_at IS NOT NULL AND next_run_at <= now] *)
Definition dueNow (now : Z) (j : CronJob.t) : bool :=
  CronJob.Enabled j
  && match CronJob.NextRunAt j with
     | Some at_ => at_ <=? now
     | None => false
     end.

(** [for _, job := range due { s.enqueueJobIfDue(ctx, job.ID, now) }]: an
    error of one job is logged and the loop goes on.  [envAt i] is what the
    statements of the [i]-th transaction take from outside. *)
Fixpoint enqueueAll (envAt : nat → Env) (i : nat) (now : Z) (due : list CronJob.t)
  (st : Store) : Store :=
  match due with
  | [] => st
  | job :: rest =>
    enqueueAll envAt (S i) now rest
      (enqueueJobIfDue (envAt i) (CronJob.ID job) now st).1
  end.

Definition tick (env : Env) (envAt : nat → Env) (now : Z) (st : Store) : Store :=
  let st1 := reconcileMissingNextRunAt env now st in
  let due := filter (λ j, dueNow now j = true) (jobs st1) in
  enqueueAll envAt 0 now due st1.

(** [Where("status = ?", StatusQueued).Order("scheduled_for asc").Limit(1)]:
    the queued run with the least [scheduled_for]; among equals the one
    that comes first in the table. *)
Fixpoint leastScheduled (best : CronRun.t) (l : list CronRun.t) : CronRun.t :=
  match l with
  | [] => best
  | r :: rest =>
    leastScheduled
      (if CronRun.ScheduledFor r <? CronRun.ScheduledFor best then r else best) rest
  end.

Definition selectNextQueued (st : Store) : option CronRun.t :=
  match filter (λ r, String.eqb (CronRun.Status r) StatusQueued = true) (runs st) with
  | [] => None
  | r :: rest => Some (leastScheduled r rest)
  end.

(** The conditional update of the claim:
    [Where("id = ? AND status = ?", r.ID, StatusQueued)
       .Updates({status: running, started_at: now})]. *)
Definition claimUpdate (env : Env) (now : Z) (r : CronRun.t) (st : Store) : Store * Z :=
  updateRunsWhere env
    (λ x, String.eqb (CronRun.ID x) (CronRun.ID r)
          && String.eqb (CronRun.Status x) StatusQueued)
    [ColStatus StatusRunning; ColStartedAt (Some now)] st.

(** The run handed to the worker: the selected row with the two fields the
    function sets on its copy. *)
Definition claimedCopy (now : Z) (r : CronRun.t) : CronRun.t :=
  CronRun.mk (CronRun.ID r) (CronRun.JobID r) (CronRun.JobUpdatedAt r) StatusRunning
    (CronRun.ScheduledFor r) (Some now) (CronRun.FinishedAt r)
    (CronRun.Attempt r) (CronRun.Error r) (CronRun.ResultSummary r)
    (CronRun.CreatedAt r) (CronRun.UpdatedAt r).

Definition claimNextQueuedRun (env : Env) (now : Z) (st : Store)
  : Store * option CronRun.t :=
  match selectNextQueued st with
  | None => (st, None)
  | Some r =>
    let '(st', rows) := claimUpdate env now r st in
    if rows =? 0 then (st', None) else (st', Some (claimedCopy now r))
  end.

(** The model name executeRun hands to the runner. *)
Definition resolveModel (s : Scheduler.t) (job : CronJob.t) : string :=
  match CronJob.Model job with
  | Some m => if negb (String.eqb (TrimSpace m) "") then TrimSpace m else defaultModel s
  | None => defaultModel s
  end.


(** ** Vocabulary of the further properties *)




Definition uniqueJobIDs (st : Store) : Prop := NoDup (map CronJob.ID (jobs st)).

(** The job row after the start-up reconciliation at [now]. *)
Definition reconciledRow (env : Env) (now : Z) (j : CronJob.t) : CronJob.t :=
  if CronJob.Enabled j then
    match nextRunAt j now with
    | Err _ => assignJob [ColEnabled false; ColJobUpdatedAt (dbNow env)] j
    | Ok nxt =>
      match CronJob.NextRunAt j with
      | None => assignJob [ColNextRunAt (Some nxt); ColJobUpdatedAt (dbNow env)] j
      | Some at_ =>
        if at_ <? now
        then assignJob [ColNextRunAt (Some nxt); ColJobUpdatedAt (dbNow env)] j
        else j
      end
    end
  else j.

(** The job row after the per-tick reconciliation at [now]. *)
Definition missingRow (env : Env) (now : Z) (j : CronJob.t) : CronJob.t :=
  if CronJob.Enabled j then
    match CronJob.NextRunAt j with
    | Some _ => j
    | None =>
      match nextRunAt j now with
      | Err _ => assignJob [ColEnabled false; ColJobUpdatedAt (dbNow env)] j
      | Ok nxt => assignJob [ColNextRunAt (Some nxt); ColJobUpdatedAt (dbNow env)] j
      end
    end
  else j.

Definition sampleEnvAt (i : nat) : Env :=
  mkEnv (String (ascii_of_N (Z.to_N (Z.of_nat i + 97))) "-run") 1000.








Definition jobStale : CronJob.t :=
  CronJob.mk "j2" "stale" true (Some "0 9 * * *") None "do" false
    None None None None "forbid" None (Some 100) 5 7.

Definition storeStale : Store := mkStore [jobInterval; jobStale] [runQueued; runRunning].

(** Rows that the per-tick reconciliation writes: enabled, with a null
    [next_run_at]; the third has an expression that does not parse. *)
Definition jobNewInterval : CronJob.t :=
  CronJob.mk "j4" "every-minute" true None (Some 60) "do" false
    None None None None "forbid" None None 5 7.

Definition jobNewCron : CronJob.t :=
  CronJob.mk "j5" "daily" true (Some "0 9 * * *") None "do" false
    None None None None "forbid" None None 5 7.

Definition jobNewBad : CronJob.t :=
  CronJob.mk "j6" "broken" true (Some "61 9 * * *") None "do" false
    None None None None "forbid" None None 5 7.

Definition storeNullNext : Store :=
  mkStore [jobNewInterval; jobNewCron; jobNewBad; jobInterval] [runQueued].

(** The values a field of range [lo..hi] may hold: those of the range
    and, in a field that starts at 1, the two values the step loop adds
    when [v += step] wraps around. *)
Definition inField (lo hi x : Z) : Prop :=
  lo ≤ x ≤ hi ∨ (lo = 1 ∧ (x = - 2^63 ∨ x = -1)).

(** What a parsed field holds: either every value, or a set that is not
    empty and whose values are those a field may hold. *)
Definition fieldOK (vs : Cron.valueSet) (lo hi : Z) : Prop :=
  Cron.vmin vs = lo ∧ Cron.vmax vs = hi
  ∧ ((Cron.all vs = true ∧ Cron.val vs = ∅)
     ∨ (Cron.all vs = false ∧ Cron.val vs ≠ ∅
        ∧ ∀ x, x ∈ Cron.val vs → inField lo hi x)).

(** The compiled form of ["0 9 * * *"]. *)
Definition exprDaily0900 : Cron.cronExpr :=
  Cron.mkCronExpr
    (Some (Cron.mkValueSet 0 59 false {[ 0 ]}))
    (Some (Cron.mkValueSet 0 23 false {[ 9 ]}))
    (Some (Cron.mkValueSet 1 31 true ∅))
    (Some (Cron.mkValueSet 1 12 true ∅))
    (Some (Cron.mkValueSet 0 6 true ∅))
    true true.

(** A run as the tick leaves it behind. *)
Definition freshRun (now : Z) (r : CronRun.t) : Prop :=
  CronRun.ScheduledFor r ≤ now
  ∧ (CronRun.Status r = StatusQueued ∨ CronRun.Status r = StatusSkipped)
  ∧ CronRun.StartedAt r = None ∧ CronRun.FinishedAt r = None.

(** A statement that rewrites the rows with the id of [a] by [g a]. *)
Definition hitRow (g : CronJob.t → CronJob.t → CronJob.t) (a j : CronJob.t) : CronJob.t :=
  if String.eqb (CronJob.ID j) (CronJob.ID a) then g a j else j.

Definition stepRows (g : CronJob.t → CronJob.t → CronJob.t) (st : Store) (a : CronJob.t)
  : Store :=
  mkStore (map (hitRow g a) (jobs st)) (runs st).

(** What the two reconciliation loops write to a row of the id of the
    snapshot [a]. *)
Definition startRewrite (env : Env) (now : Z) (a j : CronJob.t) : CronJob.t :=
  match nextRunAt a now with
  | Err _ => assignJob [ColEnabled false; ColJobUpdatedAt (dbNow env)] j
  | Ok nxt =>
    match CronJob.NextRunAt a with
    | None => assignJob [ColNextRunAt (Some nxt); ColJobUpdatedAt (dbNow env)] j
    | Some at_ =>
      if at_ <? now
      then assignJob [ColNextRunAt (Some nxt); ColJobUpdatedAt (dbNow env)] j
      else j
    end
  end.

Definition missingRewrite (env : Env) (now : Z) (a j : CronJob.t) : CronJob.t :=
  match nextRunAt a now with
  | Err _ => assignJob [ColEnabled false; ColJobUpdatedAt (dbNow env)] j
  | Ok nxt => assignJob [ColNextRunAt (Some nxt); ColJobUpdatedAt (dbNow env)] j
  end.




(** ** The schedule_job tool (ScheduleJobTool.Execute) *)

(** The parameters as getString and getInt64 read them from the request:
    a missing or ill-typed text is [""], a missing number is [0]; a
    boolean that is absent or ill-typed is [None]. *)
Record jobParams : Type := mkJobParams {
  pName : string;
  pTask : string;
  pEnabled : option bool;
  pSchedule : string;
  pIntervalSeconds : Z;
  pRunOnce : option bool;
  pNotifyTelegramChatID : Z;
  pModel : string;
  pTimeoutSeconds : Z;
  pOverlapPolicy : string
}.

Inductive toolError : Type :=
  | ToolMissingName            (* missing name *)
  | ToolMissingTask            (* missing task *)
  | ToolMissingSchedule        (* missing schedule or interval_seconds *)
  | ToolBothSchedules          (* provide only one of schedule or interval_seconds *)
  | ToolStorage (e : error).

(** The closure [set] of Execute: the fields the request decides. *)
Definition setJobFields (p : jobParams) (j : CronJob.t) : CronJob.t :=
  let schedule := TrimSpace (pSchedule p) in
  let model := TrimSpace (pModel p) in
  let overlap0 := TrimSpace (pOverlapPolicy p) in
  CronJob.mk (CronJob.ID j)
    (TrimSpace (pName p))
    (match pEnabled p with Some b => b | None => true end)
    (if negb (String.eqb schedule "") then Some schedule else None)
    (if negb (String.eqb schedule "") then None else Some (pIntervalSeconds p))
    (TrimSpace (pTask p))
    (match pRunOnce p with Some b => b | None => false end)
    (if negb (pNotifyTelegramChatID p =? 0) then Some (pNotifyTelegramChatID p) else None)
    (CronJob.Provider j)
    (if negb (String.eqb model "") then Some model else None)
    (if 0 <? pTimeoutSeconds p then Some (pTimeoutSeconds p) else None)
    (if String.eqb overlap0 "" then "forbid" else overlap0)
    (CronJob.LastRunAt j) (CronJob.NextRunAt j)
    (CronJob.CreatedAt j) (CronJob.UpdatedAt j).

(** The zero value of the row, which [First] leaves when no row is found. *)
Definition zeroJob : CronJob.t :=
  CronJob.mk "" "" false None None "" false None None None None "" None None 0 0.

(** [Create(&job)] of a row: the BeforeCreate hook fills an empty id; a
    field that has a [default:] tag and holds its zero value is written
    with the default ([enabled] default 1, [run_once] default 0,
    [overlap_policy] default 'forbid'); gorm fills the two times when they
    are zero. *)
Definition createdJob (env : Env) (j : CronJob.t) : CronJob.t :=
  CronJob.mk
    (if String.eqb (CronJob.ID j) "" then uuid env else CronJob.ID j)
    (CronJob.Name j)
    (if CronJob.Enabled j then true else true)
    (CronJob.Schedule j) (CronJob.IntervalSeconds j) (CronJob.Task j)
    (if CronJob.RunOnce j then true else false)
    (CronJob.NotifyTelegramChatID j) (CronJob.Provider j) (CronJob.Model j)
    (CronJob.TimeoutSeconds j)
    (if String.eqb (CronJob.OverlapPolicy j) "" then "forbid" else CronJob.OverlapPolicy j)
    (CronJob.LastRunAt j) (CronJob.NextRunAt j)
    (if CronJob.CreatedAt j =? 0 then dbNow env else CronJob.CreatedAt j)
    (if CronJob.UpdatedAt j =? 0 then dbNow env else CronJob.UpdatedAt j).

(** Execute from the reading of the parameters to the write: the checks,
    the look-up by name, then [Create] of a new row or [Save] of the row
    found, with [next_run_at] reset to null.  The value is the row
    written.  The column [name] has a unique index, so the look-up
    [Where(name).First] has at most one row to find; [Save] writes every
    column of the row whose primary key it holds and sets [updated_at]. *)
Definition scheduleJob (env : Env) (p : jobParams) (st : Store)
  : Store * (toolError + CronJob.t) :=
  let name := TrimSpace (pName p) in
  if String.eqb name "" then (st, inl ToolMissingName)
  else if String.eqb (TrimSpace (pTask p)) "" then (st, inl ToolMissingTask)
  else
    let schedule := TrimSpace (pSchedule p) in
    if String.eqb schedule "" && (pIntervalSeconds p <=? 0)
    then (st, inl ToolMissingSchedule)
    else if negb (String.eqb schedule "") && (0 <? pIntervalSeconds p)
    then (st, inl ToolBothSchedules)
    else
      match find (λ j, String.eqb (CronJob.Name j) name) (jobs st) with
      | None =>
        let row := createdJob env (setJobFields p zeroJob) in
        if existsb (λ j, String.eqb (CronJob.ID j) (CronJob.ID row)) (jobs st)
        then (st, inl (ToolStorage (ErrDuplicateKey (CronJob.ID row))))
        else (mkStore (jobs st ++ [row]) (runs st), inr row)
      | Some found =>
        let row := assignJob [ColNextRunAt None; ColJobUpdatedAt (dbNow env)]
                     (setJobFields p found) in
        (mkStore (map (λ j, if String.eqb (CronJob.ID j) (CronJob.ID found) then row else j)
                      (jobs st))
                 (runs st),
         inr row)
      end.

(** The unique index of the column [name]. *)
Definition uniqueJobNames (st : Store) : Prop := NoDup (map CronJob.Name (jobs st)).

(** The row has exactly one kind of schedule. *)
Definition oneSchedule (j : CronJob.t) : Prop :=
  (∃ sched, CronJob.Schedule j = Some sched ∧ TrimSpace sched ≠ ""
            ∧ CronJob.IntervalSeconds j = None)
  ∨ (∃ iv, CronJob.Schedule j = None ∧ CronJob.IntervalSeconds j = Some iv ∧ 0 < iv).

Definition sampleParams : jobParams :=
  mkJobParams " nightly " "summarise" None " 0 3 * * * " 0 None 0 "" 0 "".

(** The same request with [enabled] set to false. *)
Definition sampleParamsOff : jobParams :=
  mkJobParams " nightly " "summarise" (Some false) " 0 3 * * * " 0 None 0 "" 0 "".

(** The value of the parameter [enabled], true when it is absent or not a
    boolean. *)
Definition requestedEnabled (p : jobParams) : bool :=
  match pEnabled p with Some b => b | None => true end.

(** The ids of the worker loops that a call started, in their order. *)
Definition workerIDs (acts : list action) : list Z :=
  omap (λ a, match a with ActGoWorkerLoop w => Some w | _ => None end) acts.

Definition isScheduleLoop (a : action) : bool :=
  match a with ActGoScheduleLoop => true | _ => false end.

(** The number of schedule loops that a call started. *)
Definition scheduleLoops (acts : list action) : nat :=
  length (filter (λ a, isScheduleLoop a = true) acts).

(** ** The unschedule_job tool (UnscheduleJobTool.Execute) *)

(** The three parameters as getString reads them from the request. *)
Record unscheduleParams : Type := mkUnscheduleParams {
  uJobID : string;
  uName : string;
  uMode : string
}.

Inductive unscheduleError : Type :=
  | UnMissingTarget            (* missing job_id or name *)
  | UnInvalidMode              (* invalid mode (use disable|delete) *)
  | UnNotFound.                (* job not found *)

(** The fields of the answer: [job_id], [name] and [mode]. *)
Record unscheduled : Type := mkUnscheduled {
  outJobID : string;
  outName : string;
  outMode : string
}.

(** The [switch] of Execute: [Where("id = ?", jobID).First] when a job id
    is given, [Where("name = ?", name).First] otherwise. *)
Definition lookupJob (jobID name : string) (st : Store) : option CronJob.t :=
  if negb (String.eqb jobID "")
  then find (λ j, String.eqb (CronJob.ID j) jobID) (jobs st)
  else find (λ j, String.eqb (CronJob.Name j) name) (jobs st).

(** [Delete(&models.CronJob{}, "id = ?", id)].  The run table refers to
    the job table with [OnDelete:CASCADE]; [fk] tells whether the database
    enforces the reference, in which case the runs of the job go with
    it. *)
Definition deleteJob (fk : bool) (id : string) (st : Store) : Store :=
  mkStore
    (filter (λ j, String.eqb (CronJob.ID j) id = false) (jobs st))
    (if fk then filter (λ r, String.eqb (CronRun.JobID r) id = false) (runs st)
     else runs st).

Definition unscheduleJob (env : Env) (fk : bool) (p : unscheduleParams) (st : Store)
  : Store * (unscheduleError + unscheduled) :=
  let jobID := TrimSpace (uJobID p) in
  let name := TrimSpace (uName p) in
  if String.eqb jobID "" && String.eqb name "" then (st, inl UnMissingTarget)
  else
    let mode0 := ToLower (TrimSpace (uMode p)) in
    let mode := if String.eqb mode0 "" then "disable" else mode0 in
    if negb (String.eqb mode "disable") && negb (String.eqb mode "delete")
    then (st, inl UnInvalidMode)
    else
      match lookupJob jobID name st with
      | None => (st, inl UnNotFound)
      | Some job =>
        let out := mkUnscheduled (CronJob.ID job) (CronJob.Name job) mode in
        if String.eqb mode "delete"
        then (deleteJob fk (CronJob.ID job) st, inr out)
        else (updateJobsWhereID env (CronJob.ID job)
                [ColEnabled false; ColNextRunAt None] st,
              inr out)
      end.

Definition sampleDisable : unscheduleParams := mkUnscheduleParams " j1 " "" "".

Definition sampleDelete : unscheduleParams := mkUnscheduleParams "" " job " " Delete ".

(** A paused job whose fire time has passed, beside one that is due. *)
Definition jobOff : CronJob.t :=
  CronJob.mk "j3" "paused" false None (Some 60) "do" false
    None None None None "forbid" None (Some 100) 5 7.

Definition storeOff : Store := mkStore [jobInterval; jobOff] [runRunning].

(** * Properties *)

(** ** The fuel of the string functions is enough *)

Section FuelFacts.

Lemma wrap64_small (z : Z) : minInt64 ≤ z ≤ maxInt64 → wrap64 z = z.
Proof.
  unfold wrap64, minInt64, maxInt64. intros H.
  rewrite Z.mod_small by lia. lia.
Qed.

Lemma spaceWidth_le (s : string) : (spaceWidth s ≤ String.length s)%nat.
Proof.
  destruct s as [|c0 [|c1 [|c2 r]]]; unfold spaceWidth;
    repeat match goal with
           | |- context [if ?b then _ else _] => destruct b
           end; cbn [String.length]; lia.
Qed.

Lemma length_dropBytes (n : nat) :
  ∀ s : string, String.length (dropBytes n s) = (String.length s - n)%nat.
Proof.
  induction n as [|n IH]; intros s; [cbn; lia|].
  destruct s as [|c r]; [reflexivity|]. cbn. apply IH.
Qed.

Lemma trimLeftN_empty (fuel : nat) : trimLeftN fuel "" = "".
Proof. destruct fuel; reflexivity. Qed.

Lemma trimLeftN_fuel (extra fuel : nat) :
  ∀ s : string, (String.length s ≤ fuel)%nat →
    trimLeftN (fuel + extra) s = trimLeftN fuel s.
Proof.
  induction fuel as [|f IH]; intros s Hlen.
  - destruct s; [|cbn in Hlen; lia]. cbn. apply trimLeftN_empty.
  - cbn [Nat.add trimLeftN].
    pose proof (spaceWidth_le s) as Hw.
    destruct (spaceWidth s) as [|w] eqn:Hs; [reflexivity|].
    apply IH. rewrite length_dropBytes. lia.
Qed.

Lemma allSpaceN_fuel (extra fuel : nat) :
  ∀ s : string, (String.length s ≤ fuel)%nat →
    allSpaceN (fuel + extra) s = allSpaceN fuel s.
Proof.
  induction fuel as [|f IH]; intros s Hlen.
  - destruct s; [|cbn in Hlen; lia]. destruct extra; reflexivity.
  - destruct s as [|c r]; [reflexivity|].
    cbn [Nat.add allSpaceN].
    pose proof (spaceWidth_le (String c r)) as Hw.
    destruct (spaceWidth (String c r)) as [|w] eqn:Hs; [reflexivity|].
    apply IH. rewrite length_dropBytes. cbn [String.length] in *. lia.
Qed.

Lemma fieldsN_fuel (extra fuel : nat) :
  ∀ s cur : string, (String.length s ≤ fuel)%nat →
    fieldsN (fuel + extra) s cur = fieldsN fuel s cur.
Proof.
  induction fuel as [|f IH]; intros s cur Hlen.
  - destruct s; [|cbn in Hlen; lia]. destruct extra; reflexivity.
  - destruct s as [|c r]; [reflexivity|].
    cbn [Nat.add fieldsN].
    pose proof (spaceWidth_le (String c r)) as Hw.
    destruct (spaceWidth (String c r)) as [|w] eqn:Hs.
    + apply IH. cbn [String.length] in Hlen. lia.
    + f_equal. apply IH. rewrite length_dropBytes. cbn [String.length] in *. lia.
Qed.

(** Trimming leaves no white space at the head. *)
Lemma trimLeftN_head (fuel : nat) :
  ∀ s : string, (String.length s ≤ fuel)%nat → spaceWidth (trimLeftN fuel s) = 0%nat.
Proof.
  induction fuel as [|f IH]; intros s Hlen.
  - destruct s; [reflexivity|cbn in Hlen; lia].
  - cbn [trimLeftN]. pose proof (spaceWidth_le s) as Hw.
    destruct (spaceWidth s) as [|w] eqn:Hs; [exact Hs|].
    apply IH. rewrite length_dropBytes. lia.
Qed.

Lemma TrimLeftSpace_head (s : string) : spaceWidth (TrimLeftSpace s) = 0%nat.
Proof. apply trimLeftN_head. lia. Qed.

Lemma append_cons (c : ascii) (s t : string) : String c s +:+ t = String c (s +:+ t).
Proof. reflexivity. Qed.

(** A white-space rune at the head of a prefix is one at the head of the
    whole text. *)
Lemma spaceWidth_prefix (p rest : string) :
  spaceWidth p ≠ 0%nat → spaceWidth (p +:+ rest) = spaceWidth p.
Proof.
  destruct p as [|c0 [|c1 [|c2 p']]]; intros Hw.
  - contradiction.
  - rewrite append_cons. change ("" +:+ rest) with rest.
    unfold spaceWidth in *.
    destruct (_ || _)%bool; [reflexivity|]. contradiction.
  - rewrite !append_cons. change ("" +:+ rest) with rest.
    unfold spaceWidth in *.
    destruct (_ || _)%bool; [reflexivity|].
    destruct (_ && _)%bool; [reflexivity|]. contradiction.
  - rewrite !append_cons. reflexivity.
Qed.

Lemma append_snoc (cur : string) (c : ascii) (r : string) :
  (cur +:+ String c "") +:+ r = cur +:+ String c r.
Proof.
  induction cur as [|a cur IH]; [reflexivity|].
  change (String a ((cur +:+ String c "") +:+ r) = String a (cur +:+ String c r)).
  rewrite IH. reflexivity.
Qed.

Lemma clearOf_snoc (cur : string) (c : ascii) (r : string) :
  clearOf cur (String c r) → spaceWidth (String c r) = 0%nat →
  clearOf (cur +:+ String c "") r.
Proof.
  intros Hcur Hc. induction cur as [|a cur IH].
  - change (spaceWidth (String c r) = 0%nat ∧ True). auto.
  - destruct Hcur as [Ha Hcur].
    change (String a cur +:+ String c "") with (String a (cur +:+ String c "")).
    cbn [clearOf]. split; [|apply IH; exact Hcur].
    change (String a (cur +:+ String c "") +:+ r)
      with (String a ((cur +:+ String c "") +:+ r)).
    rewrite append_snoc. exact Ha.
Qed.

Lemma clearOf_noSpaceIn (cur s : string) : clearOf cur s → noSpaceIn cur.
Proof.
  induction cur as [|a cur IH]; [auto|].
  intros [Ha Hcur]. split; [|apply IH; exact Hcur].
  destruct (Nat.eq_dec (spaceWidth (String a cur)) 0%nat) as [|Hne]; [assumption|].
  rewrite (spaceWidth_prefix _ s Hne) in Ha. contradiction.
Qed.

Lemma fieldsN_noSpaceIn (fuel : nat) :
  ∀ (s cur f : string), clearOf cur s → In f (fieldsN fuel s cur) → noSpaceIn f.
Proof.
  assert (Hflush : ∀ (s cur f : string), clearOf cur s → In f (flush cur) → noSpaceIn f).
  { intros s cur f Hcur Hin. destruct cur as [|a cur]; [destruct Hin|].
    destruct Hin as [<-|[]]. apply (clearOf_noSpaceIn _ s Hcur). }
  induction fuel as [|fuel IH]; intros s cur f Hcur Hin; [apply (Hflush s cur f Hcur Hin)|].
  cbn [fieldsN] in Hin.
  destruct s as [|c r]; [apply (Hflush "" cur f Hcur Hin)|].
  destruct (spaceWidth (String c r)) as [|w] eqn:Hw.
  - apply (IH r (cur +:+ String c "") f); [|exact Hin].
    apply clearOf_snoc; assumption.
  - apply in_app_or in Hin. destruct Hin as [Hin|Hin].
    + apply (Hflush (String c r) cur f Hcur Hin).
    + apply (IH _ "" f I Hin).
Qed.

Lemma noSpaceIn_TrimRightSpace (f : string) : noSpaceIn f → TrimRightSpace f = f.
Proof.
  induction f as [|c r IH]; [reflexivity|].
  intros [Hc Hr]. cbn [TrimRightSpace].
  unfold allSpace. cbn [String.length allSpaceN]. rewrite Hc.
  f_equal. apply IH. exact Hr.
Qed.

(** A field that Fields returns has no white space to trim. *)
Lemma Fields_trimmed (s f : string) : In f (Fields s) → TrimSpace f = f.
Proof.
  intros Hin.
  assert (Hf : noSpaceIn f) by (apply (fieldsN_noSpaceIn _ s "" f I Hin)).
  unfold TrimSpace.
  assert (Hleft : TrimLeftSpace f = f).
  { unfold TrimLeftSpace. destruct f as [|c r]; [reflexivity|].
    destruct Hf as [Hc _]. cbn [String.length trimLeftN]. rewrite Hc. reflexivity. }
  rewrite Hleft. apply noSpaceIn_TrimRightSpace. exact Hf.
Qed.

(** The step loop of parseField: for the five cron fields the fuel is
    enough, also when [v += step] wraps around. *)
Lemma stepLoop_nowrap (hi step : Z) (extra fuel : nat) :
  0 < step → step ≤ maxInt64 - hi →
  ∀ (v : Z) (acc : gset Z),
    0 ≤ v → (Z.to_nat (hi - v + 1) ≤ fuel)%nat →
    Cron.stepLoop (fuel + extra) v hi step acc = Cron.stepLoop fuel v hi step acc.
Proof.
  intros Hstep Hfit.
  induction fuel as [|f IH]; intros v acc Hv Hfuel.
  - cbn [Nat.add Cron.stepLoop].
    destruct extra; [reflexivity|]. cbn [Cron.stepLoop].
    destruct (Z.leb_spec v hi); [lia|reflexivity].
  - cbn [Nat.add Cron.stepLoop].
    destruct (Z.leb_spec v hi); [|reflexivity].
    rewrite wrap64_small by (unfold minInt64, maxInt64 in *; lia).
    apply IH; lia.
Qed.

Lemma stepLoop_fuel (lo hi step : Z) (extra : nat) (acc : gset Z) :
  0 ≤ lo ≤ 1 → lo < hi → hi < 2^62 → 0 < step ≤ maxInt64 →
  Cron.stepLoop (Cron.stepFuel lo hi + extra) lo hi step acc
  = Cron.stepLoop (Cron.stepFuel lo hi) lo hi step acc.
Proof.
  intros Hlo Hlt Hhi Hstep.
  destruct (Z.le_gt_cases step (maxInt64 - hi)) as [Hfit|Hbig].
  - apply stepLoop_nowrap; try lia. unfold Cron.stepFuel. lia.
  - unfold Cron.stepFuel.
    destruct (Z.to_nat (hi - lo)) as [|m] eqn:Hm; [lia|].
    replace (S m + 3)%nat with (S (S (S (S m)))) by lia.
    cbn [Nat.add Cron.stepLoop].
    destruct (Z.leb_spec lo hi); [|lia].
    unfold maxInt64, minInt64 in *.
    destruct (Z.le_gt_cases (lo + step) (2^63 - 1)) as [Hsmall|Hwrap].
    + rewrite wrap64_small by (unfold minInt64, maxInt64; lia).
      destruct (Z.leb_spec (lo + step) hi); [lia|reflexivity].
    + assert (lo = 1) by lia. assert (step = 2^63 - 1) by lia. subst lo step.
      change (wrap64 (1 + (2^63 - 1))) with (- 2^63).
      destruct (Z.leb_spec (- 2^63) hi); [|lia].
      change (wrap64 (- 2^63 + (2^63 - 1))) with (-1).
      destruct (Z.leb_spec (-1) hi); [|lia].
      change (wrap64 (-1 + (2^63 - 1))) with (2^63 - 2).
      destruct (Z.leb_spec (2^63 - 2) hi); [lia|reflexivity].
Qed.

End FuelFacts.


(** ** The cron engine *)

Section CronFacts.

Import Cron.

Local Ltac zring := unfold Time, Duration in *; ring.

Lemma Minute_pos : 0 < Minute.
Proof. reflexivity. Qed.

Lemma searchWindow_minutes : searchWindow = Minute * (366 * 24 * 60).
Proof. reflexivity. Qed.

(** The search starts at the least whole minute after [after]. *)
Lemma nextStart_aligned (after : Time) : nextStart after mod Minute = 0.
Proof.
  unfold nextStart, Truncate, Add, UTC.
  pose proof Minute_pos as HM.
  set (a := after + Minute).
  rewrite (Z.div_mod a Minute) at 1 by lia.
  replace (Minute * (a / Minute) + a mod Minute - a mod Minute)
    with ((a / Minute) * Minute) by zring.
  apply Z.mod_mul. lia.
Qed.

Lemma nextStart_gt (after : Time) : after < nextStart after.
Proof.
  unfold nextStart, Truncate, Add, UTC.
  pose proof Minute_pos as HM.
  pose proof (Z.mod_pos_bound (after + Minute) Minute HM). lia.
Qed.

Lemma nextStart_least (after u : Time) :
  u mod Minute = 0 → after < u → nextStart after ≤ u.
Proof.
  intros Hu Hlt.
  unfold nextStart, Truncate, Add, UTC.
  pose proof Minute_pos as HM.
  set (a := after + Minute).
  pose proof (Z.div_mod a Minute ltac:(lia)) as Ha.
  pose proof (Z.mod_pos_bound a Minute HM) as Hr.
  pose proof (Z.div_mod u Minute ltac:(lia)) as Hu'.
  rewrite Hu in Hu'.
  assert (a / Minute ≤ u / Minute) by nia.
  nia.
Qed.

(** A whole minute at or after [start] is [start] plus a number of minutes. *)
Lemma aligned_offset (start u : Time) :
  start mod Minute = 0 → u mod Minute = 0 → start ≤ u →
  ∃ i, 0 ≤ i ∧ u = start + Minute * i.
Proof.
  intros Hs Hu Hle.
  pose proof Minute_pos as HM.
  pose proof (Z.div_mod start Minute ltac:(lia)) as Hs'.
  pose proof (Z.div_mod u Minute ltac:(lia)) as Hu'.
  rewrite Hs in Hs'. rewrite Hu in Hu'.
  exists (u / Minute - start / Minute). split; nia.
Qed.

Lemma aligned_shift (start i : Z) :
  start mod Minute = 0 → (start + Minute * i) mod Minute = 0.
Proof.
  intros Hs. pose proof Minute_pos.
  rewrite Z.mul_comm, Z.mod_add by lia. exact Hs.
Qed.

(** The loop of [next] over [k] candidates: with more fuel than candidates
    it ends, on the first candidate the body accepts or, when it accepts
    none of them, on the error. *)
Lemma nextLoop_spec (e : cronExpr) (fuel : nat) :
  ∀ (t : Time) (k : nat), (k < fuel)%nat →
    match nextLoop fuel e t (t + Minute * Z.of_nat k) with
    | Some (Ok r) =>
        ∃ j, 0 ≤ j < Z.of_nat k ∧ r = t + Minute * j ∧ candidate e r = true
             ∧ ∀ i, 0 ≤ i < j → candidate e (t + Minute * i) = false
    | Some (Err err) =>
        err = ErrNoMatch
        ∧ ∀ i, 0 ≤ i < Z.of_nat k → candidate e (t + Minute * i) = false
    | None => False
    end.
Proof.
  pose proof Minute_pos as HM.
  induction fuel as [|f IH]; intros t k Hk; [lia|].
  cbn [nextLoop]. unfold Before.
  destruct k as [|k'].
  - replace (t + Minute * Z.of_nat 0) with t by (cbn; zring).
    rewrite Z.ltb_irrefl. split; [reflexivity|]. intros i Hi. cbn in Hi. lia.
  - assert (Hlt : (t <? t + Minute * Z.of_nat (S k')) = true)
      by (apply Z.ltb_lt; nia).
    rewrite Hlt.
    destruct (candidate e t) eqn:Hc.
    + exists 0. unfold UTC.
      split; [lia|]. split; [zring|]. split; [exact Hc|].
      intros i Hi. lia.
    + replace (t + Minute * Z.of_nat (S k'))
        with (Add t Minute + Minute * Z.of_nat k')
        by (unfold Add; rewrite Nat2Z.inj_succ; zring).
      specialize (IH (Add t Minute) k' ltac:(lia)).
      destruct (nextLoop f e (Add t Minute) (Add t Minute + Minute * Z.of_nat k'))
        as [[r|err]|]; [| |exact IH].
      * destruct IH as (j & Hj & Hr & Hcr & Hbefore).
        exists (j + 1).
        split; [lia|]. split; [rewrite Hr; unfold Add; zring|].
        split; [exact Hcr|].
        intros i Hi. destruct (Z.eq_dec i 0) as [->|Hne].
        -- replace (t + Minute * 0) with t by zring. exact Hc.
        -- replace (t + Minute * i) with (Add t Minute + Minute * (i - 1))
             by (unfold Add; zring).
           apply Hbefore. lia.
      * destruct IH as [-> Hall]. split; [reflexivity|].
        intros i Hi. destruct (Z.eq_dec i 0) as [->|Hne].
        -- replace (t + Minute * 0) with t by zring. exact Hc.
        -- replace (t + Minute * i) with (Add t Minute + Minute * (i - 1))
             by (unfold Add; zring).
           apply Hall. lia.
Qed.

(** The fuel of [next] is never used up. *)
Lemma nextLoop_fuel (e : cronExpr) (after : Time) :
  nextLoop searchFuel e (nextStart after) (Add (nextStart after) searchWindow) ≠ None.
Proof.
  pose proof (nextLoop_spec e searchFuel (nextStart after)
                (Z.to_nat (366 * 24 * 60))) as H.
  rewrite Z2Nat.id in H by lia.
  rewrite <- searchWindow_minutes in H.
  unfold Add. intros Hnone. rewrite Hnone in H. apply H.
  unfold searchFuel. lia.
Qed.

(** The loop body in closed form: minute, hour and month must match, and
    the two day fields combine by the flags. *)
Lemma candidate_eq (e : cronExpr) (t : Time) :
  candidate e t =
    has (minute e) (MinuteOf t) && has (hour e) (HourOf t)
    && has (month e) (MonthOf t)
    && dayRule e t.
Proof.
  unfold candidate, dayRule.
  destruct (has (minute e) _), (has (hour e) _), (has (month e) _),
    (has (dom e) _), (has (dow e) _), (domAny e), (dowAny e); reflexivity.
Qed.

Lemma next_cases (e : cronExpr) (after : Time) :
  (∃ t, next e after = Ok t
        ∧ (∃ j, 0 ≤ j < 366 * 24 * 60 ∧ t = nextStart after + Minute * j)
        ∧ candidate e t = true
        ∧ ∀ i, 0 ≤ i → nextStart after + Minute * i < t →
               candidate e (nextStart after + Minute * i) = false)
  ∨ (next e after = Err ErrNoMatch
     ∧ ∀ i, 0 ≤ i < 366 * 24 * 60 →
            candidate e (nextStart after + Minute * i) = false).
Proof.
  pose proof Minute_pos as HM.
  pose proof (nextLoop_spec e searchFuel (nextStart after)
                (Z.to_nat (366 * 24 * 60))) as H.
  rewrite Z2Nat.id in H by lia.
  rewrite <- searchWindow_minutes in H.
  specialize (H ltac:(unfold searchFuel; lia)).
  unfold next, Add.
  destruct (nextLoop searchFuel e (nextStart after) (nextStart after + searchWindow))
    as [[r|err]|]; [| |contradiction].
  - left. destruct H as (j & Hj & Hr & Hc & Hbefore).
    exists r. split; [reflexivity|].
    split; [exists j; split; [lia|exact Hr]|].
    split; [exact Hc|].
    intros i Hi Hlt. apply Hbefore. subst r. nia.
  - right. destruct H as [-> Hall]. split; [reflexivity|exact Hall].
Qed.


(** An expression that parsed has its five sets, and a day field flagged
    as [*] holds every value. *)
Lemma parseField_star (tok : string) (lo hi : Z) :
  String.eqb (GoStrings.TrimSpace tok) "*" = true →
  parseField tok lo hi = Ok (mkValueSet lo hi true ∅).
Proof.
  intros H. unfold parseField.
  apply String.eqb_eq in H. rewrite H. reflexivity.
Qed.

Lemma parseFieldWithAny_flag (tok : string) (lo hi : Z) (vs : valueSet) (any : bool) :
  parseFieldWithAny tok lo hi = Ok (vs, any) →
  any = String.eqb (GoStrings.TrimSpace tok) "*" ∧ (any = true → all vs = true).
Proof.
  unfold parseFieldWithAny. intros H.
  destruct (String.eqb (GoStrings.TrimSpace tok) "*") eqn:Hstar.
  - rewrite (parseField_star _ _ _ Hstar) in H. inversion H; subst. auto.
  - destruct (parseField tok lo hi); inversion H; subst. split; [reflexivity|discriminate].
Qed.

Lemma has_all (vs : valueSet) (v : Z) : all vs = true → has (Some vs) v = true.
Proof. intros H. unfold has. rewrite H. reflexivity. Qed.


(** What an accepted expression is made of: its five fields in their
    order, with the two flags of the day fields. *)
Lemma parseCronExpr_parts (expr : string) (e : cronExpr) :
  parseCronExpr expr = Ok e →
  ∃ f0 f1 f2 f3 f4 mi ho dm mo dw,
    GoStrings.Fields (GoStrings.TrimSpace expr) = [f0; f1; f2; f3; f4]
    ∧ parseField f0 0 59 = Ok mi ∧ parseField f1 0 23 = Ok ho
    ∧ parseField f2 1 31 = Ok dm ∧ parseField f3 1 12 = Ok mo
    ∧ parseField f4 0 6 = Ok dw
    ∧ e = mkCronExpr (Some mi) (Some ho) (Some dm) (Some mo) (Some dw)
            (String.eqb f2 "*") (String.eqb f4 "*").
Proof.
  unfold parseCronExpr. intros H.
  destruct (GoStrings.Fields (GoStrings.TrimSpace expr))
    as [|f0 [|f1 [|f2 [|f3 [|f4 [|f5 l]]]]]] eqn:Hf; try discriminate.
  assert (H2 : GoStrings.TrimSpace f2 = f2)
    by (apply (Fields_trimmed (GoStrings.TrimSpace expr)); rewrite Hf; cbn; auto).
  assert (H4 : GoStrings.TrimSpace f4 = f4)
    by (apply (Fields_trimmed (GoStrings.TrimSpace expr)); rewrite Hf; cbn; auto 6).
  unfold parseFieldWithAny in H. rewrite H2, H4 in H.
  destruct (parseField f0 0 59) as [mi|] eqn:H0'; [|discriminate].
  destruct (parseField f1 0 23) as [ho|] eqn:H1'; [|discriminate].
  destruct (parseField f2 1 31) as [dm|] eqn:H2'; [|discriminate].
  destruct (parseField f3 1 12) as [mo|] eqn:H3'; [|discriminate].
  destruct (parseField f4 0 6) as [dw|] eqn:H4'; [|discriminate].
  inversion H; subst e.
  exists f0, f1, f2, f3, f4, mi, ho, dm, mo, dw.
  repeat split; first [assumption|reflexivity].
Qed.

(** C7.  An expression that parses has five fields in the text; its third
    field gives the day-of-month set and its fifth field the day-of-week
    set.  A candidate instant that matches minute, hour and month is
    accepted by [next] exactly when: with both day fields restricted
    (neither is [*]), the day of month is in the third field's set or the
    day of week in the fifth field's; with only one restricted, the day is
    in the set of that one; with neither restricted, always.  The field
    that is [*] is not consulted. *)
Theorem dom_dow_combination (expr : string) (e : cronExpr) :
  parseCronExpr expr = Ok e →
  ∃ f0 f1 f2 f3 f4 dm dw,
    GoStrings.Fields (GoStrings.TrimSpace expr) = [f0; f1; f2; f3; f4]
    ∧ parseField f2 1 31 = Ok dm
    ∧ parseField f4 0 6 = Ok dw
    ∧ ∀ t : Time,
        candidate e t =
          has (minute e) (MinuteOf t) && has (hour e) (HourOf t)
          && has (month e) (MonthOf t)
          && match String.eqb f2 "*", String.eqb f4 "*" with
             | false, false => has (Some dm) (DayOf t) || has (Some dw) (WeekdayOf t)
             | false, true => has (Some dm) (DayOf t)
             | true, false => has (Some dw) (WeekdayOf t)
             | true, true => true
             end.
Proof.
  intros Hparse.
  destruct (parseCronExpr_parts expr e Hparse)
    as (f0 & f1 & f2 & f3 & f4 & mi & ho & dm & mo & dw
        & Hf & _ & _ & Hdm & _ & Hdw & ->).
  exists f0, f1, f2, f3, f4, dm, dw.
  split; [exact Hf|]. split; [exact Hdm|]. split; [exact Hdw|].
  intros t. rewrite candidate_eq. unfold dayRule. cbn [dom dow domAny dowAny]. reflexivity.
Qed.

Lemma dom_dow_combination_witness :
  parseCronExpr "0 0 13 * 5" = Ok exprThirteenthOrFriday
  ∧ candidate exprThirteenthOrFriday (Date 2026 2 13 0 0 0) = true
  ∧ candidate exprThirteenthOrFriday (Date 2026 2 6 0 0 0) = true
  ∧ candidate exprThirteenthOrFriday (Date 2026 1 13 0 0 0) = true
  ∧ candidate exprThirteenthOrFriday (Date 2026 2 12 0 0 0) = false.
Proof.
  split; [vm_compute; reflexivity|].
  destruct (dom_dow_combination "0 0 13 * 5" exprThirteenthOrFriday)
    as (f0 & f1 & f2 & f3 & f4 & dm & dw & Hf & Hdm & Hdw & Hrule);
    [vm_compute; reflexivity|].
  vm_compute in Hf. inversion Hf; subst f0 f1 f2 f3 f4; clear Hf.
  vm_compute in Hdm. inversion Hdm; subst dm; clear Hdm.
  vm_compute in Hdw. inversion Hdw; subst dw; clear Hdw.
  rewrite !Hrule. vm_compute. auto.
Defined.

(** The cases of the repository's tests, and the calendar on known days. *)
Example next_daily_at_0900 :
  nextOf "0 9 * * *" (Date 2026 2 3 8 59 59) = Ok (Date 2026 2 3 9 0 0).
Proof. vm_compute. reflexivity. Qed.

Example next_all_any :
  nextOf "* * * * *" (Date 2026 2 3 9 0 30) = Ok (Date 2026 2 3 9 1 0).
Proof. vm_compute. reflexivity. Qed.

Example parse_four_fields :
  parseCronExpr "0 0 * *" = Err (ErrFieldCount "0 0 * *").
Proof. vm_compute. reflexivity. Qed.

(** Both day fields restricted: from Tuesday 2026-02-03 the next match of
    "the 13th or a Friday" is Friday the 6th. *)
Example next_13th_or_friday :
  nextOf "0 0 13 * 5" (Date 2026 2 3 0 0 0) = Ok (Date 2026 2 6 0 0 0)
  ∧ WeekdayOf (Date 2026 2 6 0 0 0) = 5.
Proof. vm_compute. split; reflexivity. Qed.

Example calendar_samples :
  (YearOf (Unix 0 0), MonthOf (Unix 0 0), DayOf (Unix 0 0), WeekdayOf (Unix 0 0))
    = (1970, 1, 1, 4)
  ∧ (MonthOf (Date 2024 2 29 12 0 0), DayOf (Date 2024 2 29 12 0 0),
     WeekdayOf (Date 2024 2 29 12 0 0)) = (2, 29, 4)
  ∧ (MonthOf (Date 2000 1 1 0 0 0), DayOf (Date 2000 1 1 0 0 0),
     WeekdayOf (Date 2000 1 1 0 0 0)) = (1, 1, 6)
  ∧ (MonthOf (Date 1969 12 31 23 59 59), DayOf (Date 1969 12 31 23 59 59),
     WeekdayOf (Date 1969 12 31 23 59 59), HourOf (Date 1969 12 31 23 59 59),
     MinuteOf (Date 1969 12 31 23 59 59)) = (12, 31, 3, 23, 59).
Proof. vm_compute. repeat split; reflexivity. Qed.

End CronFacts.

(** ** The schedule resolver *)

Section ResolverFacts.

Lemma nextRunAt_cron (job : CronJob.t) (sched : string) (afterUnix : Z) :
  CronJob.Schedule job = Some sched →
  String.eqb (TrimSpace sched) "" = false →
  nextRunAt job afterUnix = cronNextUnix sched afterUnix.
Proof.
  intros Hs Hne. unfold nextRunAt, cronNextUnix, UTC.
  rewrite Hs, Hne. reflexivity.
Qed.

Lemma nextRunAt_no_cron (job : CronJob.t) (afterUnix : Z) :
  scheduleSet job = false →
  nextRunAt job afterUnix =
    match CronJob.IntervalSeconds job with
    | Some iv =>
      if 0 <? iv then Ok (ToUnix (Add (Unix afterUnix 0) (wrap64 (iv * Second))))
      else Err ErrNoSchedule
    | None => Err ErrNoSchedule
    end.
Proof.
  unfold scheduleSet, nextRunAt, UTC. intros H.
  destruct (CronJob.Schedule job) as [sched|]; [|reflexivity].
  destruct (String.eqb (TrimSpace sched) ""); [reflexivity|discriminate].
Qed.

(** Without a cron expression and with an interval whose duration fits in
    64 bits, the next run is [interval_seconds] after [afterUnix]. *)
Lemma nextRunAt_interval (job : CronJob.t) (iv afterUnix : Z) :
  scheduleSet job = false →
  CronJob.IntervalSeconds job = Some iv →
  0 < iv ≤ maxIntervalSeconds →
  nextRunAt job afterUnix = Ok (afterUnix + iv).
Proof.
  intros Hs Hiv Hrange. rewrite nextRunAt_no_cron by exact Hs. rewrite Hiv.
  destruct (Z.ltb_spec 0 iv); [|lia].
  unfold maxIntervalSeconds in Hrange.
  rewrite wrap64_small by (unfold minInt64, maxInt64, Second; lia).
  unfold ToUnix, Add, Unix. f_equal.
  replace (afterUnix * Second + 0 + iv * Second) with ((afterUnix + iv) * Second)
    by (unfold Duration; ring).
  apply Z.div_mul. discriminate.
Qed.

Lemma nextRunAt_neither (job : CronJob.t) (afterUnix : Z) :
  scheduleSet job = false →
  match CronJob.IntervalSeconds job with Some iv => iv ≤ 0 | None => True end →
  nextRunAt job afterUnix = Err ErrNoSchedule.
Proof.
  intros Hs Hiv. rewrite nextRunAt_no_cron by exact Hs.
  destruct (CronJob.IntervalSeconds job) as [iv|]; [|reflexivity].
  destruct (Z.ltb_spec 0 iv); [lia|reflexivity].
Qed.

(** C8.  The interval branch computes the duration as a 64-bit product of
    [interval_seconds] and a second in nanoseconds.  For a job without a
    cron expression and with [interval_seconds = 9223372037] the product
    wraps around: [nextRunAt job 0] returns [-9223372037], not
    [0 + 9223372037]. *)
Theorem nextRunAt_interval_overflow :
  scheduleSet jobHugeInterval = false
  ∧ CronJob.IntervalSeconds jobHugeInterval = Some 9223372037
  ∧ nextRunAt jobHugeInterval 0 = Ok (-9223372037)
  ∧ nextRunAt jobHugeInterval 0 ≠ Ok (0 + 9223372037).
Proof. repeat split; try reflexivity. vm_compute. discriminate. Qed.

(** C10.  With a cron expression that is set and not blank, and a positive
    [interval_seconds] as well, [nextRunAt] answers what the cron engine
    answers for the expression: the answer is the same for every value of
    [interval_seconds], and it is a fire time whenever the expression
    parses and has a match.  Conversely an answer that depends on
    [interval_seconds] occurs only for a job whose expression is nil or
    blank. *)
Theorem cron_overrides_interval (job : CronJob.t) (sched : string) (iv afterUnix : Z) :
  CronJob.Schedule job = Some sched →
  String.eqb (TrimSpace sched) "" = false →
  CronJob.IntervalSeconds job = Some iv →
  0 < iv →
  nextRunAt job afterUnix = cronNextUnix sched afterUnix
  ∧ (∀ iv', nextRunAt (withInterval job iv') afterUnix = nextRunAt job afterUnix)
  ∧ (∀ expr t, Cron.parseCronExpr sched = Ok expr →
               Cron.next expr (Unix afterUnix 0) = Ok t →
               nextRunAt job afterUnix = Ok (ToUnix t))
  ∧ (∀ (job' : CronJob.t) (iv1 iv2 : option Z),
       nextRunAt (withInterval job' iv1) afterUnix
         ≠ nextRunAt (withInterval job' iv2) afterUnix →
       CronJob.Schedule job' = None
       ∨ ∃ s, CronJob.Schedule job' = Some s ∧ TrimSpace s = "").
Proof.
  intros Hs Hne Hiv Hpos.
  split; [apply nextRunAt_cron; assumption|].
  split.
  { intros iv'. rewrite (nextRunAt_cron job sched) by assumption.
    apply nextRunAt_cron; [exact Hs|exact Hne]. }
  split.
  { intros expr t Hp Hn. rewrite (nextRunAt_cron job sched) by assumption.
    unfold cronNextUnix. rewrite Hp, Hn. reflexivity. }
  intros job' iv1 iv2 Hdiff.
  destruct (CronJob.Schedule job') as [s|] eqn:Hs'; [|left; reflexivity].
  right. exists s. split; [reflexivity|].
  destruct (String.eqb (TrimSpace s) "") eqn:Hblank.
  - apply String.eqb_eq. exact Hblank.
  - exfalso. apply Hdiff.
    rewrite (nextRunAt_cron (withInterval job' iv1) s) by assumption.
    rewrite (nextRunAt_cron (withInterval job' iv2) s) by assumption.
    reflexivity.
Qed.

Lemma cron_overrides_interval_witness :
  CronJob.Schedule jobEveryMinute = Some "* * * * *"
  ∧ String.eqb (TrimSpace "* * * * *") "" = false
  ∧ CronJob.IntervalSeconds jobEveryMinute = Some 60
  ∧ 0 < 60
  ∧ nextRunAt jobEveryMinute 90 = cronNextUnix "* * * * *" 90.
Proof.
  split; [reflexivity|]. split; [reflexivity|]. split; [reflexivity|].
  split; [lia|].
  apply (cron_overrides_interval jobEveryMinute "* * * * *" 60 90);
    [reflexivity|reflexivity|reflexivity|lia].
Defined.

(** The case of the repository's test: an interval of 60 seconds. *)
Example nextRunAt_interval_60 :
  nextRunAt (withInterval jobNoSchedule (Some 60)) (ToUnix (Date 2026 2 3 9 0 0))
  = Ok (ToUnix (Date 2026 2 3 9 0 0) + 60).
Proof. vm_compute. reflexivity. Qed.

End ResolverFacts.

(** ** Truncation and the outcome of a run *)

Section WorkerFacts.

Lemma length_substring_prefix (n : nat) :
  ∀ s : string, (n ≤ String.length s)%nat → String.length (substring 0 n s) = n.
Proof.
  induction n as [|n IH]; intros s Hn.
  - destruct s; reflexivity.
  - destruct s as [|c r]; cbn in Hn; [lia|].
    cbn. rewrite IH by lia. reflexivity.
Qed.

Lemma substring_whole (n : nat) :
  ∀ s : string, (String.length s ≤ n)%nat → substring 0 n s = s.
Proof.
  induction n as [|n IH]; intros s Hn.
  - destruct s; [reflexivity|cbn in Hn; lia].
  - destruct s as [|c r]; [reflexivity|].
    cbn in Hn. cbn. rewrite IH by lia. reflexivity.
Qed.

(** In bytes: a text of at most [max] bytes is kept, a longer one is cut to
    its first [max] bytes. *)
Lemma truncateString_short (s : string) (max : Z) :
  Z.of_nat (String.length s) ≤ max → truncateString s max = s.
Proof.
  intros H. unfold truncateString.
  destruct (Z.leb_spec (Z.of_nat (String.length s)) max); [|lia].
  rewrite orb_true_r. reflexivity.
Qed.

Lemma truncateString_long (s : string) (max : Z) :
  0 < max < Z.of_nat (String.length s) →
  truncateString s max = substring 0 (Z.to_nat max) s
  ∧ Z.of_nat (String.length (truncateString s max)) = max.
Proof.
  intros H. unfold truncateString.
  destruct (Z.leb_spec max 0); [lia|].
  destruct (Z.leb_spec (Z.of_nat (String.length s)) max); [lia|].
  cbn [orb]. split; [reflexivity|].
  rewrite length_substring_prefix by lia. lia.
Qed.

Lemma truncateString_length (s : string) (max : Z) :
  0 < max → Z.of_nat (String.length (truncateString s max)) ≤ max.
Proof.
  intros Hmax.
  destruct (Z.le_gt_cases (Z.of_nat (String.length s)) max) as [Hle|Hgt].
  - rewrite truncateString_short by exact Hle. exact Hle.
  - destruct (truncateString_long s max ltac:(lia)) as [_ ->]. lia.
Qed.

Lemma truncateString_idem (s : string) (max : Z) :
  truncateString (truncateString s max) max = truncateString s max.
Proof.
  destruct (Z.le_gt_cases max 0) as [Hle|Hpos].
  - unfold truncateString. destruct (Z.leb_spec max 0); [reflexivity|lia].
  - apply truncateString_short. apply truncateString_length. lia.
Qed.

Lemma charCount_le_length (s : string) : 0 ≤ charCount s ≤ Z.of_nat (String.length s).
Proof.
  induction s as [|c r IH]; cbn [charCount String.length]; [lia|].
  destruct (isContinuation c); lia.
Qed.

(** Whatever is stored has at most [max] characters, since it has at most
    [max] bytes. *)
Lemma truncateString_chars (s : string) (max : Z) :
  0 < max → charCount (truncateString s max) ≤ max.
Proof.
  intros Hmax. pose proof (charCount_le_length (truncateString s max)).
  pose proof (truncateString_length s max Hmax). lia.
Qed.

(** C9.  [truncateString] measures and cuts in bytes.  With a maximum of 4,
    the text of three two-byte characters is within the maximum counted in
    characters and is nevertheless cut, to two characters; the text of five
    such characters exceeds the maximum and is stored with two characters,
    not four.  The worker stores these values as the error and the summary
    of the run. *)
Theorem truncateString_counts_bytes :
  charCount accents3 = 3
  ∧ truncateString accents3 4 = accents2
  ∧ charCount accents5 = 5
  ∧ truncateString accents5 4 = accents2
  ∧ charCount accents2 = 2
  ∧ runResult tightScheduler jobInterval outcomeAccents
    = (StatusFailed, Some accents2, Some accents2).
Proof. repeat split; reflexivity. Qed.



(** A look-up that fails ends the run as [failed] with the text of the
    look-up's error; the runner's outcome plays no part. *)
Lemma executeRun_lookup_failed (s : Scheduler.t) (env : Env) (now : Z) (run : CronRun.t)
  (o : outcome) (st : Store) (text : string) :
  lookupErr o = Some text →
  executeRun s env now run o st
  = finishRun env now (CronRun.ID run) StatusFailed
      (Some (truncateString text (MaxErrorChars (cfg s)))) None st.
Proof. intros Hlook. unfold executeRun. rewrite Hlook. reflexivity. Qed.





(** The stored row of the sample: timed out, with the default timeout named. *)
Example executeRun_timed_out :
  runs (executeRun sampleScheduler sampleEnv 200 runRunning outcomeTimedOut sampleStore)
  = [runQueued;
     CronRun.mk "run-1" "j1" 7 "timed_out" 40 (Some 41) (Some 200) 1
       (Some "timeout: run exceeded 10m0s deadline") None 40 1000].
Proof. reflexivity. Qed.

(** A look-up made under a context that is already canceled: the run ends
    as [failed] with the text of that error, and the runner is not
    consulted. *)
Example executeRun_lookup_canceled :
  runs (executeRun sampleScheduler sampleEnv 200 runRunning outcomeLookupCanceled sampleStore)
  = [runQueued;
     CronRun.mk "run-1" "j1" 7 "failed" 40 (Some 41) (Some 200) 1
       (Some "context canceled") None 40 1000].
Proof. reflexivity. Qed.

(** A runner that returns no error gives [succeeded], whatever the
    contexts say. *)
Lemma runResult_success (s : Scheduler.t) (job : CronJob.t) (o : outcome) :
  runErr o = None →
  runResult s job o
  = (StatusSuccess, None,
     option_map (λ x, truncateString x (MaxSummaryChars (cfg s))) (summary o)).
Proof. intros H. unfold runResult, classify. rewrite H. reflexivity. Qed.

(** The limits of a scheduler made by [New] are positive, so what it
    stores never exceeds them in bytes. *)
Lemma New_limits (model : string) (c : Config) (s : Scheduler.t) :
  New model c = Some s →
  0 < Concurrency (cfg s) ∧ 0 < Tick (cfg s)
  ∧ 0 < MaxErrorChars (cfg s) ∧ 0 < MaxSummaryChars (cfg s).
Proof.
  unfold New. destruct (String.eqb (TrimSpace model) ""); [discriminate|].
  intros H. inversion H; subst s; clear H. cbn [cfg].
  destruct c as [en conc tick maxE maxS]. cbn.
  repeat match goal with
         | |- context [?x <=? 0] => destruct (Z.leb_spec x 0); cbn in *
         end.
  all: unfold Second in *; lia.
Qed.

End WorkerFacts.

(** ** The enqueue transaction *)

Section EnqueueFacts.

Lemma find_id (st : Store) (jobID : string) (job : CronJob.t) :
  find (λ j, String.eqb (CronJob.ID j) jobID) (jobs st) = Some job →
  CronJob.ID job = jobID.
Proof.
  intros H. apply find_some in H. destruct H as [_ H].
  apply String.eqb_eq. exact H.
Qed.

(** A due job whose post-fire columns can be computed fires: one run row
    is appended, skipped under the overlap rule and queued otherwise, and
    the job rows of that ID get the columns. *)
Lemma enqueue_due (env : Env) (jobID : string) (now : Z) (st : Store)
  (job : CronJob.t) (scheduledFor : Z) (cols : list jobColumn) :
  find (λ j, String.eqb (CronJob.ID j) jobID) (jobs st) = Some job →
  due job now scheduledFor →
  firedColumns job scheduledFor = Ok cols →
  freshUUID env st →
  let skip := (0 <? runningCount st jobID)
              && String.eqb (normalPolicy (CronJob.OverlapPolicy job)) overlapForbid in
  enqueueJobIfDue env jobID now st
  = (mkStore
       (map (λ j, if String.eqb (CronJob.ID j) jobID
                  then assignJob (cols ++ [ColJobUpdatedAt (dbNow env)]) j else j)
            (jobs st))
       (runs st ++ [newRun env job scheduledFor skip]),
     Ok (negb skip)).
Proof.
  intros Hfind (Hen & Hnext & Hle) Hcols Hfresh skip.
  pose proof (find_id _ _ _ Hfind) as Hid.
  unfold enqueueJobIfDue, Transaction, enqueueBody, bind, firstJob.
  rewrite Hfind, Hen, Hnext.
  destruct (Z.ltb_spec now scheduledFor) as [?|_]; [lia|].
  unfold firedColumns in Hcols.
  assert (Hskip : skip = (0 <? runningCount st (CronJob.ID job))
                         && String.eqb (normalPolicy (CronJob.OverlapPolicy job)) overlapForbid)
    by (rewrite Hid; reflexivity).
  unfold runningCount, normalPolicy in Hskip.
  unfold freshUUID in Hfresh.
  assert (Hfire : ∀ (b : bool) (status : string) (msg : option string),
             (let (st', r) := createRun env
                 (CronRun.mk "" (CronJob.ID job) (CronJob.UpdatedAt job) status
                    scheduledFor None None 1 msg None 0 0) st in
              match r with
              | Ok _ =>
                let (st'0, r0) := updatesJob env (CronJob.ID job) cols st' in
                match r0 with
                | Ok _ => (st'0, Ok b)
                | Err e => (st'0, Err e)
                end
              | Err e => (st', @Err bool e)
              end)
             = (mkStore
                  (map (λ j, if String.eqb (CronJob.ID j) jobID
                             then assignJob (cols ++ [ColJobUpdatedAt (dbNow env)]) j
                             else j) (jobs st))
                  (runs st ++ [CronRun.mk (uuid env) (CronJob.ID job) (CronJob.UpdatedAt job)
                                 status scheduledFor None None 1 msg None
                                 (dbNow env) (dbNow env)]),
                Ok b)).
  { intros b status msg. unfold createRun, updatesJob, updateJobsWhereID.
    cbn [CronRun.ID CronRun.CreatedAt CronRun.UpdatedAt String.eqb Z.eqb].
    rewrite Hfresh. cbn [jobs runs]. rewrite Hid. reflexivity. }
  destruct (CronJob.RunOnce job).
  - inversion Hcols; subst cols; clear Hcols.
    unfold ret, countRuns. rewrite <- Hskip.
    destruct skip; rewrite Hfire; reflexivity.
  - destruct (nextRunAt job scheduledFor) as [nxt|e]; [|discriminate].
    inversion Hcols; subst cols; clear Hcols.
    unfold ret, countRuns. rewrite <- Hskip.
    destruct skip; rewrite Hfire; reflexivity.
Qed.


(** What the post-fire columns leave in a job row. *)
Lemma fired_row (env : Env) (job j : CronJob.t) (scheduledFor : Z) (cols : list jobColumn) :
  firedColumns job scheduledFor = Ok cols →
  let j' := assignJob (cols ++ [ColJobUpdatedAt (dbNow env)]) j in
  CronJob.ID j' = CronJob.ID j
  ∧ CronJob.LastRunAt j' = Some scheduledFor
  ∧ (if CronJob.RunOnce job
     then CronJob.Enabled j' = false ∧ CronJob.NextRunAt j' = None
     else CronJob.Enabled j' = CronJob.Enabled j
          ∧ ∃ nxt, nextRunAt job scheduledFor = Ok nxt
                   ∧ CronJob.NextRunAt j' = Some nxt).
Proof.
  unfold firedColumns. intros Hcols.
  destruct (CronJob.RunOnce job).
  - inversion Hcols; subst cols. cbn. auto.
  - destruct (nextRunAt job scheduledFor) as [nxt|e]; [|discriminate].
    inversion Hcols; subst cols. cbn.
    split; [reflexivity|]. split; [reflexivity|]. split; [reflexivity|].
    exists nxt. split; reflexivity.
Qed.

Lemma fired_rows (env : Env) (job : CronJob.t) (jobID : string) (scheduledFor : Z)
  (cols : list jobColumn) (rows : list CronJob.t) (j' : CronJob.t) :
  firedColumns job scheduledFor = Ok cols →
  In j' (map (λ j, if String.eqb (CronJob.ID j) jobID
                   then assignJob (cols ++ [ColJobUpdatedAt (dbNow env)]) j else j) rows) →
  CronJob.ID j' = jobID →
  CronJob.LastRunAt j' = Some scheduledFor
  ∧ (if CronJob.RunOnce job
     then CronJob.Enabled j' = false ∧ CronJob.NextRunAt j' = None
     else ∃ nxt, nextRunAt job scheduledFor = Ok nxt
                 ∧ CronJob.NextRunAt j' = Some nxt).
Proof.
  intros Hcols Hin Hid.
  apply in_map_iff in Hin. destruct Hin as (j & Hj & _).
  pose proof (fired_row env job j scheduledFor cols Hcols) as (Hid' & Hlast & Hrest).
  destruct (String.eqb (CronJob.ID j) jobID) eqn:Heq.
  - subst j'. split; [exact Hlast|].
    destruct (CronJob.RunOnce job); [exact Hrest|].
    destruct Hrest as (_ & nxt & ? & ?). eauto.
  - subst j'. apply String.eqb_neq in Heq. contradiction.
Qed.

(** The skip under [forbid].  A job found due, whose post-fire columns can
    be computed (it is [run_once], or the schedule resolver gives its next
    fire time), whose overlap policy reads [forbid] and which has a
    running run: the enqueue transaction commits, appends one run with
    status [skipped] (not [queued]) carrying the overlap message, wakes no
    worker, and writes the post-fire columns to the job: [last_run_at] is
    the fire time and [next_run_at] what the resolver returns, or
    [enabled = false] and [next_run_at = null] for [run_once]. *)
Theorem overlap_forbid_skips (env : Env) (jobID : string) (now : Z) (st : Store)
  (job : CronJob.t) (scheduledFor : Z) (cols : list jobColumn) :
  find (λ j, String.eqb (CronJob.ID j) jobID) (jobs st) = Some job →
  due job now scheduledFor →
  firedColumns job scheduledFor = Ok cols →
  freshUUID env st →
  normalPolicy (CronJob.OverlapPolicy job) = overlapForbid →
  0 < runningCount st jobID →
  ∃ st',
    enqueueJobIfDue env jobID now st = (st', Ok false)
    ∧ (∃ run, runs st' = runs st ++ [run]
              ∧ CronRun.Status run = StatusSkipped
              ∧ CronRun.Status run ≠ StatusQueued
              ∧ CronRun.Error run = Some "overlap_forbid: prior run still running"
              ∧ CronRun.JobID run = jobID
              ∧ CronRun.ScheduledFor run = scheduledFor)
    ∧ jobs st' = map (λ j, if String.eqb (CronJob.ID j) jobID
                           then assignJob (cols ++ [ColJobUpdatedAt (dbNow env)]) j
                           else j) (jobs st)
    ∧ ∀ j', In j' (jobs st') → CronJob.ID j' = jobID →
        CronJob.LastRunAt j' = Some scheduledFor
        ∧ (if CronJob.RunOnce job
           then CronJob.Enabled j' = false ∧ CronJob.NextRunAt j' = None
           else ∃ nxt, nextRunAt job scheduledFor = Ok nxt
                       ∧ CronJob.NextRunAt j' = Some nxt).
Proof.
  intros Hfind Hdue Hcols Hfresh Hpolicy Hrunning.
  pose proof (enqueue_due env jobID now st job scheduledFor cols
                Hfind Hdue Hcols Hfresh) as Hen.
  cbv zeta in Hen. rewrite Hpolicy in Hen.
  destruct (Z.ltb_spec 0 (runningCount st jobID)) as [_|?]; [|lia].
  rewrite String.eqb_refl in Hen. cbn [andb negb] in Hen.
  eexists. split; [exact Hen|]. cbn [jobs runs].
  split.
  { eexists. split; [reflexivity|]. cbn.
    pose proof (find_id _ _ _ Hfind). repeat split; try assumption. discriminate. }
  split; [reflexivity|].
  intros j' Hin Hid. eapply fired_rows; eassumption.
Qed.

Lemma overlap_forbid_skips_witness :
  ∃ st',
    enqueueJobIfDue sampleEnv "j1" 100 sampleStore = (st', Ok false)
    ∧ (∃ run, runs st' = runs sampleStore ++ [run]
              ∧ CronRun.Status run = StatusSkipped
              ∧ CronRun.Status run ≠ StatusQueued
              ∧ CronRun.Error run = Some "overlap_forbid: prior run still running"
              ∧ CronRun.JobID run = "j1"
              ∧ CronRun.ScheduledFor run = 100)
    ∧ jobs st' = map (λ j, if String.eqb (CronJob.ID j) "j1"
                           then assignJob ([ColLastRunAt (Some 100); ColNextRunAt (Some 160)]
                                           ++ [ColJobUpdatedAt (dbNow sampleEnv)]) j
                           else j) (jobs sampleStore)
    ∧ ∀ j', In j' (jobs st') → CronJob.ID j' = "j1" →
        CronJob.LastRunAt j' = Some 100
        ∧ (if CronJob.RunOnce jobInterval
           then CronJob.Enabled j' = false ∧ CronJob.NextRunAt j' = None
           else ∃ nxt, nextRunAt jobInterval 100 = Ok nxt
                       ∧ CronJob.NextRunAt j' = Some nxt).
Proof.
  apply (overlap_forbid_skips sampleEnv "j1" 100 sampleStore jobInterval 100
           [ColLastRunAt (Some 100); ColNextRunAt (Some 160)]).
  - reflexivity.
  - unfold due. cbn. repeat split. lia.
  - reflexivity.
  - reflexivity.
  - reflexivity.
  - reflexivity.
Defined.

(** C1.  The skip does not always advance the schedule.  The job of the
    sample is due at 100, its policy is [forbid], a run of it is running
    and its interval is 9223372037 seconds, one more than the seconds
    whose nanoseconds fit in 64 bits.  The transaction appends the
    [skipped] run and writes [last_run_at = 100], but the product of the
    interval and a second wraps around and the [next_run_at] it writes is
    -9223371937, before the fire time: the job is due again at once. *)
Theorem overlap_skip_next_run_backward :
  due jobHugeDue 100 100
  ∧ normalPolicy (CronJob.OverlapPolicy jobHugeDue) = overlapForbid
  ∧ 0 < runningCount storeHugeDue "j1"
  ∧ enqueueJobIfDue sampleEnv "j1" 100 storeHugeDue
    = (mkStore
         [CronJob.mk "j1" "job" true None (Some 9223372037) "do" false
            None None None None "forbid" (Some 100) (Some (-9223371937)) 5 1000]
         [runRunning;
          CronRun.mk "run-2" "j1" 7 "skipped" 100 None None 1
            (Some "overlap_forbid: prior run still running") None 1000 1000],
       Ok false)
  ∧ -9223371937 < 100
  ∧ ∀ now, 100 ≤ now →
      dueNow now
        (CronJob.mk "j1" "job" true None (Some 9223372037) "do" false
           None None None None "forbid" (Some 100) (Some (-9223371937)) 5 1000) = true.
Proof.
  split; [unfold due; cbn; repeat split; lia|].
  split; [reflexivity|]. split; [reflexivity|].
  split; [vm_compute; reflexivity|]. split; [lia|].
  intros now Hnow. unfold dueNow. cbn.
  destruct (Z.leb_spec (-9223371937) now); [reflexivity|lia].
Qed.

(** C3 as stated fails: under the policy [queue], with a run of the job
    running, the run the transaction appends is not [skipped]. *)
Lemma other_policy_skipped_counterexample :
  CronJob.OverlapPolicy jobQueuePolicy = "queue"
  ∧ 0 < runningCount storeQueuePolicy "j1"
  ∧ ¬ ∃ run,
        runs (enqueueJobIfDue sampleEnv "j1" 100 storeQueuePolicy).1
          = runs storeQueuePolicy ++ [run]
        ∧ CronRun.Status run = StatusSkipped.
Proof.
  split; [reflexivity|]. split; [reflexivity|].
  intros (run & Hruns & Hstatus).
  change (runs (enqueueJobIfDue sampleEnv "j1" 100 storeQueuePolicy).1)
    with (runs storeQueuePolicy ++ [newRun sampleEnv jobQueuePolicy 100 false]) in Hruns.
  apply app_inj_tail in Hruns. destruct Hruns as [_ <-].
  discriminate Hstatus.
Qed.

(** C3, amended.  Only a policy that reads [forbid] (after trimming and
    lower-casing, the empty policy included) makes the transaction skip.  A
    job found due whose policy reads anything else, [queue] or [replace]
    for instance, gets a [queued] run and the workers are woken, also while
    a prior run of the job is running; the post-fire columns are written as
    under [forbid]. *)
Theorem other_policy_queues (env : Env) (jobID : string) (now : Z) (st : Store)
  (job : CronJob.t) (scheduledFor : Z) (cols : list jobColumn) :
  find (λ j, String.eqb (CronJob.ID j) jobID) (jobs st) = Some job →
  due job now scheduledFor →
  firedColumns job scheduledFor = Ok cols →
  freshUUID env st →
  String.eqb (normalPolicy (CronJob.OverlapPolicy job)) overlapForbid = false →
  ∃ st',
    enqueueJobIfDue env jobID now st = (st', Ok true)
    ∧ (∃ run, runs st' = runs st ++ [run]
              ∧ CronRun.Status run = StatusQueued
              ∧ CronRun.Error run = None
              ∧ CronRun.JobID run = jobID
              ∧ CronRun.ScheduledFor run = scheduledFor)
    ∧ jobs st' = map (λ j, if String.eqb (CronJob.ID j) jobID
                           then assignJob (cols ++ [ColJobUpdatedAt (dbNow env)]) j
                           else j) (jobs st).
Proof.
  intros Hfind Hdue Hcols Hfresh Hpolicy.
  pose proof (enqueue_due env jobID now st job scheduledFor cols
                Hfind Hdue Hcols Hfresh) as Hen.
  cbv zeta in Hen. rewrite Hpolicy, andb_false_r in Hen. cbn [negb] in Hen.
  eexists. split; [exact Hen|]. cbn [jobs runs].
  split; [|reflexivity].
  eexists. split; [reflexivity|]. cbn.
  pose proof (find_id _ _ _ Hfind). auto.
Qed.

Lemma other_policy_queues_witness :
  0 < runningCount storeQueuePolicy "j1"
  ∧ ∃ st',
      enqueueJobIfDue sampleEnv "j1" 100 storeQueuePolicy = (st', Ok true)
      ∧ (∃ run, runs st' = runs storeQueuePolicy ++ [run]
                ∧ CronRun.Status run = StatusQueued
                ∧ CronRun.Error run = None
                ∧ CronRun.JobID run = "j1"
                ∧ CronRun.ScheduledFor run = 100)
      ∧ jobs st' = map (λ j, if String.eqb (CronJob.ID j) "j1"
                             then assignJob ([ColLastRunAt (Some 100); ColNextRunAt (Some 160)]
                                             ++ [ColJobUpdatedAt (dbNow sampleEnv)]) j
                             else j) (jobs storeQueuePolicy).
Proof.
  split; [reflexivity|].
  apply (other_policy_queues sampleEnv "j1" 100 storeQueuePolicy jobQueuePolicy 100
           [ColLastRunAt (Some 100); ColNextRunAt (Some 160)]).
  - reflexivity.
  - unfold due. cbn. repeat split. lia.
  - reflexivity.
  - reflexivity.
  - reflexivity.
Defined.

(** C6.  A [run_once] job found due: the transaction that appends its run
    (queued, or skipped under the overlap rule) also writes
    [enabled = false], [next_run_at = null] and [last_run_at] = the fire
    time to the job. *)
Theorem run_once_disables (env : Env) (jobID : string) (now : Z) (st : Store)
  (job : CronJob.t) (scheduledFor : Z) :
  find (λ j, String.eqb (CronJob.ID j) jobID) (jobs st) = Some job →
  due job now scheduledFor →
  CronJob.RunOnce job = true →
  freshUUID env st →
  let skip := (0 <? runningCount st jobID)
              && String.eqb (normalPolicy (CronJob.OverlapPolicy job)) overlapForbid in
  ∃ st',
    enqueueJobIfDue env jobID now st = (st', Ok (negb skip))
    ∧ (∃ run, runs st' = runs st ++ [run]
              ∧ CronRun.Status run = (if skip then StatusSkipped else StatusQueued)
              ∧ CronRun.StartedAt run = None
              ∧ CronRun.FinishedAt run = None
              ∧ CronRun.JobID run = jobID
              ∧ CronRun.ScheduledFor run = scheduledFor)
    ∧ ∀ j', In j' (jobs st') → CronJob.ID j' = jobID →
        CronJob.Enabled j' = false
        ∧ CronJob.NextRunAt j' = None
        ∧ CronJob.LastRunAt j' = Some scheduledFor.
Proof.
  intros Hfind Hdue Honce Hfresh skip.
  assert (Hcols : firedColumns job scheduledFor
                  = Ok [ColEnabled false; ColLastRunAt (Some scheduledFor); ColNextRunAt None])
    by (unfold firedColumns; rewrite Honce; reflexivity).
  pose proof (enqueue_due env jobID now st job scheduledFor _
                Hfind Hdue Hcols Hfresh) as Hen.
  cbv zeta in Hen. fold skip in Hen.
  eexists. split; [exact Hen|]. cbn [jobs runs].
  split.
  { eexists. split; [reflexivity|]. cbn.
    pose proof (find_id _ _ _ Hfind). auto. }
  intros j' Hin Hid.
  pose proof (fired_rows env job jobID scheduledFor _ (jobs st) j' Hcols Hin Hid) as [Hlast Hrest].
  rewrite Honce in Hrest. destruct Hrest. auto.
Qed.

Lemma run_once_disables_witness :
  ∃ st',
    enqueueJobIfDue sampleEnv "j1" 100 storeRunOnce = (st', Ok true)
    ∧ (∃ run, runs st' = runs storeRunOnce ++ [run]
              ∧ CronRun.Status run = StatusQueued
              ∧ CronRun.StartedAt run = None
              ∧ CronRun.FinishedAt run = None
              ∧ CronRun.JobID run = "j1"
              ∧ CronRun.ScheduledFor run = 100)
    ∧ ∀ j', In j' (jobs st') → CronJob.ID j' = "j1" →
        CronJob.Enabled j' = false
        ∧ CronJob.NextRunAt j' = None
        ∧ CronJob.LastRunAt j' = Some 100.
Proof.
  apply (run_once_disables sampleEnv "j1" 100 storeRunOnce jobRunOnce 100).
  - reflexivity.
  - unfold due. cbn. repeat split. lia.
  - reflexivity.
  - reflexivity.
Defined.

(** A job that is not due is left alone. *)
Lemma enqueue_not_due (env : Env) (jobID : string) (now : Z) (st : Store)
  (job : CronJob.t) :
  find (λ j, String.eqb (CronJob.ID j) jobID) (jobs st) = Some job →
  CronJob.Enabled job = false
  ∨ CronJob.NextRunAt job = None
  ∨ (∃ at_, CronJob.NextRunAt job = Some at_ ∧ now < at_) →
  enqueueJobIfDue env jobID now st = (st, Ok false).
Proof.
  intros Hfind Hcase.
  unfold enqueueJobIfDue, Transaction, enqueueBody, bind, firstJob, ret.
  rewrite Hfind.
  destruct Hcase as [Hen|[Hnone|(at_ & Hsome & Hlt)]].
  - rewrite Hen. reflexivity.
  - rewrite Hnone. destruct (CronJob.Enabled job); reflexivity.
  - rewrite Hsome. destruct (CronJob.Enabled job); [|reflexivity].
    destruct (Z.ltb_spec now at_); [reflexivity|lia].
Qed.

(** When the post-fire columns cannot be computed the transaction returns
    the error and is rolled back: no run is appended. *)
Example enqueue_unschedulable :
  enqueueJobIfDue sampleEnv "j1" 100 storeNoSchedule
  = (storeNoSchedule, Err (ErrComputeNext ErrNoSchedule)).
Proof. reflexivity. Qed.

End EnqueueFacts.

(** ** Orphan recovery at start-up *)

Section RecoveryFacts.

Lemma assign_recovered (env : Env) (now : Z) (r : CronRun.t) :
  (if String.eqb (CronRun.Status r) StatusRunning
   then assignRun ([ColStatus StatusFailed; ColFinishedAt (Some now);
                    ColError (Some "process restarted")]
                   ++ [ColRunUpdatedAt (dbNow env)]) r
   else r)
  = recoveredRow env now r.
Proof. unfold recoveredRow. destruct (String.eqb _ _); reflexivity. Qed.

Lemma recoverOrphanedRuns_store (env : Env) (now : Z) (st : Store) :
  (recoverOrphanedRuns env now st).1
  = mkStore (jobs st) (map (recoveredRow env now) (runs st)).
Proof.
  unfold recoverOrphanedRuns, updateRunsWhere. cbn [fst].
  f_equal; try reflexivity.
  all: apply map_ext; intros r; apply assign_recovered.
Qed.

Lemma updateJobsWhereID_runs (env : Env) (id : string) (cols : list jobColumn) (st : Store) :
  runs (updateJobsWhereID env id cols st) = runs st.
Proof. reflexivity. Qed.

Lemma reconcileJob_runs (env : Env) (now : Z) (st : Store) (job : CronJob.t) :
  runs (reconcileJob env now st job) = runs st.
Proof.
  unfold reconcileJob.
  destruct (nextRunAt job now); [|reflexivity].
  destruct (CronJob.NextRunAt job) as [at_|]; [|reflexivity].
  destruct (at_ <? now); reflexivity.
Qed.

(** Reconciliation writes to the job table only. *)
Lemma reconcileNextRunAt_runs (env : Env) (now : Z) (st : Store) :
  runs (reconcileNextRunAt env now st) = runs st.
Proof.
  unfold reconcileNextRunAt.
  generalize (filter (λ j, CronJob.Enabled j = true) (jobs st)).
  intros l. revert st.
  induction l as [|job l IH]; intros st; [reflexivity|].
  cbn [fold_left]. rewrite IH. apply reconcileJob_runs.
Qed.

Lemma recoveredRow_running (env : Env) (now : Z) (r : CronRun.t) :
  CronRun.Status r = StatusRunning →
  let r' := recoveredRow env now r in
  CronRun.Status r' = StatusFailed
  ∧ CronRun.Error r' = Some "process restarted"
  ∧ CronRun.FinishedAt r' = Some now
  ∧ CronRun.ID r' = CronRun.ID r
  ∧ CronRun.JobID r' = CronRun.JobID r
  ∧ CronRun.ScheduledFor r' = CronRun.ScheduledFor r
  ∧ CronRun.StartedAt r' = CronRun.StartedAt r.
Proof.
  intros H. unfold recoveredRow. rewrite H. cbn. repeat split.
Qed.

Lemma recoveredRow_other (env : Env) (now : Z) (r : CronRun.t) :
  CronRun.Status r ≠ StatusRunning → recoveredRow env now r = r.
Proof.
  intros H. unfold recoveredRow.
  destruct (String.eqb_spec (CronRun.Status r) StatusRunning); [contradiction|reflexivity].
Qed.

Lemma spawnWorkers_not_recover (n : Z) (a : action) :
  In a (spawnWorkers n) → ∃ w, a = ActGoWorkerLoop w ∧ 1 ≤ w ≤ n.
Proof.
  unfold spawnWorkers. intros H. apply in_map_iff in H.
  destruct H as (i & <- & Hi). apply in_seq in Hi.
  exists (Z.of_nat i + 1). split; [reflexivity|lia].
Qed.

(** C5.  [Start] of an enabled scheduler runs orphan recovery as its first
    effect: the worker loops, one for each of [1..Concurrency], are started
    later in the same call.  After [Start] the run table is the one before
    it with every row mapped by recovery: a row whose status is [running]
    has status [failed], the error ["process restarted"] and [finished_at]
    = the time recovery read; a row in any other status is the same row. *)
Theorem orphan_recovery_at_start (s : Scheduler.t) (env : Env)
  (nowRecover nowReconcile : Z) (st : Store) :
  Enabled (cfg s) = true →
  let st' := (Start s env nowRecover nowReconcile st).1 in
  let trace := (Start s env nowRecover nowReconcile st).2 in
  (∃ rest, trace = ActRecoverOrphanedRuns :: rest
           ∧ ∀ w, 1 ≤ w ≤ Concurrency (cfg s) → In (ActGoWorkerLoop w) rest)
  ∧ runs st' = map (recoveredRow env nowRecover) (runs st)
  ∧ (∀ r, CronRun.Status r = StatusRunning →
          CronRun.Status (recoveredRow env nowRecover r) = StatusFailed
          ∧ CronRun.Error (recoveredRow env nowRecover r) = Some "process restarted"
          ∧ CronRun.FinishedAt (recoveredRow env nowRecover r) = Some nowRecover)
  ∧ (∀ r, CronRun.Status r ≠ StatusRunning → recoveredRow env nowRecover r = r).
Proof.
  intros Hen st' trace. subst st' trace. unfold Start. rewrite Hen. cbn [negb fst snd].
  split.
  { eexists. split; [reflexivity|].
    intros w Hw. right. right. apply in_or_app. left.
    unfold spawnWorkers. apply in_map_iff.
    exists (Z.to_nat (w - 1)). split; [f_equal; lia|].
    apply in_seq. lia. }
  split.
  { rewrite reconcileNextRunAt_runs, recoverOrphanedRuns_store. reflexivity. }
  split.
  { intros r Hr. pose proof (recoveredRow_running env nowRecover r Hr) as H.
    cbv zeta in H. tauto. }
  intros r Hr. apply recoveredRow_other. exact Hr.
Qed.

Lemma orphan_recovery_at_start_witness :
  Enabled (cfg sampleScheduler) = true
  ∧ runs (Start sampleScheduler sampleEnv 500 501 sampleStore).1
    = map (recoveredRow sampleEnv 500) (runs sampleStore).
Proof.
  split; [reflexivity|].
  apply (orphan_recovery_at_start sampleScheduler sampleEnv 500 501 sampleStore).
  reflexivity.
Defined.

(** The sample store after [Start]: the queued run is as it was, the
    running one is failed. *)
Example start_recovers_sample :
  runs (Start sampleScheduler sampleEnv 500 501 sampleStore).1
  = [runQueued;
     CronRun.mk "run-1" "j1" 7 "failed" 40 (Some 41) (Some 500) 1
       (Some "process restarted") None 40 1000]
  ∧ (Start sampleScheduler sampleEnv 500 501 sampleStore).2
    = [ActRecoverOrphanedRuns; ActReconcileNextRunAt; ActGoScheduleLoop;
       ActGoWorkerLoop 1; ActGoWorkerLoop 2; ActWakeWorkers].
Proof. split; reflexivity. Qed.

End RecoveryFacts.

(** * Further properties *)

(** ** The cron parser *)

Section ParserFacts.

Import Cron.

Lemma step_split (v x step : Z) :
  0 < step →
  (v ≤ x ∧ (x - v) mod step = 0)
  ↔ (x = v ∨ (v + step ≤ x ∧ (x - (v + step)) mod step = 0)).
Proof.
  intros Hstep. split.
  - intros [Hle Hmod].
    apply Z.mod_divide in Hmod; [|lia]. destruct Hmod as [k Hk].
    destruct (Z.eq_dec k 0) as [->|Hk0]; [left; lia|].
    right. assert (1 ≤ k) by nia. split; [nia|].
    apply Z.mod_divide; [lia|]. exists (k - 1). lia.
  - intros [->|[Hle Hmod]].
    + split; [lia|]. replace (v - v) with 0 by lia. apply Z.mod_0_l. lia.
    + split; [lia|].
      apply Z.mod_divide in Hmod; [|lia]. destruct Hmod as [k Hk].
      apply Z.mod_divide; [lia|]. exists (k + 1). lia.
Qed.

Lemma stepLoop_members (hi step : Z) :
  0 < step → step ≤ maxInt64 - hi →
  ∀ (fuel : nat) (v : Z) (acc : gset Z) (x : Z),
    0 ≤ v → (Z.to_nat (hi - v + 1) ≤ fuel)%nat →
    x ∈ stepLoop fuel v hi step acc
    ↔ x ∈ acc ∨ (v ≤ x ≤ hi ∧ (x - v) mod step = 0).
Proof.
  intros Hstep Hfit.
  induction fuel as [|f IH]; intros v acc x Hv Hfuel.
  - cbn [stepLoop]. split; [auto|]. intros [?|[? _]]; [assumption|lia].
  - cbn [stepLoop]. destruct (Z.leb_spec v hi) as [Hle|Hgt].
    + rewrite wrap64_small by (unfold minInt64, maxInt64 in *; lia).
      rewrite IH by lia.
      rewrite elem_of_union, elem_of_singleton.
      pose proof (step_split v x step Hstep) as Hsplit.
      split.
      * intros [[->|Hacc]|[[Hlo Hhi] Hmod]].
        -- right. split; [lia|]. apply Hsplit. left. reflexivity.
        -- left. exact Hacc.
        -- right. split; [lia|]. apply Hsplit. right. split; [lia|exact Hmod].
      * intros [Hacc|[[Hlo Hhi] Hmod]]; [left; right; exact Hacc|].
        destruct (proj1 Hsplit (conj Hlo Hmod)) as [->|[Hlo' Hmod']].
        -- left. left. reflexivity.
        -- right. split; [lia|exact Hmod'].
    + split; [auto|]. intros [?|[? _]]; [assumption|lia].
Qed.

(** X1.  A step part [*/N] of a field adds exactly the values
    [min, min + N, min + 2N, ...] up to [max], when the additions do not
    overflow. *)
Theorem step_part_values (lo hi step x : Z) (acc : gset Z) :
  0 ≤ lo ≤ hi → 0 < step ≤ maxInt64 - hi →
  x ∈ stepLoop (stepFuel lo hi) lo hi step acc
  ↔ x ∈ acc ∨ (lo ≤ x ≤ hi ∧ (x - lo) mod step = 0).
Proof.
  intros Hlo Hstep. apply stepLoop_members; try lia.
  unfold stepFuel. lia.
Qed.

Lemma step_part_values_witness :
  (0 ≤ 0 ≤ 59) ∧ (0 < 15 ≤ maxInt64 - 59)
  ∧ (45 ∈ stepLoop (stepFuel 0 59) 0 59 15 ∅
     ↔ 45 ∈ (∅ : gset Z) ∨ (0 ≤ 45 ≤ 59 ∧ (45 - 0) mod 15 = 0)).
Proof.
  split; [lia|]. split; [unfold maxInt64; lia|].
  apply (step_part_values 0 59 15 45 ∅); [lia|unfold maxInt64; lia].
Defined.

Lemma Atoi_range (s : string) (v : Z) :
  GoStrings.Atoi s = Some v → minInt64 ≤ v ≤ maxInt64.
Proof.
  unfold GoStrings.Atoi. destruct s as [|c r]; [discriminate|].
  cbv zeta.
  match goal with
  | |- context [GoStrings.digitsFrom ?b 0] => destruct b; [discriminate|]
  end.
  match goal with
  | |- context [GoStrings.digitsFrom ?b 0] =>
      destruct (GoStrings.digitsFrom b 0) as [n|]; [|discriminate]
  end.
  match goal with
  | |- context [inInt64 ?z] => destruct (inInt64 z) eqn:Hin; [|discriminate]
  end.
  intros H. inversion H; subst v; clear H.
  unfold inInt64 in Hin. apply andb_prop in Hin. destruct Hin as [H1 H2].
  apply Z.leb_le in H1, H2. lia.
Qed.

Lemma stepLoop_range (lo hi step : Z) (acc : gset Z) (x : Z) :
  0 ≤ lo ≤ 1 → lo < hi < 2^62 → 0 < step ≤ maxInt64 →
  x ∈ stepLoop (stepFuel lo hi) lo hi step acc →
  x ∈ acc ∨ inField lo hi x.
Proof.
  intros Hlo Hhi Hstep. unfold inField.
  destruct (Z.le_gt_cases step (maxInt64 - hi)) as [Hfit|Hbig].
  - rewrite stepLoop_members by (try lia; unfold stepFuel; lia).
    intros [?|[? _]]; auto.
  - unfold stepFuel.
    destruct (Z.to_nat (hi - lo)) as [|m] eqn:Hm; [lia|].
    replace (S m + 3)%nat with (S (S (S (S m)))) by lia.
    cbn [stepLoop].
    destruct (Z.leb_spec lo hi); [|lia].
    unfold maxInt64, minInt64 in *.
    destruct (Z.le_gt_cases (lo + step) (2^63 - 1)) as [Hsmall|Hwrap].
    + rewrite wrap64_small by (unfold minInt64, maxInt64; lia).
      destruct (Z.leb_spec (lo + step) hi); [lia|].
      rewrite elem_of_union, elem_of_singleton. intros [->|?]; [right; left; lia|auto].
    + assert (lo = 1) by lia. assert (step = 2^63 - 1) by lia. subst lo step.
      change (wrap64 (1 + (2^63 - 1))) with (- 2^63).
      destruct (Z.leb_spec (- 2^63) hi); [|lia].
      change (wrap64 (- 2^63 + (2^63 - 1))) with (-1).
      destruct (Z.leb_spec (-1) hi); [|lia].
      change (wrap64 (-1 + (2^63 - 1))) with (2^63 - 2).
      destruct (Z.leb_spec (2^63 - 2) hi); [lia|].
      rewrite !elem_of_union, !elem_of_singleton.
      intros [->|[->|[->|?]]]; [right; right| right; right| right; left| left];
        try assumption; lia.
Qed.

Lemma parseParts_inv (lo hi : Z) :
  0 ≤ lo ≤ 1 → lo < hi < 2^62 →
  ∀ (parts : list string) (out out' : valueSet),
    vmin out = lo → vmax out = hi → all out = false →
    (∀ x, x ∈ val out → inField lo hi x) →
    parseParts parts lo hi out = Ok out' →
    vmin out' = lo ∧ vmax out' = hi
    ∧ ((all out' = true ∧ val out' = ∅)
       ∨ (all out' = false ∧ ∀ x, x ∈ val out' → inField lo hi x)).
Proof.
  intros Hlo Hhi.
  induction parts as [|p0 rest IH]; intros out out' Hmin Hmax Hall Hinv Hparse.
  - cbn in Hparse. inversion Hparse; subst out'. auto.
  - cbn [parseParts] in Hparse. cbv zeta in Hparse.
    destruct (String.eqb (GoStrings.TrimSpace p0) ""); [eauto|].
    destruct (String.eqb (GoStrings.TrimSpace p0) "*").
    { inversion Hparse; subst out'. cbn. auto. }
    destruct (GoStrings.hasStarSlash (GoStrings.TrimSpace p0)).
    + destruct (GoStrings.Atoi _) as [step|] eqn:Hatoi; [|discriminate].
      destruct (Z.leb_spec step 0); [discriminate|].
      pose proof (Atoi_range _ _ Hatoi) as Hrange.
      apply IH in Hparse; cbn; auto.
      intros x Hx. apply stepLoop_range in Hx; try lia.
      destruct Hx as [Hx|Hx]; [apply Hinv; exact Hx|exact Hx].
    + destruct (GoStrings.Atoi _) as [n|]; [|discriminate].
      destruct (Z.ltb_spec n lo); [discriminate|].
      destruct (Z.ltb_spec hi n); [discriminate|].
      cbn [orb] in Hparse.
      apply IH in Hparse; cbn; auto.
      intros x Hx. rewrite elem_of_union, elem_of_singleton in Hx.
      destruct Hx as [->|Hx]; [unfold inField; left; lia|apply Hinv; exact Hx].
Qed.

Lemma parseField_ok (tok : string) (lo hi : Z) (vs : valueSet) :
  0 ≤ lo ≤ 1 → lo < hi < 2^62 →
  parseField tok lo hi = Ok vs → fieldOK vs lo hi.
Proof.
  intros Hlo Hhi. unfold parseField. cbv zeta.
  destruct (String.eqb (GoStrings.TrimSpace tok) ""); [discriminate|].
  destruct (String.eqb (GoStrings.TrimSpace tok) "*").
  { intros H. inversion H; subst vs. unfold fieldOK. cbn. auto. }
  destruct (parseParts _ lo hi _) as [out0|] eqn:Hparts; [|discriminate].
  apply (parseParts_inv lo hi Hlo Hhi) in Hparts; cbn; auto;
    [|intros x Hx; apply not_elem_of_empty in Hx; contradiction].
  destruct Hparts as (Hmin & Hmax & Hcases).
  destruct Hcases as [[Hall Hval]|[Hall Hinv]];
    rewrite Hall; cbn [negb andb all val]; rewrite ?Hall; cbn [negb andb].
  - intros H. inversion H; subst vs. unfold fieldOK. cbn. auto.
  - destruct (bool_decide (val out0 = ∅)) eqn:Hempty; intros H;
      [discriminate H|].
    inversion H; subst vs. unfold fieldOK.
    apply bool_decide_eq_false in Hempty.
    split; [exact Hmin|]. split; [exact Hmax|]. right. auto.
Qed.

(** X2.  An expression that parses has its five sets (no nil pointer),
    each with the range of its field; a set either holds every value or is
    not empty, and its values lie in the range of the field, except that a
    step of 2^63 - 1 in a field that starts at 1 also leaves the values
    the wrapped additions produce, -2^63 and -1. *)
Theorem parseCronExpr_fields (expr : string) (e : cronExpr) :
  parseCronExpr expr = Ok e →
  ∃ mi ho dm mo dw,
    minute e = Some mi ∧ hour e = Some ho ∧ dom e = Some dm
    ∧ month e = Some mo ∧ dow e = Some dw
    ∧ fieldOK mi 0 59 ∧ fieldOK ho 0 23 ∧ fieldOK dm 1 31
    ∧ fieldOK mo 1 12 ∧ fieldOK dw 0 6.
Proof.
  unfold parseCronExpr.
  destruct (GoStrings.Fields _) as [|f0 [|f1 [|f2 [|f3 [|f4 [|f5 l]]]]]];
    try discriminate.
  destruct (parseField f0 0 59) as [mi|] eqn:H0; [|discriminate].
  destruct (parseField f1 0 23) as [ho|] eqn:H1; [|discriminate].
  unfold parseFieldWithAny.
  destruct (parseField f2 1 31) as [dm|] eqn:H2; [|discriminate].
  destruct (parseField f3 1 12) as [mo|] eqn:H3; [|discriminate].
  destruct (parseField f4 0 6) as [dw|] eqn:H4; [|discriminate].
  intros H. inversion H; subst e; clear H. cbn.
  exists mi, ho, dm, mo, dw.
  repeat split; try reflexivity;
    eapply parseField_ok; try eassumption; lia.
Qed.

Lemma parseCronExpr_fields_witness :
  ∃ e, parseCronExpr "*/15 9 1,15 * 1" = Ok e
       ∧ ∃ mi ho dm mo dw,
           minute e = Some mi ∧ hour e = Some ho ∧ dom e = Some dm
           ∧ month e = Some mo ∧ dow e = Some dw
           ∧ fieldOK mi 0 59 ∧ fieldOK ho 0 23 ∧ fieldOK dm 1 31
           ∧ fieldOK mo 1 12 ∧ fieldOK dw 0 6.
Proof.
  eexists. split; [vm_compute; reflexivity|].
  apply (parseCronExpr_fields "*/15 9 1,15 * 1"). vm_compute. reflexivity.
Defined.

(** The wrapped values occur: the day-of-month field with the largest step. *)
Example parseField_wrapped_step :
  match parseField "*/9223372036854775807" 1 31 with
  | Ok vs => elements (val vs) = [- 2^63; -1; 1]
  | Err _ => False
  end.
Proof. vm_compute. reflexivity. Qed.

(** X3.  [parseCronExpr] fails with the field-count error exactly when the
    text does not consist of five fields separated by white space; the
    empty and the blank text are such texts. *)
Theorem parseCronExpr_field_count (expr : string) :
  parseCronExpr expr = Err (ErrFieldCount expr)
  ↔ length (GoStrings.Fields (GoStrings.TrimSpace expr)) ≠ 5%nat.
Proof.
  unfold parseCronExpr.
  destruct (GoStrings.Fields _) as [|f0 [|f1 [|f2 [|f3 [|f4 [|f5 l]]]]]];
    cbn [length]; try (split; [intros _; lia|reflexivity]).
  split; [|lia]. intros H. exfalso.
  destruct (parseField f0 0 59); [|discriminate].
  destruct (parseField f1 0 23); [|discriminate].
  destruct (parseFieldWithAny f2 1 31) as [[? ?]|]; [|discriminate].
  destruct (parseField f3 1 12); [|discriminate].
  destruct (parseFieldWithAny f4 0 6) as [[? ?]|]; discriminate.
Qed.

End ParserFacts.

(** ** The next fire time *)

Section NextFacts.

Import Cron.

Lemma nextStart_le (after : Time) : nextStart after ≤ after + Minute.
Proof.
  unfold nextStart, Truncate, Add, UTC.
  pose proof (Z.mod_pos_bound (after + Minute) Minute Minute_pos). lia.
Qed.

Lemma next_ok_facts (e : cronExpr) (after t : Time) :
  next e after = Ok t →
  after < t ∧ t mod Minute = 0 ∧ nextStart after ≤ t
  ∧ t ≤ nextStart after + searchWindow - Minute
  ∧ candidate e t = true
  ∧ ∀ u, u mod Minute = 0 → after < u → u < t → candidate e u = false.
Proof.
  intros Hn. pose proof Minute_pos as HM.
  pose proof (nextStart_aligned after) as Hal.
  pose proof (nextStart_gt after) as Hgt.
  destruct (next_cases e after) as [(t' & Hn' & (j & Hj & Ht) & Hc & Hbefore)|[Hn' _]];
    rewrite Hn in Hn'; [|discriminate].
  inversion Hn'; subst t'; clear Hn'.
  split; [subst t; nia|].
  split; [subst t; apply aligned_shift; exact Hal|].
  split; [subst t; nia|].
  split; [subst t; rewrite searchWindow_minutes; nia|].
  split; [exact Hc|].
  intros u Hu Hau Hut.
  destruct (aligned_offset _ u Hal Hu (nextStart_least after u Hu Hau)) as (i & Hi & ->).
  apply Hbefore; assumption.
Qed.

(** X4.  The fire time does not depend on when it is asked for: if [t] is
    the next fire time after [after], it is also the next fire time after
    every instant from [after] up to, but not including, [t]. *)
Theorem next_stable (e : cronExpr) (after after' t : Time) :
  next e after = Ok t →
  after ≤ after' < t →
  next e after' = Ok t.
Proof.
  intros Hn Hbetween. pose proof Minute_pos as HM.
  destruct (next_ok_facts e after t Hn) as (Hgt & Hal & Hstart & Hend & Hc & Hfirst).
  pose proof (nextStart_aligned after') as Hal'.
  pose proof (nextStart_least after' t Hal ltac:(lia)) as Hle'.
  pose proof (nextStart_least after (nextStart after')
                Hal' ltac:(pose proof (nextStart_gt after'); lia)) as Hmono.
  destruct (next_cases e after') as [(t' & Hn' & (j & Hj & Ht') & Hc' & Hbefore')|[Hn' Hall]].
  - rewrite Hn'. f_equal.
    destruct (Z.lt_trichotomy t' t) as [Hlt|[Heq|Hgt']]; [|exact Heq|].
    + exfalso.
      assert (Hal'' : t' mod Minute = 0) by (subst t'; apply aligned_shift; exact Hal').
      assert (Hfalse : candidate e t' = false)
        by (apply Hfirst; [exact Hal''| pose proof (nextStart_gt after'); nia | exact Hlt]).
      congruence.
    + exfalso.
      destruct (aligned_offset _ t Hal' Hal Hle') as (i & Hi & Hti).
      assert (Hfalse : candidate e t = false)
        by (rewrite Hti; apply Hbefore'; [exact Hi|lia]).
      congruence.
  - exfalso.
    destruct (aligned_offset _ t Hal' Hal Hle') as (i & Hi & Hti).
    assert (Hfalse : candidate e t = false).
    { rewrite Hti. apply Hall. rewrite searchWindow_minutes in Hend. nia. }
    congruence.
Qed.

Lemma next_stable_witness :
  next exprDaily0900 (Date 2026 2 3 8 59 59) = Ok (Date 2026 2 3 9 0 0)
  ∧ Date 2026 2 3 8 59 59 ≤ Date 2026 2 3 8 59 59 + 500 < Date 2026 2 3 9 0 0
  ∧ next exprDaily0900 (Date 2026 2 3 8 59 59 + 500) = Ok (Date 2026 2 3 9 0 0).
Proof.
  split; [vm_compute; reflexivity|].
  split; [vm_compute; split; [discriminate|reflexivity]|].
  apply (next_stable exprDaily0900 (Date 2026 2 3 8 59 59)).
  - vm_compute. reflexivity.
  - vm_compute. split; [discriminate|reflexivity].
Defined.

(** A fire time found from a whole second is a whole minute in Unix
    seconds, strictly later and at most 366 days later. *)
Lemma next_unix_window (e : cronExpr) (afterUnix : Z) (t : Time) :
  next e (Unix afterUnix 0) = Ok t →
  ToUnix t mod 60 = 0 ∧ afterUnix < ToUnix t ≤ afterUnix + 366 * 86400.
Proof.
  intros Hn.
  destruct (next_ok_facts e _ t Hn) as (Hgt & Hal & _ & Hend & _).
  pose proof (nextStart_le (Unix afterUnix 0)) as Hle.
  rewrite searchWindow_minutes in Hend.
  unfold Unix, ToUnix in *.
  pose proof (Z.div_mod t Minute ltac:(discriminate)) as Hdm.
  rewrite Hal in Hdm.
  assert (Ht60 : t = (60 * (t / Minute)) * Second)
    by (unfold Minute in Hdm at 1; unfold Time, Duration in *; lia).
  rewrite Ht60, Z.div_mul by discriminate.
  split.
  - rewrite Z.mul_comm. apply Z.mod_mul. discriminate.
  - unfold Minute, Second in *. lia.
Qed.

Lemma nextRunAt_cron_next (job : CronJob.t) (afterUnix nxt : Z) :
  scheduleSet job = true →
  nextRunAt job afterUnix = Ok nxt →
  ∃ e t, next e (Unix afterUnix 0) = Ok t ∧ nxt = ToUnix t.
Proof.
  intros Hset Hnext.
  unfold scheduleSet in Hset.
  destruct (CronJob.Schedule job) as [sched|] eqn:Hs; [|discriminate].
  apply negb_true_iff in Hset.
  rewrite (nextRunAt_cron job sched afterUnix Hs Hset) in Hnext.
  unfold cronNextUnix in Hnext.
  destruct (parseCronExpr sched) as [e|]; [|discriminate].
  destruct (next e (Unix afterUnix 0)) as [t|] eqn:Hn; [|discriminate].
  inversion Hnext; subst nxt. exists e, t. auto.
Qed.

(** From a Unix time in range, the next run lies strictly later and is a
    64-bit number of seconds, for a cron-scheduled job and for an interval
    whose duration fits in 64 bits. *)
Lemma nextRunAt_later (job : CronJob.t) (afterUnix nxt : Z) :
  unixInRange afterUnix →
  nextRunAt job afterUnix = Ok nxt →
  scheduleSet job = true
  ∨ (∃ iv, CronJob.IntervalSeconds job = Some iv ∧ iv ≤ maxIntervalSeconds) →
  afterUnix < nxt ∧ minInt64 ≤ nxt ≤ maxInt64.
Proof.
  intros Hrange Hnext Hcase. unfold unixInRange in Hrange.
  destruct (scheduleSet job) eqn:Hset.
  - destruct (nextRunAt_cron_next job afterUnix nxt Hset Hnext) as (e & t & Hn & ->).
    destruct (next_unix_window e afterUnix t Hn) as (_ & Hwin).
    unfold minInt64, maxInt64. lia.
  - destruct Hcase as [?|(iv & Hiv & Hmax)]; [discriminate|].
    pose proof Hnext as Hnext'.
    rewrite nextRunAt_no_cron in Hnext' by exact Hset. rewrite Hiv in Hnext'.
    destruct (Z.ltb_spec 0 iv); [|discriminate].
    rewrite (nextRunAt_interval job iv afterUnix Hset Hiv ltac:(lia)) in Hnext.
    inversion Hnext; subst nxt.
    unfold maxIntervalSeconds, minInt64, maxInt64 in *. lia.
Qed.

(** X5.  For a cron-scheduled job and a Unix time in range (at most 2^62
    in absolute value, so that no sum of seconds leaves 64 bits), the
    schedule resolver returns a whole minute in Unix seconds, strictly
    after [afterUnix] and at most 366 days after it, itself a 64-bit
    number. *)
Theorem nextRunAt_cron_bounds (job : CronJob.t) (afterUnix nxt : Z) :
  unixInRange afterUnix →
  scheduleSet job = true →
  nextRunAt job afterUnix = Ok nxt →
  nxt mod 60 = 0 ∧ afterUnix < nxt ≤ afterUnix + 366 * 86400
  ∧ minInt64 ≤ nxt ≤ maxInt64.
Proof.
  intros Hrange Hset Hnext.
  destruct (nextRunAt_cron_next job afterUnix nxt Hset Hnext) as (e & t & Hn & ->).
  destruct (next_unix_window e afterUnix t Hn) as (Hmin & Hwin).
  split; [exact Hmin|]. split; [exact Hwin|].
  unfold unixInRange, minInt64, maxInt64 in *. lia.
Qed.

Lemma nextRunAt_cron_bounds_witness :
  unixInRange 100
  ∧ scheduleSet jobStale = true
  ∧ nextRunAt jobStale 100 = Ok 32400
  ∧ 32400 mod 60 = 0 ∧ 100 < 32400 ≤ 100 + 366 * 86400
  ∧ minInt64 ≤ 32400 ≤ maxInt64.
Proof.
  split; [unfold unixInRange; lia|].
  split; [reflexivity|]. split; [vm_compute; reflexivity|].
  apply (nextRunAt_cron_bounds jobStale 100 32400);
    [unfold unixInRange; lia|reflexivity|vm_compute; reflexivity].
Defined.

End NextFacts.

(** ** The enqueue transaction and the tick *)

Section TickFacts.

Lemma enqueue_missing (env : Env) (jobID : string) (now : Z) (st : Store) :
  find (λ j, String.eqb (CronJob.ID j) jobID) (jobs st) = None →
  enqueueJobIfDue env jobID now st = (st, Err ErrRecordNotFound).
Proof.
  intros Hfind.
  unfold enqueueJobIfDue, Transaction, enqueueBody, bind, firstJob.
  rewrite Hfind. reflexivity.
Qed.

Lemma enqueue_unresolved (env : Env) (jobID : string) (now : Z) (st : Store)
  (job : CronJob.t) (scheduledFor : Z) (e : error) :
  find (λ j, String.eqb (CronJob.ID j) jobID) (jobs st) = Some job →
  due job now scheduledFor →
  firedColumns job scheduledFor = Err e →
  enqueueJobIfDue env jobID now st = (st, Err (ErrComputeNext e)).
Proof.
  intros Hfind (Hen & Hnext & Hle) Hcols.
  unfold enqueueJobIfDue, Transaction, enqueueBody, bind, firstJob.
  rewrite Hfind, Hen, Hnext.
  destruct (Z.ltb_spec now scheduledFor) as [?|_]; [lia|].
  unfold firedColumns in Hcols.
  destruct (CronJob.RunOnce job); [discriminate|].
  destruct (nextRunAt job scheduledFor) as [nxt|e']; [discriminate|].
  inversion Hcols; subst e'. reflexivity.
Qed.

Lemma enqueue_duplicate (env : Env) (jobID : string) (now : Z) (st : Store)
  (job : CronJob.t) (scheduledFor : Z) (cols : list jobColumn) :
  find (λ j, String.eqb (CronJob.ID j) jobID) (jobs st) = Some job →
  due job now scheduledFor →
  firedColumns job scheduledFor = Ok cols →
  ¬ freshUUID env st →
  enqueueJobIfDue env jobID now st = (st, Err (ErrDuplicateKey (uuid env))).
Proof.
  intros Hfind (Hen & Hnext & Hle) Hcols Hdup.
  unfold freshUUID in Hdup. apply not_false_is_true in Hdup.
  unfold enqueueJobIfDue, Transaction, enqueueBody, bind, firstJob.
  rewrite Hfind, Hen, Hnext.
  destruct (Z.ltb_spec now scheduledFor) as [?|_]; [lia|].
  unfold firedColumns in Hcols.
  assert (Hfail : ∀ (b : bool) (status : string) (msg : option string) (cs : list jobColumn),
             (let (st', r) := createRun env
                 (CronRun.mk "" (CronJob.ID job) (CronJob.UpdatedAt job) status
                    scheduledFor None None 1 msg None 0 0) st in
              match r with
              | Ok _ =>
                let (st'0, r0) := updatesJob env (CronJob.ID job) cs st' in
                match r0 with
                | Ok _ => (st'0, Ok b)
                | Err e => (st'0, Err e)
                end
              | Err e => (st', @Err bool e)
              end)
             = (st, Err (ErrDuplicateKey (uuid env)))).
  { intros b status msg cs. unfold createRun.
    cbn [CronRun.ID String.eqb]. rewrite Hdup. reflexivity. }
  destruct (CronJob.RunOnce job).
  - unfold ret, countRuns.
    match goal with |- context [if ?c then _ else _] => destruct c end;
      rewrite Hfail; reflexivity.
  - destruct (nextRunAt job scheduledFor) as [nxt|e]; [|discriminate].
    unfold ret, countRuns.
    match goal with |- context [if ?c then _ else _] => destruct c end;
      rewrite Hfail; reflexivity.
Qed.

(** Every call of enqueueJobIfDue either leaves the store as it is, or is
    the fire of a due job. *)
Lemma enqueue_cases (env : Env) (jobID : string) (now : Z) (st : Store) :
  ((enqueueJobIfDue env jobID now st).1 = st
   ∧ (enqueueJobIfDue env jobID now st).2 ≠ Ok true)
  ∨ ∃ job scheduledFor cols skip,
      find (λ j, String.eqb (CronJob.ID j) jobID) (jobs st) = Some job
      ∧ due job now scheduledFor
      ∧ firedColumns job scheduledFor = Ok cols
      ∧ enqueueJobIfDue env jobID now st
        = (mkStore
             (map (λ j, if String.eqb (CronJob.ID j) jobID
                        then assignJob (cols ++ [ColJobUpdatedAt (dbNow env)]) j else j)
                  (jobs st))
             (runs st ++ [newRun env job scheduledFor skip]),
           Ok (negb skip)).
Proof.
  destruct (find (λ j, String.eqb (CronJob.ID j) jobID) (jobs st)) as [job|] eqn:Hfind.
  2: { left. rewrite enqueue_missing by exact Hfind. split; [reflexivity|discriminate]. }
  destruct (CronJob.Enabled job) eqn:Hen.
  2: { left. rewrite (enqueue_not_due env jobID now st job Hfind) by auto.
       split; [reflexivity|discriminate]. }
  destruct (CronJob.NextRunAt job) as [sf|] eqn:Hnext.
  2: { left. rewrite (enqueue_not_due env jobID now st job Hfind) by auto.
       split; [reflexivity|discriminate]. }
  destruct (Z.lt_ge_cases now sf) as [Hlt|Hge].
  { left. rewrite (enqueue_not_due env jobID now st job Hfind) by eauto.
    split; [reflexivity|discriminate]. }
  assert (Hdue : due job now sf) by (unfold due; auto).
  destruct (firedColumns job sf) as [cols|e] eqn:Hcols.
  2: { left. rewrite (enqueue_unresolved env jobID now st job sf e) by assumption.
       split; [reflexivity|discriminate]. }
  destruct (existsb (λ r, String.eqb (CronRun.ID r) (uuid env)) (runs st)) eqn:Hfresh.
  { left. rewrite (enqueue_duplicate env jobID now st job sf cols); try assumption.
    - split; [reflexivity|discriminate].
    - unfold freshUUID. rewrite Hfresh. discriminate. }
  right. exists job, sf, cols. eexists.
  split; [reflexivity|]. split; [exact Hdue|]. split; [exact Hcols|].
  apply enqueue_due; assumption.
Qed.

(** X6.  Whatever the job and the store: enqueueJobIfDue rewrites and
    removes no run and adds or removes no job row.  It appends at most one
    run; that run is new (not started, not finished, first attempt), its
    status is [queued] or [skipped], its fire time is not after [now], and
    the workers are woken only if it is [queued].  When the call returns an
    error, the store is the one before the call. *)
Theorem enqueue_appends_at_most_one (env : Env) (jobID : string) (now : Z) (st : Store) :
  let st' := (enqueueJobIfDue env jobID now st).1 in
  let res := (enqueueJobIfDue env jobID now st).2 in
  map CronJob.ID (jobs st') = map CronJob.ID (jobs st)
  ∧ (∀ e, res = Err e → st' = st)
  ∧ ((runs st' = runs st ∧ res ≠ Ok true)
     ∨ ∃ run, runs st' = runs st ++ [run]
              ∧ CronRun.JobID run = jobID
              ∧ CronRun.ScheduledFor run ≤ now
              ∧ CronRun.StartedAt run = None ∧ CronRun.FinishedAt run = None
              ∧ CronRun.Attempt run = 1
              ∧ ((CronRun.Status run = StatusQueued ∧ res = Ok true)
                 ∨ (CronRun.Status run = StatusSkipped ∧ res = Ok false))).
Proof.
  intros st' res. subst st' res.
  destruct (enqueue_cases env jobID now st)
    as [[Hsame Hres]|(job & sf & cols & skip & Hfind & Hdue & Hcols & Heq)].
  - rewrite Hsame. split; [reflexivity|]. split; [reflexivity|]. left. auto.
  - rewrite Heq. cbn [fst snd jobs runs].
    split.
    { rewrite map_map. apply map_ext. intros j.
      destruct (String.eqb (CronJob.ID j) jobID); [|reflexivity].
      apply (fired_row env job j sf cols Hcols). }
    split; [discriminate|].
    right. eexists. split; [reflexivity|].
    pose proof (find_id _ _ _ Hfind) as Hid.
    destruct Hdue as (_ & _ & Hle).
    cbn. repeat (split; [assumption || reflexivity|]).
    destruct skip; [right|left]; split; reflexivity.
Qed.

Lemma find_map_id (jobID : string) (g : CronJob.t → CronJob.t) (l : list CronJob.t) :
  (∀ j, CronJob.ID (g j) = CronJob.ID j) →
  find (λ j, String.eqb (CronJob.ID j) jobID)
    (map (λ j, if String.eqb (CronJob.ID j) jobID then g j else j) l)
  = option_map g (find (λ j, String.eqb (CronJob.ID j) jobID) l).
Proof.
  intros Hg. induction l as [|j l IH]; [reflexivity|].
  cbn [map find].
  destruct (String.eqb (CronJob.ID j) jobID) eqn:Hj.
  - rewrite Hg, Hj. reflexivity.
  - rewrite Hj. exact IH.
Qed.

(** X7.  One run per fire.  After the fire of a due job, calling
    enqueueJobIfDue again for the job changes nothing and queues nothing,
    at every time before the new [next_run_at]; for a [run_once] job, at
    every time whatsoever. *)
Theorem enqueue_again_noop (env env2 : Env) (jobID : string) (now now2 : Z)
  (st : Store) (job : CronJob.t) (scheduledFor : Z) (cols : list jobColumn) :
  find (λ j, String.eqb (CronJob.ID j) jobID) (jobs st) = Some job →
  due job now scheduledFor →
  firedColumns job scheduledFor = Ok cols →
  freshUUID env st →
  CronJob.RunOnce job = true
  ∨ (∃ nxt, nextRunAt job scheduledFor = Ok nxt ∧ now2 < nxt) →
  let st' := (enqueueJobIfDue env jobID now st).1 in
  runs st' ≠ runs st
  ∧ enqueueJobIfDue env2 jobID now2 st' = (st', Ok false).
Proof.
  intros Hfind Hdue Hcols Hfresh Hlater st'. subst st'.
  rewrite (enqueue_due env jobID now st job scheduledFor cols Hfind Hdue Hcols Hfresh).
  cbn [fst jobs runs].
  split.
  { intros Heq. apply (f_equal (@length _)) in Heq.
    rewrite length_app in Heq. cbn in Heq. lia. }
  set (g := assignJob (cols ++ [ColJobUpdatedAt (dbNow env)])).
  assert (Hg : ∀ j, CronJob.ID (g j) = CronJob.ID j)
    by (intros j; apply (fired_row env job j scheduledFor cols Hcols)).
  apply (enqueue_not_due env2 jobID now2 _ (g job)).
  - cbn [jobs]. rewrite (find_map_id jobID g (jobs st) Hg), Hfind. reflexivity.
  - pose proof (fired_row env job job scheduledFor cols Hcols) as (_ & _ & Hrest).
    fold g in Hrest.
    destruct Hlater as [Honce|(nxt & Hnxt & Hlt)].
    + rewrite Honce in Hrest. left. apply Hrest.
    + destruct (CronJob.RunOnce job).
      * left. apply Hrest.
      * destruct Hrest as (_ & nxt' & Hnxt' & Hrow).
        right. right. exists nxt'. split; [exact Hrow|]. congruence.
Qed.

Lemma enqueue_again_noop_witness :
  runs (enqueueJobIfDue sampleEnv "j1" 100 sampleStore).1 ≠ runs sampleStore
  ∧ enqueueJobIfDue (sampleEnvAt 1) "j1" 159 (enqueueJobIfDue sampleEnv "j1" 100 sampleStore).1
    = ((enqueueJobIfDue sampleEnv "j1" 100 sampleStore).1, Ok false).
Proof.
  apply (enqueue_again_noop sampleEnv (sampleEnvAt 1) "j1" 100 159 sampleStore jobInterval 100
           [ColLastRunAt (Some 100); ColNextRunAt (Some 160)]).
  - reflexivity.
  - unfold due. cbn. repeat split. lia.
  - reflexivity.
  - reflexivity.
  - right. exists 160. split; [reflexivity|lia].
Defined.

Lemma setJobColumn_ID (j : CronJob.t) (c : jobColumn) :
  CronJob.ID (setJobColumn j c) = CronJob.ID j.
Proof. destruct c; reflexivity. Qed.

Lemma assignJob_ID (cols : list jobColumn) :
  ∀ j, CronJob.ID (assignJob cols j) = CronJob.ID j.
Proof.
  unfold assignJob. induction cols as [|c cols IH]; intros j; [reflexivity|].
  cbn [fold_left]. rewrite IH. apply setJobColumn_ID.
Qed.

Lemma updateJobsWhereID_IDs (env : Env) (id : string) (cols : list jobColumn) (st : Store) :
  map CronJob.ID (jobs (updateJobsWhereID env id cols st)) = map CronJob.ID (jobs st).
Proof.
  unfold updateJobsWhereID. cbn [jobs]. rewrite map_map. apply map_ext.
  intros j. destruct (String.eqb (CronJob.ID j) id); [apply assignJob_ID|reflexivity].
Qed.

Lemma reconcileMissingJob_keeps (env : Env) (now : Z) (st : Store) (job : CronJob.t) :
  runs (reconcileMissingJob env now st job) = runs st
  ∧ map CronJob.ID (jobs (reconcileMissingJob env now st job)) = map CronJob.ID (jobs st).
Proof.
  unfold reconcileMissingJob.
  destruct (nextRunAt job now); (split; [reflexivity|apply updateJobsWhereID_IDs]).
Qed.

Lemma reconcileMissingNextRunAt_keeps (env : Env) (now : Z) (st : Store) :
  runs (reconcileMissingNextRunAt env now st) = runs st
  ∧ map CronJob.ID (jobs (reconcileMissingNextRunAt env now st)) = map CronJob.ID (jobs st).
Proof.
  unfold reconcileMissingNextRunAt.
  generalize (filter (λ j, CronJob.Enabled j = true ∧ CronJob.NextRunAt j = None) (jobs st)).
  intros l. revert st.
  induction l as [|job l IH]; intros st; [auto|].
  cbn [fold_left].
  destruct (IH (reconcileMissingJob env now st job)) as [Hr Hj].
  destruct (reconcileMissingJob_keeps env now st job) as [Hr' Hj'].
  split; congruence.
Qed.

Lemma enqueueAll_effect (envAt : nat → Env) (now : Z) (due : list CronJob.t) :
  ∀ (i : nat) (st : Store),
    map CronJob.ID (jobs (enqueueAll envAt i now due st)) = map CronJob.ID (jobs st)
    ∧ ∃ new, runs (enqueueAll envAt i now due st) = runs st ++ new
             ∧ (length new ≤ length due)%nat
             ∧ ∀ r, In r new → freshRun now r.
Proof.
  induction due as [|job due IH]; intros i st.
  - cbn [enqueueAll]. split; [reflexivity|].
    exists []. rewrite app_nil_r. split; [reflexivity|]. split; [cbn; lia|].
    intros r [].
  - cbn [enqueueAll].
    destruct (IH (S i) (enqueueJobIfDue (envAt i) (CronJob.ID job) now st).1)
      as (Hids & new & Hruns & Hlen & Hnew).
    destruct (enqueue_cases (envAt i) (CronJob.ID job) now st)
      as [[Hsame _]|(jb & sf & cols & skip & Hfind & Hdue & Hcols & Heq)].
    + rewrite Hsame in *. split; [exact Hids|].
      exists new. split; [exact Hruns|]. split; [cbn; lia|exact Hnew].
    + rewrite Heq in *. cbn [fst jobs runs] in *.
      split.
      { rewrite Hids, map_map. apply map_ext. intros j.
        destruct (String.eqb (CronJob.ID j) (CronJob.ID job)); [apply assignJob_ID|reflexivity]. }
      exists (newRun (envAt i) jb sf skip :: new).
      split; [rewrite Hruns, <- app_assoc; reflexivity|].
      split; [cbn; lia|].
      intros r [<-|Hin]; [|apply Hnew; exact Hin].
      destruct Hdue as (_ & _ & Hle). unfold freshRun. cbn.
      split; [exact Hle|]. split; [destruct skip; auto|]. auto.
Qed.

(** X8.  A tick keeps the job rows (their number and ids) and every run
    that exists.  The runs it adds are at most one for each job row; each
    is [queued] or [skipped], neither started nor finished, and its fire
    time is not after the time of the tick. *)
Theorem tick_adds_due_runs (env : Env) (envAt : nat → Env) (now : Z) (st : Store) :
  let st' := tick env envAt now st in
  map CronJob.ID (jobs st') = map CronJob.ID (jobs st)
  ∧ ∃ new, runs st' = runs st ++ new
           ∧ (length new ≤ length (jobs st))%nat
           ∧ ∀ r, In r new →
               CronRun.ScheduledFor r ≤ now
               ∧ (CronRun.Status r = StatusQueued ∨ CronRun.Status r = StatusSkipped)
               ∧ CronRun.StartedAt r = None ∧ CronRun.FinishedAt r = None.
Proof.
  intros st'. subst st'. unfold tick. cbv zeta.
  destruct (reconcileMissingNextRunAt_keeps env now st) as [Hr Hj].
  set (st1 := reconcileMissingNextRunAt env now st) in *.
  destruct (enqueueAll_effect envAt now (filter (λ j, dueNow now j = true) (jobs st1)) 0 st1)
    as (Hids & new & Hruns & Hlen & Hnew).
  split; [congruence|].
  exists new. split; [congruence|]. split; [|exact Hnew].
  pose proof (length_filter (λ j, dueNow now j = true) (jobs st1)) as Hf.
  apply (f_equal (@length _)) in Hj. rewrite !length_map in Hj. lia.
Qed.

End TickFacts.

(** ** Reconciliation of the next fire times *)

Section ReconcileFacts.

(** A loop that, for each job of a snapshot, rewrites the rows of that
    job's id by a function chosen from the snapshot. *)
Variable g : CronJob.t → CronJob.t → CronJob.t.
Hypothesis g_ID : ∀ a j, CronJob.ID (g a j) = CronJob.ID j.

Lemma fold_rows (l : list CronJob.t) :
  ∀ st, jobs (fold_left (stepRows g) l st)
        = map (λ j, fold_left (λ x a, hitRow g a x) l j) (jobs st)
        ∧ runs (fold_left (stepRows g) l st) = runs st.
Proof.
  induction l as [|a l IH]; intros st.
  - cbn. rewrite map_id. auto.
  - cbn [fold_left]. destruct (IH (stepRows g st a)) as [Hj Hr].
    rewrite Hj, Hr. unfold stepRows. cbn [jobs runs].
    rewrite map_map. auto.
Qed.

Lemma fold_hit_other (l : list CronJob.t) :
  ∀ j, (∀ a, In a l → CronJob.ID a ≠ CronJob.ID j) →
       fold_left (λ x a, hitRow g a x) l j = j.
Proof.
  induction l as [|a l IH]; intros j Hne; [reflexivity|].
  cbn [fold_left]. unfold hitRow at 2.
  destruct (String.eqb_spec (CronJob.ID j) (CronJob.ID a)) as [Heq|_].
  - exfalso. apply (Hne a); [left; reflexivity|auto].
  - apply IH. intros a' Ha'. apply Hne. right. exact Ha'.
Qed.

Lemma fold_hit_self (l : list CronJob.t) :
  NoDup (map CronJob.ID l) →
  ∀ j, In j l → fold_left (λ x a, hitRow g a x) l j = g j j.
Proof.
  induction l as [|a l IH]; intros Hnd j Hin; [destruct Hin|].
  cbn [map] in Hnd. apply NoDup_cons in Hnd. destruct Hnd as [Hnotin Hnd].
  cbn [fold_left].
  destruct Hin as [->|Hin].
  - unfold hitRow at 2. rewrite String.eqb_refl.
    apply fold_hit_other. intros a' Ha' Heq.
    apply Hnotin. rewrite g_ID in Heq. rewrite <- Heq.
    apply list_elem_of_In, in_map, Ha'.
  - unfold hitRow at 2.
    destruct (String.eqb_spec (CronJob.ID j) (CronJob.ID a)) as [Heq|_].
    + exfalso. apply Hnotin. rewrite <- Heq. apply list_elem_of_In, in_map, Hin.
    + apply IH; assumption.
Qed.

Lemma NoDup_filter_IDs (P : CronJob.t → Prop) `{∀ x, Decision (P x)} (l : list CronJob.t) :
  NoDup (map CronJob.ID l) → NoDup (map CronJob.ID (filter P l)).
Proof.
  induction l as [|a l IH]; intros Hnd; [constructor|].
  cbn [map] in Hnd. apply NoDup_cons in Hnd. destruct Hnd as [Hnotin Hnd].
  rewrite filter_cons. destruct (decide (P a)); [|auto].
  cbn [map]. apply NoDup_cons. split; [|auto].
  intros Hin. apply Hnotin.
  apply list_elem_of_In in Hin. apply in_map_iff in Hin.
  destruct Hin as (x & Hx & Hin).
  apply list_elem_of_In, list_elem_of_filter in Hin. destruct Hin as [_ Hin].
  rewrite <- Hx. apply list_elem_of_In, in_map, list_elem_of_In, Hin.
Qed.

Lemma NoDup_IDs_eq (l : list CronJob.t) (a j : CronJob.t) :
  NoDup (map CronJob.ID l) → In a l → In j l → CronJob.ID a = CronJob.ID j → a = j.
Proof.
  induction l as [|x l IH]; intros Hnd Ha Hj Heq; [destruct Ha|].
  cbn [map] in Hnd. apply NoDup_cons in Hnd. destruct Hnd as [Hnotin Hnd].
  destruct Ha as [->|Ha], Hj as [->|Hj]; auto.
  - exfalso. apply Hnotin. rewrite Heq. apply list_elem_of_In, in_map, Hj.
  - exfalso. apply Hnotin. rewrite <- Heq. apply list_elem_of_In, in_map, Ha.
Qed.

(** With distinct ids, the loop over the rows that satisfy [P] rewrites
    each of these rows by its own function and no other row. *)
Lemma fold_filter_rows (P : CronJob.t → Prop) `{∀ x, Decision (P x)} (st : Store) :
  NoDup (map CronJob.ID (jobs st)) →
  jobs (fold_left (stepRows g) (filter P (jobs st)) st)
  = map (λ j, if decide (P j) then g j j else j) (jobs st)
  ∧ runs (fold_left (stepRows g) (filter P (jobs st)) st) = runs st.
Proof.
  intros Hnd.
  destruct (fold_rows (filter P (jobs st)) st) as [Hj Hr].
  split; [|exact Hr]. rewrite Hj. apply map_ext_in. intros j Hin.
  destruct (decide (P j)) as [HP|HnP].
  - apply fold_hit_self.
    + apply NoDup_filter_IDs. exact Hnd.
    + apply list_elem_of_In, list_elem_of_filter. split; [exact HP|].
      apply list_elem_of_In. exact Hin.
  - apply fold_hit_other. intros a Ha Heq.
    apply list_elem_of_In, list_elem_of_filter in Ha. destruct Ha as [HPa Ha].
    apply list_elem_of_In in Ha.
    rewrite (NoDup_IDs_eq (jobs st) a j Hnd Ha Hin Heq) in HPa. contradiction.
Qed.

End ReconcileFacts.

Section ReconcileLoops.

Lemma store_eta (st : Store) : mkStore (jobs st) (runs st) = st.
Proof. destruct st; reflexivity. Qed.

Lemma fold_left_ext {A B : Type} (f h : A → B → A) (l : list B) :
  (∀ a b, f a b = h a b) → ∀ a, fold_left f l a = fold_left h l a.
Proof.
  intros Hfh. induction l as [|b l IH]; intros a; [reflexivity|].
  cbn [fold_left]. rewrite Hfh. apply IH.
Qed.

Lemma stepRows_id (g : CronJob.t → CronJob.t → CronJob.t) (st : Store) (a : CronJob.t) :
  (∀ j, g a j = j) → stepRows g st a = st.
Proof.
  intros Hid. unfold stepRows.
  rewrite (map_ext (hitRow g a) (λ j, j)), map_id; [apply store_eta|].
  intros j. unfold hitRow. destruct (String.eqb _ _); auto.
Qed.

Lemma reconcileJob_step (env : Env) (now : Z) (st : Store) (job : CronJob.t) :
  reconcileJob env now st job = stepRows (startRewrite env now) st job.
Proof.
  unfold reconcileJob.
  destruct (nextRunAt job now) as [nxt|e] eqn:Hn.
  - destruct (CronJob.NextRunAt job) as [at_|] eqn:Ha.
    + destruct (at_ <? now) eqn:Hlt.
      * unfold stepRows, updateJobsWhereID, hitRow, startRewrite.
        rewrite Hn, Ha, Hlt. reflexivity.
      * symmetry. apply stepRows_id. intros j. unfold startRewrite.
        rewrite Hn, Ha, Hlt. reflexivity.
    + unfold stepRows, updateJobsWhereID, hitRow, startRewrite.
      rewrite Hn, Ha. reflexivity.
  - unfold stepRows, updateJobsWhereID, hitRow, startRewrite.
    rewrite Hn. reflexivity.
Qed.

Lemma reconcileMissingJob_step (env : Env) (now : Z) (st : Store) (job : CronJob.t) :
  reconcileMissingJob env now st job = stepRows (missingRewrite env now) st job.
Proof.
  unfold reconcileMissingJob, stepRows, updateJobsWhereID, hitRow, missingRewrite.
  destruct (nextRunAt job now); reflexivity.
Qed.

Lemma startRewrite_ID (env : Env) (now : Z) (a j : CronJob.t) :
  CronJob.ID (startRewrite env now a j) = CronJob.ID j.
Proof.
  unfold startRewrite.
  destruct (nextRunAt a now); [|reflexivity].
  destruct (CronJob.NextRunAt a) as [at_|]; [|reflexivity].
  destruct (at_ <? now); reflexivity.
Qed.

Lemma missingRewrite_ID (env : Env) (now : Z) (a j : CronJob.t) :
  CronJob.ID (missingRewrite env now a j) = CronJob.ID j.
Proof. unfold missingRewrite. destruct (nextRunAt a now); reflexivity. Qed.

(** X9.  Start-up reconciliation at a Unix time in range (at most 2^62 in
    absolute value), for job rows with distinct ids: no run is added or
    changed; a disabled row is not touched; an enabled row whose schedule
    cannot be resolved is disabled; an enabled row whose [next_run_at] is
    null or in the past gets the resolver's next fire time after [now],
    and nothing but [updated_at] besides; a row whose [next_run_at] is not
    in the past is kept as it is.  For a cron schedule, and for an
    interval of at most 9223372036 seconds, the new [next_run_at] lies
    strictly after [now] and is a 64-bit number. *)
Theorem startup_reconcile_rows (env : Env) (now : Z) (st : Store) :
  unixInRange now →
  uniqueJobIDs st →
  runs (reconcileNextRunAt env now st) = runs st
  ∧ jobs (reconcileNextRunAt env now st) = map (reconciledRow env now) (jobs st)
  ∧ ∀ j, (CronJob.Enabled j = false → reconciledRow env now j = j)
       ∧ (CronJob.Enabled j = true → is_ok (nextRunAt j now) = false →
          CronJob.Enabled (reconciledRow env now j) = false
          ∧ CronJob.NextRunAt (reconciledRow env now j) = CronJob.NextRunAt j)
       ∧ (∀ nxt, CronJob.Enabled j = true → nextRunAt j now = Ok nxt →
            (match CronJob.NextRunAt j with
             | Some at_ => now ≤ at_ → reconciledRow env now j = j
             | None => True
             end)
            ∧ (match CronJob.NextRunAt j with
               | Some at_ => at_ < now
               | None => True
               end →
               CronJob.NextRunAt (reconciledRow env now j) = Some nxt
               ∧ CronJob.Enabled (reconciledRow env now j) = true
               ∧ (scheduleSet j = true
                  ∨ (∃ iv, CronJob.IntervalSeconds j = Some iv ∧ iv ≤ maxIntervalSeconds) →
                  now < nxt ∧ minInt64 ≤ nxt ≤ maxInt64))).
Proof.
  intros Hrange Hnd. unfold uniqueJobIDs in Hnd.
  unfold reconcileNextRunAt.
  rewrite (fold_left_ext _ _ _ (reconcileJob_step env now)).
  destruct (fold_filter_rows (startRewrite env now) (startRewrite_ID env now)
              (λ j, CronJob.Enabled j = true) st Hnd) as [Hj Hr].
  split; [exact Hr|]. split.
  { rewrite Hj. apply map_ext. intros j. unfold reconciledRow, startRewrite.
    destruct (decide (CronJob.Enabled j = true)) as [He|He].
    - rewrite He. reflexivity.
    - apply not_true_is_false in He. rewrite He. reflexivity. }
  intros j. split; [|split].
  - intros He. unfold reconciledRow. rewrite He. reflexivity.
  - intros He Hn. unfold reconciledRow. rewrite He.
    destruct (nextRunAt j now); [discriminate|]. cbn. auto.
  - intros nxt He Hn. unfold reconciledRow. rewrite He, Hn. split.
    + destruct (CronJob.NextRunAt j) as [at_|]; [|exact I].
      intros Hle. destruct (Z.ltb_spec at_ now); [lia|reflexivity].
    + intros Hstale.
      assert (Hrow : (match CronJob.NextRunAt j with
                      | Some at_ =>
                        if at_ <? now
                        then assignJob [ColNextRunAt (Some nxt); ColJobUpdatedAt (dbNow env)] j
                        else j
                      | None => assignJob [ColNextRunAt (Some nxt); ColJobUpdatedAt (dbNow env)] j
                      end)
                     = assignJob [ColNextRunAt (Some nxt); ColJobUpdatedAt (dbNow env)] j).
      { destruct (CronJob.NextRunAt j) as [at_|]; [|reflexivity].
        destruct (Z.ltb_spec at_ now); [reflexivity|lia]. }
      rewrite Hrow. cbn. split; [reflexivity|]. split; [exact He|].
      intros Hcase. apply (nextRunAt_later j now nxt Hrange Hn Hcase).
Qed.

Lemma startup_reconcile_rows_witness :
  unixInRange 1770109100
  ∧ uniqueJobIDs storeStale
  ∧ runs (reconcileNextRunAt sampleEnv 1770109100 storeStale) = runs storeStale
  ∧ map CronJob.NextRunAt (jobs (reconcileNextRunAt sampleEnv 1770109100 storeStale))
    = [Some 1770109160; Some 1770109200].
Proof.
  assert (Hrange : unixInRange 1770109100) by (unfold unixInRange; lia).
  assert (H : uniqueJobIDs storeStale).
  { unfold uniqueJobIDs. apply (bool_decide_unpack _). vm_compute. reflexivity. }
  split; [exact Hrange|]. split; [exact H|].
  pose proof (startup_reconcile_rows sampleEnv 1770109100 storeStale Hrange H)
    as (Hr & Hj & _).
  split; [exact Hr|]. rewrite Hj. vm_compute. reflexivity.
Defined.

(** The stale rows of the sample, reconciled at 2026-02-03T08:58:20Z. *)
Example startup_reconcile_sample :
  map CronJob.NextRunAt (jobs (reconcileNextRunAt sampleEnv 1770109100 storeStale))
  = [Some 1770109160; Some 1770109200].
Proof. vm_compute. reflexivity. Qed.

(** X10.  The reconciliation at the head of each tick, for job rows with
    distinct ids: no run is added or changed, and the only rows written
    are the enabled ones whose [next_run_at] is null; such a row gets the
    resolver's next fire time after [now], or is disabled when the
    schedule cannot be resolved. *)
Theorem tick_reconcile_rows (env : Env) (now : Z) (st : Store) :
  uniqueJobIDs st →
  runs (reconcileMissingNextRunAt env now st) = runs st
  ∧ jobs (reconcileMissingNextRunAt env now st) = map (missingRow env now) (jobs st)
  ∧ ∀ j, (CronJob.Enabled j = false ∨ CronJob.NextRunAt j ≠ None
          → missingRow env now j = j)
       ∧ (CronJob.Enabled j = true → CronJob.NextRunAt j = None →
          match nextRunAt j now with
          | Ok nxt => CronJob.NextRunAt (missingRow env now j) = Some nxt
                      ∧ CronJob.Enabled (missingRow env now j) = true
          | Err _ => CronJob.Enabled (missingRow env now j) = false
                     ∧ CronJob.NextRunAt (missingRow env now j) = None
          end).
Proof.
  intros Hnd. unfold uniqueJobIDs in Hnd.
  unfold reconcileMissingNextRunAt.
  rewrite (fold_left_ext _ _ _ (reconcileMissingJob_step env now)).
  destruct (fold_filter_rows (missingRewrite env now) (missingRewrite_ID env now)
              (λ j, CronJob.Enabled j = true ∧ CronJob.NextRunAt j = None) st Hnd)
    as [Hj Hr].
  split; [exact Hr|]. split.
  { rewrite Hj. apply map_ext. intros j. unfold missingRow, missingRewrite.
    destruct (decide (CronJob.Enabled j = true ∧ CronJob.NextRunAt j = None)) as [[He Hn]|Hno].
    - rewrite He, Hn. reflexivity.
    - destruct (CronJob.Enabled j) eqn:He; [|reflexivity].
      destruct (CronJob.NextRunAt j) eqn:Hn; [reflexivity|].
      exfalso. apply Hno. auto. }
  intros j. split.
  - intros [He|Hn]; unfold missingRow.
    + rewrite He. reflexivity.
    + destruct (CronJob.Enabled j); [|reflexivity].
      destruct (CronJob.NextRunAt j); [reflexivity|contradiction].
  - intros He Hn. unfold missingRow. rewrite He, Hn.
    destruct (nextRunAt j now); cbn; auto.
Qed.

Lemma tick_reconcile_rows_witness :
  uniqueJobIDs storeNullNext
  ∧ map CronJob.NextRunAt (jobs storeNullNext) = [None; None; None; Some 100]
  ∧ runs (reconcileMissingNextRunAt sampleEnv 1770109100 storeNullNext) = runs storeNullNext
  ∧ map (λ j, (CronJob.Enabled j, CronJob.NextRunAt j))
      (jobs (reconcileMissingNextRunAt sampleEnv 1770109100 storeNullNext))
    = [(true, Some 1770109160); (true, Some 1770109200); (false, None); (true, Some 100)].
Proof.
  assert (H : uniqueJobIDs storeNullNext).
  { unfold uniqueJobIDs. apply (bool_decide_unpack _). vm_compute. reflexivity. }
  split; [exact H|]. split; [reflexivity|].
  pose proof (tick_reconcile_rows sampleEnv 1770109100 storeNullNext H) as (Hr & Hj & _).
  split; [exact Hr|]. rewrite Hj. vm_compute. reflexivity.
Defined.

End ReconcileLoops.

(** ** The claim, the execution and the drain loop *)

Section ClaimFacts.

Lemma leastScheduled_spec (l : list CronRun.t) :
  ∀ best, (leastScheduled best l = best ∨ In (leastScheduled best l) l)
          ∧ CronRun.ScheduledFor (leastScheduled best l) ≤ CronRun.ScheduledFor best
          ∧ ∀ q, In q l →
                 CronRun.ScheduledFor (leastScheduled best l) ≤ CronRun.ScheduledFor q.
Proof.
  induction l as [|r l IH]; intros best.
  - cbn. split; [auto|]. split; [lia|]. intros q [].
  - cbn [leastScheduled].
    destruct (Z.ltb_spec (CronRun.ScheduledFor r) (CronRun.ScheduledFor best)) as [Hlt|Hge].
    + destruct (IH r) as (Hin & Hle & Hall).
      split; [destruct Hin as [->|Hin]; right; [left; reflexivity|right; exact Hin]|].
      split; [lia|].
      intros q [<-|Hq]; [exact Hle|apply Hall; exact Hq].
    + destruct (IH best) as (Hin & Hle & Hall).
      split; [destruct Hin as [Heq|Hin]; [left; exact Heq|right; right; exact Hin]|].
      split; [exact Hle|].
      intros q [<-|Hq]; [lia|apply Hall; exact Hq].
Qed.

(** The selected run is a queued row with the least fire time among the
    queued rows; none is selected exactly when none is queued. *)
Lemma selectNextQueued_spec (st : Store) :
  match selectNextQueued st with
  | Some r =>
      In r (runs st) ∧ CronRun.Status r = StatusQueued
      ∧ ∀ q, In q (runs st) → CronRun.Status q = StatusQueued →
             CronRun.ScheduledFor r ≤ CronRun.ScheduledFor q
  | None => ∀ q, In q (runs st) → CronRun.Status q ≠ StatusQueued
  end.
Proof.
  unfold selectNextQueued.
  destruct (filter (λ r, String.eqb (CronRun.Status r) StatusQueued = true) (runs st))
    as [|r0 rest] eqn:Hf.
  - intros q Hq Hs.
    assert (Hin : q ∈ filter (λ r, String.eqb (CronRun.Status r) StatusQueued = true) (runs st)).
    { apply list_elem_of_filter. split; [apply String.eqb_eq; exact Hs|].
      apply list_elem_of_In. exact Hq. }
    rewrite Hf in Hin. apply list_elem_of_In in Hin. destruct Hin.
  - assert (Hmem : ∀ x, In x (r0 :: rest) ↔
                        (In x (runs st) ∧ CronRun.Status x = StatusQueued)).
    { intros x. rewrite <- Hf, <- !list_elem_of_In, list_elem_of_filter.
      rewrite String.eqb_eq. tauto. }
    destruct (leastScheduled_spec rest r0) as (Hin & Hle & Hall).
    assert (Hsel : In (leastScheduled r0 rest) (r0 :: rest)).
    { destruct Hin as [->|Hin]; [left; reflexivity|right; exact Hin]. }
    apply Hmem in Hsel. destruct Hsel as [Hsel Hst].
    split; [exact Hsel|]. split; [exact Hst|].
    intros q Hq Hs.
    assert (Hq' : In q (r0 :: rest)) by (apply Hmem; auto).
    destruct Hq' as [<-|Hq']; [exact Hle|apply Hall; exact Hq'].
Qed.

Lemma claimUpdate_runs (env : Env) (now : Z) (r : CronRun.t) (st : Store) :
  runs (claimUpdate env now r st).1
  = map (λ x, if String.eqb (CronRun.ID x) (CronRun.ID r)
                 && String.eqb (CronRun.Status x) StatusQueued
              then CronRun.mk (CronRun.ID x) (CronRun.JobID x) (CronRun.JobUpdatedAt x)
                     StatusRunning (CronRun.ScheduledFor x) (Some now)
                     (CronRun.FinishedAt x) (CronRun.Attempt x) (CronRun.Error x)
                     (CronRun.ResultSummary x) (CronRun.CreatedAt x) (dbNow env)
              else x)
        (runs st)
  ∧ jobs (claimUpdate env now r st).1 = jobs st.
Proof. split; reflexivity. Qed.

Lemma filter_none_length {A : Type} (P : A → Prop) `{∀ x, Decision (P x)} (l : list A) :
  (∀ x, In x l → ¬ P x) → length (filter P l) = 0%nat.
Proof.
  induction l as [|a l IH]; intros Hno; [reflexivity|].
  rewrite filter_cons_False by (apply Hno; left; reflexivity).
  apply IH. intros x Hx. apply Hno. right. exact Hx.
Qed.

Lemma filter_some_length {A : Type} (P : A → Prop) `{∀ x, Decision (P x)} (l : list A) (a : A) :
  In a l → P a → (0 < length (filter P l))%nat.
Proof.
  intros Hin HP.
  assert (Hmem : a ∈ filter P l)
    by (apply list_elem_of_filter; split; [exact HP|apply list_elem_of_In; exact Hin]).
  destruct (filter P l); [apply list_elem_of_In in Hmem; destruct Hmem|cbn; lia].
Qed.

(** The two cases of the claim. *)
Lemma claim_cases (env : Env) (now : Z) (st : Store) :
  ((∀ q, In q (runs st) → CronRun.Status q ≠ StatusQueued)
   ∧ claimNextQueuedRun env now st = (st, None))
  ∨ ∃ r st',
      claimNextQueuedRun env now st = (st', Some (claimedCopy now r))
      ∧ In r (runs st) ∧ CronRun.Status r = StatusQueued
      ∧ (∀ q, In q (runs st) → CronRun.Status q = StatusQueued →
              CronRun.ScheduledFor r ≤ CronRun.ScheduledFor q)
      ∧ jobs st' = jobs st
      ∧ runs st'
        = map (λ x, if String.eqb (CronRun.ID x) (CronRun.ID r)
                       && String.eqb (CronRun.Status x) StatusQueued
                    then CronRun.mk (CronRun.ID x) (CronRun.JobID x) (CronRun.JobUpdatedAt x)
                           StatusRunning (CronRun.ScheduledFor x) (Some now)
                           (CronRun.FinishedAt x) (CronRun.Attempt x) (CronRun.Error x)
                           (CronRun.ResultSummary x) (CronRun.CreatedAt x) (dbNow env)
                    else x)
              (runs st).
Proof.
  pose proof (selectNextQueued_spec st) as Hsel.
  unfold claimNextQueuedRun.
  destruct (selectNextQueued st) as [r|].
  - right. destruct Hsel as (Hin & Hst & Hleast).
    destruct (claimUpdate env now r st) as [st' rows] eqn:Hc.
    assert (Hrows : 0 < rows).
    { unfold claimUpdate, updateRunsWhere in Hc. inversion Hc; subst rows.
      apply (Nat2Z.inj_lt 0). apply (filter_some_length _ _ r Hin).
      rewrite String.eqb_refl, Hst. reflexivity. }
    destruct (Z.eqb_spec rows 0); [lia|].
    exists r, st'. split; [reflexivity|].
    pose proof (claimUpdate_runs env now r st) as [Hr Hj]. rewrite Hc in Hr, Hj.
    cbn [fst] in Hr, Hj. auto 10.
  - left. split; [exact Hsel|reflexivity].
Qed.

(** X11.  The claim.  When no run is queued, nothing is claimed and the
    store is as before.  Otherwise a queued run with the least fire time
    is claimed: the worker gets it with status [running] and [started_at]
    = now, the rows of its id that were [queued] are [running] with that
    [started_at], and every other row and every job is as before. *)
Theorem claimNextQueuedRun_spec (env : Env) (now : Z) (st : Store) :
  ((∀ q, In q (runs st) → CronRun.Status q ≠ StatusQueued)
   ∧ claimNextQueuedRun env now st = (st, None))
  ∨ ∃ r st',
      claimNextQueuedRun env now st = (st', Some (claimedCopy now r))
      ∧ In r (runs st) ∧ CronRun.Status r = StatusQueued
      ∧ (∀ q, In q (runs st) → CronRun.Status q = StatusQueued →
              CronRun.ScheduledFor r ≤ CronRun.ScheduledFor q)
      ∧ jobs st' = jobs st
      ∧ runs st'
        = map (λ x, if String.eqb (CronRun.ID x) (CronRun.ID r)
                       && String.eqb (CronRun.Status x) StatusQueued
                    then CronRun.mk (CronRun.ID x) (CronRun.JobID x) (CronRun.JobUpdatedAt x)
                           StatusRunning (CronRun.ScheduledFor x) (Some now)
                           (CronRun.FinishedAt x) (CronRun.Attempt x) (CronRun.Error x)
                           (CronRun.ResultSummary x) (CronRun.CreatedAt x) (dbNow env)
                    else x)
              (runs st).
Proof. exact (claim_cases env now st). Qed.

(** X12.  Two workers that selected the same queued run: once the
    conditional update of one of them has been applied, that of the other
    affects no row and changes nothing, so it claims nothing. *)
Theorem claim_exclusive (env1 env2 : Env) (now1 now2 : Z) (r : CronRun.t) (st : Store) :
  let st1 := (claimUpdate env1 now1 r st).1 in
  claimUpdate env2 now2 r st1 = (st1, 0).
Proof.
  intros st1.
  assert (Hnone : ∀ x, In x (runs st1) →
            (String.eqb (CronRun.ID x) (CronRun.ID r)
             && String.eqb (CronRun.Status x) StatusQueued) = false).
  { intros x Hx. subst st1.
    rewrite (proj1 (claimUpdate_runs env1 now1 r st)) in Hx.
    apply in_map_iff in Hx. destruct Hx as (y & <- & _).
    destruct (String.eqb (CronRun.ID y) (CronRun.ID r)
              && String.eqb (CronRun.Status y) StatusQueued) eqn:Hy.
    - cbn. apply andb_false_r.
    - exact Hy. }
  unfold claimUpdate at 1. unfold updateRunsWhere. f_equal.
  - rewrite (map_ext_in _ (λ x, x)), map_id; [apply store_eta|].
    intros x Hx. rewrite (Hnone x Hx). reflexivity.
  - rewrite filter_none_length; [reflexivity|].
    intros x Hx. rewrite (Hnone x Hx). discriminate.
Qed.

End ClaimFacts.

Section ExecuteFacts.






(** X14.  Orphan recovery reports the number of rows that were [running],
    leaves no row [running], and done again it affects no row and changes
    nothing. *)
Theorem recoverOrphanedRuns_idempotent (env env2 : Env) (now now2 : Z) (st : Store) :
  let st1 := (recoverOrphanedRuns env now st).1 in
  (recoverOrphanedRuns env now st).2
  = Z.of_nat (length (filter (λ r, CronRun.Status r = StatusRunning) (runs st)))
  ∧ (∀ r, In r (runs st1) → CronRun.Status r ≠ StatusRunning)
  ∧ recoverOrphanedRuns env2 now2 st1 = (st1, 0).
Proof.
  intros st1.
  assert (Hnone : ∀ r, In r (runs st1) → CronRun.Status r ≠ StatusRunning).
  { intros r Hr. subst st1. rewrite recoverOrphanedRuns_store in Hr. cbn [runs] in Hr.
    apply in_map_iff in Hr. destruct Hr as (x & <- & _).
    unfold recoveredRow.
    destruct (String.eqb_spec (CronRun.Status x) StatusRunning); [discriminate|assumption]. }
  split; [|split; [exact Hnone|]].
  - unfold recoverOrphanedRuns, updateRunsWhere. cbn [snd]. f_equal.
    induction (runs st) as [|r l IH]; [reflexivity|].
    rewrite !filter_cons.
    destruct (String.eqb_spec (CronRun.Status r) StatusRunning) as [Heq|Hne].
    + rewrite !decide_True by (reflexivity || exact Heq). cbn [length]. rewrite IH. reflexivity.
    + rewrite !decide_False by (discriminate || exact Hne). exact IH.
  - unfold recoverOrphanedRuns, updateRunsWhere. f_equal.
    + rewrite (map_ext_in _ (λ x, x)), map_id; [apply store_eta|].
      intros x Hx.
      destruct (String.eqb_spec (CronRun.Status x) StatusRunning) as [Heq|_]; [|reflexivity].
      exfalso. exact (Hnone x Hx Heq).
    + rewrite filter_none_length; [reflexivity|].
      intros x Hx Heq. apply String.eqb_eq in Heq. exact (Hnone x Hx Heq).
Qed.

End ExecuteFacts.

Section DrainFacts.












End DrainFacts.

(** ** Truncation and the model name *)

Section MiscFacts.

Lemma substring_prefix (n : nat) :
  ∀ s : string, ∃ rest, s = substring 0 n s +:+ rest.
Proof.
  induction n as [|n IH]; intros s.
  - exists s. destruct s; reflexivity.
  - destruct s as [|c r]; [exists ""; reflexivity|].
    destruct (IH r) as [rest Hrest]. exists rest.
    change (String c r = String c (substring 0 n r +:+ rest)).
    f_equal. exact Hrest.
Qed.

Lemma append_empty_r (s : string) : s +:+ "" = s.
Proof.
  induction s as [|c r IH]; [reflexivity|].
  change (String c (r +:+ "") = String c r). f_equal. exact IH.
Qed.

(** X16.  What truncateString returns is a prefix of its argument; with a
    positive maximum it has the smaller of the two byte lengths, with a
    maximum of zero or less it is the argument; truncating twice is
    truncating once. *)
Theorem truncateString_prefix (s : string) (max : Z) :
  (∃ rest, s = truncateString s max +:+ rest)
  ∧ Z.of_nat (String.length (truncateString s max))
    = (if max <=? 0 then Z.of_nat (String.length s)
       else Z.min (Z.of_nat (String.length s)) max)
  ∧ truncateString (truncateString s max) max = truncateString s max.
Proof.
  split; [|split; [|apply truncateString_idem]].
  - unfold truncateString.
    destruct ((max <=? 0) || (Z.of_nat (String.length s) <=? max)).
    + exists "". symmetry. apply append_empty_r.
    + apply substring_prefix.
  - destruct (Z.leb_spec max 0) as [Hle|Hpos].
    + unfold truncateString. destruct (Z.leb_spec max 0); [reflexivity|lia].
    + destruct (Z.le_gt_cases (Z.of_nat (String.length s)) max) as [Hshort|Hlong].
      * rewrite truncateString_short by exact Hshort. lia.
      * destruct (truncateString_long s max ltac:(lia)) as [_ ->]. lia.
Qed.

Lemma TrimSpace_empty : TrimSpace "" = "".
Proof. reflexivity. Qed.

(** X17.  The model name handed to the runner by a scheduler that [New]
    accepted is never the empty text: it is the job's override, trimmed,
    when the job has one that is not blank, and the scheduler's default
    model when the job has none or a blank one. *)
Theorem resolveModel_not_empty (model : string) (c : Config) (s : Scheduler.t)
  (job : CronJob.t) :
  New model c = Some s →
  resolveModel s job ≠ ""
  ∧ (∀ m, CronJob.Model job = Some m → TrimSpace m ≠ "" →
          resolveModel s job = TrimSpace m)
  ∧ (CronJob.Model job = None ∨ (∃ m, CronJob.Model job = Some m ∧ TrimSpace m = "") →
     resolveModel s job = model).
Proof.
  unfold New. destruct (String.eqb_spec (TrimSpace model) "") as [|Hmodel]; [discriminate|].
  intros H. inversion H; subst s; clear H.
  unfold resolveModel. cbn [defaultModel].
  assert (Hne : model ≠ "") by (intros ->; apply Hmodel; reflexivity).
  destruct (CronJob.Model job) as [m|].
  - destruct (String.eqb_spec (TrimSpace m) "") as [Hblank|Hm]; cbn [negb].
    + split; [exact Hne|]. split; [|reflexivity].
      intros m' Hm' Hnb. inversion Hm'; subst m'. contradiction.
    + split; [exact Hm|]. split.
      * intros m' Hm' _. inversion Hm'; subst m'. reflexivity.
      * intros [Hnone|(m' & Hm' & Hblank)]; [discriminate|].
        inversion Hm'; subst m'. contradiction.
  - split; [exact Hne|]. split; [discriminate|reflexivity].
Qed.

Lemma resolveModel_not_empty_witness :
  New "default-model" sampleConfig = Some sampleScheduler
  ∧ CronJob.Model jobTimeout90 = Some " small-model "
  ∧ resolveModel sampleScheduler jobTimeout90 = "small-model"
  ∧ resolveModel sampleScheduler jobInterval = "default-model".
Proof.
  split; [reflexivity|]. split; [reflexivity|].
  destruct (resolveModel_not_empty "default-model" sampleConfig sampleScheduler jobTimeout90
              eq_refl) as (_ & Hover & _).
  split; [apply (Hover " small-model " eq_refl); discriminate|reflexivity].
Defined.

End MiscFacts.

(** ** The schedule_job tool *)

Section ToolFacts.

Lemma TrimRightSpace_prefix (s : string) : ∃ rest, s = TrimRightSpace s +:+ rest.
Proof.
  induction s as [|c r IH]; [exists ""; reflexivity|].
  cbn [TrimRightSpace]. destruct (allSpace (String c r)).
  - exists (String c r). reflexivity.
  - destruct IH as [rest Hrest]. exists rest. rewrite append_cons. f_equal. exact Hrest.
Qed.

Lemma TrimSpace_head (s : string) : spaceWidth (TrimSpace s) = 0%nat.
Proof.
  unfold TrimSpace.
  pose proof (TrimLeftSpace_head s) as Hhead.
  destruct (TrimRightSpace_prefix (TrimLeftSpace s)) as [rest Hrest].
  destruct (Nat.eq_dec (spaceWidth (TrimRightSpace (TrimLeftSpace s))) 0%nat) as [|Hne]; [assumption|].
  pose proof (spaceWidth_prefix _ rest Hne) as Hp.
  rewrite <- Hrest in Hp. congruence.
Qed.

(** Trimming a trimmed text that is not empty does not empty it. *)
Lemma TrimSpace_nonblank (s : string) :
  TrimSpace s ≠ "" → TrimSpace (TrimSpace s) ≠ "".
Proof.
  intros Hne. pose proof (TrimSpace_head s) as Hhead.
  destruct (TrimSpace s) as [|c r] eqn:Ht; [contradiction|].
  unfold TrimSpace at 1, TrimLeftSpace. cbn [String.length trimLeftN].
  rewrite Hhead. cbn [TrimRightSpace].
  assert (Hall : allSpace (String c r) = false).
  { unfold allSpace. cbn [String.length allSpaceN]. rewrite Hhead. reflexivity. }
  rewrite Hall. discriminate.
Qed.

(** A call that fails writes nothing. *)
Lemma scheduleJob_failed (env : Env) (p : jobParams) (st : Store) (e : toolError) :
  (scheduleJob env p st).2 = inl e → (scheduleJob env p st).1 = st.
Proof.
  unfold scheduleJob. cbv zeta.
  destruct (String.eqb (TrimSpace (pName p)) ""); [reflexivity|].
  destruct (String.eqb (TrimSpace (pTask p)) ""); [reflexivity|].
  destruct (_ && _)%bool; [reflexivity|].
  destruct (_ && _)%bool; [reflexivity|].
  destruct (find _ (jobs st)) as [found|]; [discriminate|].
  destruct (existsb _ (jobs st)); [reflexivity|discriminate].
Qed.

(** X18.  The checks of schedule_job, in their order: a blank name, a blank
    task, neither a schedule nor a positive interval, both of them.  The
    call fails with the first check that applies, and a call that fails
    (these four, or a storage error) leaves the store as it was. *)
Theorem scheduleJob_checks (env : Env) (p : jobParams) (st : Store) :
  let res := (scheduleJob env p st).2 in
  (∀ e, res = inl e → (scheduleJob env p st).1 = st)
  ∧ (res = inl ToolMissingName ↔ TrimSpace (pName p) = "")
  ∧ (res = inl ToolMissingTask
     ↔ TrimSpace (pName p) ≠ "" ∧ TrimSpace (pTask p) = "")
  ∧ (res = inl ToolMissingSchedule
     ↔ TrimSpace (pName p) ≠ "" ∧ TrimSpace (pTask p) ≠ ""
       ∧ TrimSpace (pSchedule p) = "" ∧ pIntervalSeconds p ≤ 0)
  ∧ (res = inl ToolBothSchedules
     ↔ TrimSpace (pName p) ≠ "" ∧ TrimSpace (pTask p) ≠ ""
       ∧ TrimSpace (pSchedule p) ≠ "" ∧ 0 < pIntervalSeconds p).
Proof.
  intros res. subst res.
  split; [intros e; apply scheduleJob_failed|].
  unfold scheduleJob. cbv zeta.
  destruct (String.eqb_spec (TrimSpace (pName p)) "") as [Hn|Hn].
  { cbn [fst snd]. repeat split; intros; try discriminate; try tauto. }
  destruct (String.eqb_spec (TrimSpace (pTask p)) "") as [Ht|Ht].
  { cbn [fst snd]. repeat split; intros; try discriminate; try tauto. }
  destruct (String.eqb_spec (TrimSpace (pSchedule p)) "") as [Hs|Hs];
    destruct (Z.leb_spec (pIntervalSeconds p) 0) as [Hi|Hi];
    destruct (Z.ltb_spec 0 (pIntervalSeconds p)) as [Hi'|Hi']; try lia;
    cbn [andb negb fst snd].
  1: { repeat split; intros; try discriminate; try tauto; try lia. }
  3: { repeat split; intros; try discriminate; try tauto; try lia. }
  all: destruct (find _ (jobs st)) as [found|];
    [|destruct (existsb _ (jobs st))]; cbn [fst snd];
    repeat split; intros; try discriminate; try tauto; try lia.
Qed.

Lemma setJobFields_oneSchedule (p : jobParams) (j : CronJob.t) :
  TrimSpace (pSchedule p) = "" ∧ 0 < pIntervalSeconds p
  ∨ TrimSpace (pSchedule p) ≠ "" ∧ pIntervalSeconds p ≤ 0 →
  oneSchedule (setJobFields p j) ∧ CronJob.ID (setJobFields p j) = CronJob.ID j.
Proof.
  intros Hcase. split; [|reflexivity]. unfold oneSchedule, setJobFields. cbn.
  destruct Hcase as [[Hs Hi]|[Hs Hi]].
  - right. rewrite Hs. cbn. exists (pIntervalSeconds p). auto.
  - left. destruct (String.eqb_spec (TrimSpace (pSchedule p)) ""); [contradiction|].
    cbn. exists (TrimSpace (pSchedule p)).
    split; [reflexivity|]. split; [apply TrimSpace_nonblank; assumption|reflexivity].
Qed.

Lemma oneSchedule_resolves (j : CronJob.t) (now : Z) :
  oneSchedule j → nextRunAt j now ≠ Err ErrNoSchedule.
Proof.
  intros [(sched & Hs & Hne & _)|(iv & Hs & Hi & Hpos)].
  - rewrite (nextRunAt_cron j sched now Hs) by (apply String.eqb_neq; exact Hne).
    unfold cronNextUnix.
    destruct (Cron.parseCronExpr sched) as [e|err] eqn:Hp.
    + destruct (next_cases e (Unix now 0)) as [(t & Hn & _)|[Hn _]]; rewrite Hn; discriminate.
    + intros Heq. inversion Heq; subst err.
      unfold Cron.parseCronExpr in Hp.
      destruct (Fields _) as [|f0 [|f1 [|f2 [|f3 [|f4 [|f5 l]]]]]]; try discriminate.
      destruct (Cron.parseField f0 0 59); [|discriminate].
      destruct (Cron.parseField f1 0 23); [|discriminate].
      destruct (Cron.parseFieldWithAny f2 1 31) as [[? ?]|]; [|discriminate].
      destruct (Cron.parseField f3 1 12); [|discriminate].
      destruct (Cron.parseFieldWithAny f4 0 6) as [[? ?]|]; discriminate.
  - assert (Hset : scheduleSet j = false) by (unfold scheduleSet; rewrite Hs; reflexivity).
    rewrite (nextRunAt_no_cron j now Hset), Hi.
    destruct (Z.ltb_spec 0 iv); [discriminate|lia].
Qed.

Lemma overlap_default (s : string) :
  (if String.eqb (TrimSpace s) "" then "forbid" else TrimSpace s) ≠ "".
Proof. destruct (String.eqb_spec (TrimSpace s) ""); [discriminate|assumption]. Qed.

(** What Execute does once its four checks have passed. *)
Lemma scheduleJob_checked (env : Env) (p : jobParams) (st : Store) (row : CronJob.t) :
  (scheduleJob env p st).2 = inr row →
  TrimSpace (pName p) ≠ "" ∧ TrimSpace (pTask p) ≠ ""
  ∧ (TrimSpace (pSchedule p) = "" ∧ 0 < pIntervalSeconds p
     ∨ TrimSpace (pSchedule p) ≠ "" ∧ pIntervalSeconds p ≤ 0)
  ∧ match find (λ j, String.eqb (CronJob.Name j) (TrimSpace (pName p))) (jobs st) with
    | None =>
        row = createdJob env (setJobFields p zeroJob)
        ∧ existsb (λ j, String.eqb (CronJob.ID j) (CronJob.ID row)) (jobs st) = false
        ∧ (scheduleJob env p st).1 = mkStore (jobs st ++ [row]) (runs st)
    | Some found =>
        row = assignJob [ColNextRunAt None; ColJobUpdatedAt (dbNow env)]
                (setJobFields p found)
        ∧ (scheduleJob env p st).1
          = mkStore (map (λ j, if String.eqb (CronJob.ID j) (CronJob.ID found)
                               then row else j) (jobs st)) (runs st)
    end.
Proof.
  unfold scheduleJob. cbv zeta.
  destruct (String.eqb_spec (TrimSpace (pName p)) "") as [Hn|Hn]; [discriminate|].
  destruct (String.eqb_spec (TrimSpace (pTask p)) "") as [Ht|Ht]; [discriminate|].
  destruct (String.eqb_spec (TrimSpace (pSchedule p)) "") as [Hs|Hs];
    destruct (Z.leb_spec (pIntervalSeconds p) 0) as [Hi|Hi];
    destruct (Z.ltb_spec 0 (pIntervalSeconds p)) as [Hi'|Hi']; try lia;
    cbn [andb negb]; try discriminate.
  all: destruct (find _ (jobs st)) as [found|].
  all: try (destruct (existsb _ (jobs st)) eqn:Hdup; [discriminate|]).
  all: cbn [fst snd]; intros Hrow; inversion Hrow; subst row; clear Hrow.
  all: split; [assumption|]; split; [assumption|]; split; [auto|].
  all: try (split; [reflexivity|reflexivity]).
  all: split; [reflexivity|]; split; [exact Hdup|reflexivity].
Qed.

Lemma find_name_some (name : string) (l : list CronJob.t) (found : CronJob.t) :
  find (λ j, String.eqb (CronJob.Name j) name) l = Some found →
  In found l ∧ CronJob.Name found = name.
Proof.
  intros Hf. destruct (find_some _ _ Hf) as [Hin Hb].
  split; [exact Hin|]. apply String.eqb_eq. exact Hb.
Qed.

Lemma find_name_none (name : string) (l : list CronJob.t) :
  find (λ j, String.eqb (CronJob.Name j) name) l = None →
  ¬ In name (map CronJob.Name l).
Proof.
  intros Hf Hin. apply in_map_iff in Hin. destruct Hin as (j & Hj & Hin).
  pose proof (find_none _ _ Hf j Hin) as Hb. cbn in Hb.
  rewrite Hj, String.eqb_refl in Hb. discriminate.
Qed.

Lemma existsb_id_none (id : string) (l : list CronJob.t) :
  existsb (λ j, String.eqb (CronJob.ID j) id) l = false →
  ¬ In id (map CronJob.ID l).
Proof.
  intros Hex Hin. apply in_map_iff in Hin. destruct Hin as (j & Hj & Hin).
  assert (Htrue : existsb (λ j, String.eqb (CronJob.ID j) id) l = true).
  { apply existsb_exists. exists j. split; [exact Hin|]. rewrite Hj. apply String.eqb_refl. }
  congruence.
Qed.

(** X19.  A call of schedule_job that succeeds writes one job row and no
    run.  The row has the trimmed name and task, neither of them empty,
    exactly one kind of schedule (a non-blank expression and no interval,
    or a positive interval and no expression), so that the schedule
    resolver never reports a job without schedule for it, a null
    [next_run_at], which the next tick fills, and an overlap policy.
    When no row had the name, the row is appended under a new id;
    otherwise it takes the place of the row of that name, with its id and
    creation time, and every row of another id stays as it was. *)
Theorem scheduleJob_writes (env : Env) (p : jobParams) (st : Store) (row : CronJob.t) :
  (scheduleJob env p st).2 = inr row →
  let st' := (scheduleJob env p st).1 in
  runs st' = runs st
  ∧ In row (jobs st')
  ∧ CronJob.Name row = TrimSpace (pName p) ∧ CronJob.Name row ≠ ""
  ∧ CronJob.Task row = TrimSpace (pTask p) ∧ CronJob.Task row ≠ ""
  ∧ oneSchedule row
  ∧ (∀ now, nextRunAt row now ≠ Err ErrNoSchedule)
  ∧ CronJob.NextRunAt row = None
  ∧ CronJob.OverlapPolicy row ≠ ""
  ∧ ((¬ In (CronJob.Name row) (map CronJob.Name (jobs st))
      ∧ jobs st' = jobs st ++ [row]
      ∧ CronJob.ID row = uuid env)
     ∨ (∃ found, In found (jobs st)
          ∧ CronJob.Name found = CronJob.Name row
          ∧ CronJob.ID row = CronJob.ID found
          ∧ CronJob.CreatedAt row = CronJob.CreatedAt found
          ∧ CronJob.LastRunAt row = CronJob.LastRunAt found
          ∧ length (jobs st') = length (jobs st)
          ∧ (∀ j, In j (jobs st') → CronJob.ID j = CronJob.ID found → j = row)
          ∧ (∀ j, CronJob.ID j ≠ CronJob.ID found → In j (jobs st') ↔ In j (jobs st)))).
Proof.
  intros Hres st'. subst st'.
  destruct (scheduleJob_checked env p st row Hres) as (Hn & Ht & Hcase & Hpath).
  destruct (find _ (jobs st)) as [found|] eqn:Hfind.
  - destruct Hpath as [Hrow Hst]. rewrite Hst. cbn [jobs runs].
    destruct (find_name_some _ _ _ Hfind) as [Hin Hname].
    destruct (setJobFields_oneSchedule p found Hcase) as [Hone _].
    assert (Hone' : oneSchedule row).
    { subst row. destruct Hone as [(s0 & ? & ? & ?)|(iv & ? & ? & ?)];
        [left; exists s0|right; exists iv]; cbn; auto. }
    split; [reflexivity|].
    split; [apply in_map_iff; exists found; split;
            [rewrite String.eqb_refl; reflexivity|exact Hin]|].
    split; [subst row; reflexivity|]. split; [subst row; exact Hn|].
    split; [subst row; reflexivity|]. split; [subst row; exact Ht|].
    split; [exact Hone'|].
    split; [intros now; apply oneSchedule_resolves; exact Hone'|].
    split; [subst row; reflexivity|].
    split; [subst row; apply overlap_default|].
    right. exists found.
    split; [exact Hin|]. split; [subst row; exact Hname|].
    split; [subst row; reflexivity|]. split; [subst row; reflexivity|].
    split; [subst row; reflexivity|]. split; [apply length_map|].
    split.
    + intros j Hj Hjid. apply in_map_iff in Hj. destruct Hj as (x & Hx & _).
      destruct (String.eqb_spec (CronJob.ID x) (CronJob.ID found)) as [_|Hne];
        [symmetry; exact Hx|subst j; contradiction].
    + intros j Hjid. rewrite in_map_iff. split.
      * intros (x & Hx & Hxin).
        destruct (String.eqb_spec (CronJob.ID x) (CronJob.ID found)) as [_|Hne];
          [|subst j; exact Hxin].
        exfalso. apply Hjid. rewrite <- Hx, Hrow. reflexivity.
      * intros Hjin. exists j. split; [|exact Hjin].
        destruct (String.eqb_spec (CronJob.ID j) (CronJob.ID found)); [contradiction|reflexivity].
  - destruct Hpath as (Hrow & Hdup & Hst). rewrite Hst. cbn [jobs runs].
    destruct (setJobFields_oneSchedule p zeroJob Hcase) as [Hone _].
    assert (Hone' : oneSchedule row).
    { subst row. destruct Hone as [(s0 & ? & ? & ?)|(iv & ? & ? & ?)];
        [left; exists s0|right; exists iv]; cbn; auto. }
    split; [reflexivity|].
    split; [apply in_or_app; right; left; reflexivity|].
    split; [subst row; reflexivity|]. split; [subst row; exact Hn|].
    split; [subst row; reflexivity|]. split; [subst row; exact Ht|].
    split; [exact Hone'|].
    split; [intros now; apply oneSchedule_resolves; exact Hone'|].
    split; [subst row; reflexivity|].
    split.
    { subst row. cbn.
      pose proof (overlap_default (pOverlapPolicy p)) as Hov.
      destruct (String.eqb_spec
                  (if String.eqb (TrimSpace (pOverlapPolicy p)) ""
                   then "forbid" else TrimSpace (pOverlapPolicy p)) "");
        [discriminate|assumption]. }
    left. split; [|split; [reflexivity|subst row; reflexivity]].
    replace (CronJob.Name row) with (TrimSpace (pName p)) by (subst row; reflexivity).
    apply find_name_none. exact Hfind.
Qed.

(** X20.  schedule_job keeps the primary key and the unique index of the
    job table: when no two rows share an id and no two rows share a name
    before the call, the same holds after it. *)
Theorem scheduleJob_keeps_keys (env : Env) (p : jobParams) (st : Store) :
  uniqueJobIDs st → uniqueJobNames st →
  uniqueJobIDs (scheduleJob env p st).1 ∧ uniqueJobNames (scheduleJob env p st).1.
Proof.
  intros Hids Hnames.
  destruct (scheduleJob env p st).2 as [e|row] eqn:Hres.
  { rewrite (scheduleJob_failed env p st e Hres). split; assumption. }
  destruct (scheduleJob_checked env p st row Hres) as (Hn & Ht & Hcase & Hpath).
  unfold uniqueJobIDs, uniqueJobNames in *.
  destruct (find _ (jobs st)) as [found|] eqn:Hfind.
  - destruct Hpath as [Hrow Hst]. rewrite Hst. cbn [jobs].
    destruct (find_name_some _ _ _ Hfind) as [Hin Hname].
    rewrite !map_map.
    assert (Hsame_id : map (λ j, CronJob.ID (if String.eqb (CronJob.ID j) (CronJob.ID found)
                                             then row else j)) (jobs st)
                       = map CronJob.ID (jobs st)).
    { apply map_ext. intros j.
      destruct (String.eqb_spec (CronJob.ID j) (CronJob.ID found)) as [Heq|]; [|reflexivity].
      rewrite Heq, Hrow. reflexivity. }
    assert (Hsame_name : map (λ j, CronJob.Name (if String.eqb (CronJob.ID j) (CronJob.ID found)
                                                 then row else j)) (jobs st)
                         = map CronJob.Name (jobs st)).
    { apply map_ext_in. intros j Hj.
      destruct (String.eqb_spec (CronJob.ID j) (CronJob.ID found)) as [Heq|]; [|reflexivity].
      rewrite (NoDup_IDs_eq (jobs st) j found Hids Hj Hin Heq), Hname, Hrow. reflexivity. }
    rewrite Hsame_id, Hsame_name. split; assumption.
  - destruct Hpath as (Hrow & Hdup & Hst). rewrite Hst. cbn [jobs].
    rewrite !map_app. cbn [map].
    split; apply NoDup_app; (split; [assumption|]).
    + split; [|apply NoDup_singleton].
      intros x Hx Hx'. apply list_elem_of_In in Hx.
      apply list_elem_of_singleton in Hx'. subst x.
      exact (existsb_id_none _ _ Hdup Hx).
    + split; [|apply NoDup_singleton].
      intros x Hx Hx'. apply list_elem_of_In in Hx.
      apply list_elem_of_singleton in Hx'. subst x.
      apply (find_name_none _ _ Hfind).
      replace (TrimSpace (pName p)) with (CronJob.Name row) by (subst row; reflexivity).
      exact Hx.
Qed.

Lemma scheduleJob_writes_witness :
  let row := createdJob sampleEnv (setJobFields sampleParams zeroJob) in
  CronJob.Name row = "nightly"
  ∧ CronJob.Schedule row = Some "0 3 * * *"
  ∧ In row (jobs (scheduleJob sampleEnv sampleParams sampleStore).1)
  ∧ oneSchedule row.
Proof.
  pose proof (scheduleJob_writes sampleEnv sampleParams sampleStore
                (createdJob sampleEnv (setJobFields sampleParams zeroJob))) as H.
  destruct H as (_ & Hin & _ & _ & _ & _ & Hone & _); [reflexivity|].
  split; [reflexivity|]. split; [reflexivity|]. split; [exact Hin|exact Hone].
Defined.

Lemma scheduleJob_keeps_keys_witness :
  uniqueJobIDs (scheduleJob sampleEnv sampleParams sampleStore).1
  ∧ uniqueJobNames (scheduleJob sampleEnv sampleParams sampleStore).1.
Proof.
  apply (scheduleJob_keeps_keys sampleEnv sampleParams sampleStore).
  - unfold uniqueJobIDs. cbn. apply NoDup_singleton.
  - unfold uniqueJobNames. cbn. apply NoDup_singleton.
Defined.

(** X21.  The parameter [enabled] takes effect only on a job that exists.
    The row of a new job is written with [enabled] true whatever the
    request says, because the column has a default and [Create] writes
    the default in place of a false value; the row of a job that existed
    is written with the value requested. *)
Theorem scheduleJob_enabled (env : Env) (p : jobParams) (st : Store) (row : CronJob.t) :
  (scheduleJob env p st).2 = inr row →
  (¬ In (TrimSpace (pName p)) (map CronJob.Name (jobs st)) → CronJob.Enabled row = true)
  ∧ (In (TrimSpace (pName p)) (map CronJob.Name (jobs st)) →
     CronJob.Enabled row = requestedEnabled p).
Proof.
  intros Hres.
  destruct (scheduleJob_checked env p st row Hres) as (_ & _ & _ & Hpath).
  destruct (find _ (jobs st)) as [found|] eqn:Hfind.
  - destruct Hpath as [Hrow _].
    destruct (find_name_some _ _ _ Hfind) as [Hin Hname].
    split.
    + intros Hnot. exfalso. apply Hnot. rewrite <- Hname. apply in_map, Hin.
    + intros _. subst row. reflexivity.
  - destruct Hpath as (Hrow & _ & _).
    split.
    + intros _. subst row. cbn. destruct (pEnabled p) as [[|]|]; reflexivity.
    + intros Hin. exfalso. exact (find_name_none _ _ Hfind Hin).
Qed.

Lemma scheduleJob_enabled_witness :
  pEnabled sampleParamsOff = Some false
  ∧ CronJob.Enabled (createdJob sampleEnv (setJobFields sampleParamsOff zeroJob)) = true.
Proof.
  split; [reflexivity|].
  apply (scheduleJob_enabled sampleEnv sampleParamsOff sampleStore
           (createdJob sampleEnv (setJobFields sampleParamsOff zeroJob))).
  - reflexivity.
  - cbn. intros [H|[]]. discriminate H.
Defined.

End ToolFacts.

(** ** Construction and start *)

Section StartFacts.

Lemma workerIDs_spawn (n : Z) :
  workerIDs (spawnWorkers n) = map (λ i, Z.of_nat i + 1) (seq 0 (Z.to_nat n)).
Proof.
  unfold workerIDs, spawnWorkers.
  induction (seq 0 (Z.to_nat n)) as [|i l IH]; [reflexivity|].
  cbn. f_equal. exact IH.
Qed.

Lemma workerIDs_app (a b : list action) :
  workerIDs (a ++ b) = workerIDs a ++ workerIDs b.
Proof. unfold workerIDs. apply omap_app. Qed.

Lemma scheduleLoops_spawn (n : Z) : scheduleLoops (spawnWorkers n) = 0%nat.
Proof.
  unfold scheduleLoops, spawnWorkers.
  induction (seq 0 (Z.to_nat n)) as [|i l IH]; [reflexivity|].
  cbn [map]. rewrite filter_cons_False by discriminate. exact IH.
Qed.

(** X22.  [New] refuses a blank default model and nothing else of what it
    is given here; the scheduler it makes keeps the [Enabled] flag and has
    a positive concurrency, the one configured or 1.  [Start] of that
    scheduler does nothing at all when it is disabled; when it is enabled
    it starts one schedule loop and one worker loop for each id from 1 to
    the concurrency, in that order. *)
Theorem New_Start_workers (model : string) (c : Config) (env : Env)
  (nowRecover nowReconcile : Z) (st : Store) :
  (New model c = None ↔ TrimSpace model = "")
  ∧ ∀ s, New model c = Some s →
      let n := Z.max 1 (Concurrency c) in
      let started := (Start s env nowRecover nowReconcile st).2 in
      defaultModel s = model
      ∧ Enabled (cfg s) = Enabled c
      ∧ Concurrency (cfg s) = n
      ∧ (Enabled c = false → Start s env nowRecover nowReconcile st = (st, []))
      ∧ (Enabled c = true →
         workerIDs started = map (λ i, Z.of_nat i + 1) (seq 0 (Z.to_nat n))
         ∧ length (workerIDs started) = Z.to_nat n
         ∧ NoDup (workerIDs started)
         ∧ scheduleLoops started = 1%nat).
Proof.
  split.
  { unfold New. destruct (String.eqb_spec (TrimSpace model) ""); split; intros H;
      try discriminate; try reflexivity; try assumption; contradiction. }
  intros s Hnew n started. subst n started.
  assert (Hs : defaultModel s = model ∧ Enabled (cfg s) = Enabled c
               ∧ Concurrency (cfg s) = Z.max 1 (Concurrency c)).
  { unfold New in Hnew. destruct (String.eqb (TrimSpace model) ""); [discriminate|].
    inversion Hnew; subst s; clear Hnew. cbn [cfg defaultModel].
    destruct c as [en conc tick maxE maxS]. cbn.
    repeat match goal with
           | |- context [?x <=? 0] => destruct (Z.leb_spec x 0); cbn in *
           end.
    all: repeat split; lia. }
  destruct Hs as (Hm & Hen & Hconc).
  split; [exact Hm|]. split; [exact Hen|]. split; [exact Hconc|].
  unfold Start. rewrite Hen, Hconc.
  split.
  - intros Hoff. rewrite Hoff. reflexivity.
  - intros Hon. rewrite Hon. cbn [negb snd].
    assert (Hids : workerIDs
                     ([ActRecoverOrphanedRuns; ActReconcileNextRunAt; ActGoScheduleLoop]
                      ++ spawnWorkers (Z.max 1 (Concurrency c)) ++ [ActWakeWorkers])
                   = map (λ i, Z.of_nat i + 1) (seq 0 (Z.to_nat (Z.max 1 (Concurrency c))))).
    { rewrite !workerIDs_app, workerIDs_spawn. cbn. apply app_nil_r. }
    rewrite Hids.
    split; [reflexivity|].
    split; [rewrite length_map, length_seq; reflexivity|].
    split.
    + apply NoDup_fmap_2; [intros i j Hij; lia|]. apply NoDup_ListNoDup, seq_NoDup.
    + unfold scheduleLoops.
      change ([ActRecoverOrphanedRuns; ActReconcileNextRunAt; ActGoScheduleLoop]
              ++ spawnWorkers (Z.max 1 (Concurrency c)) ++ [ActWakeWorkers])
        with (ActRecoverOrphanedRuns :: ActReconcileNextRunAt :: ActGoScheduleLoop
              :: (spawnWorkers (Z.max 1 (Concurrency c)) ++ [ActWakeWorkers])).
      rewrite filter_cons_False by discriminate.
      rewrite filter_cons_False by discriminate.
      rewrite filter_cons_True by reflexivity.
      rewrite filter_app. cbn [length]. rewrite length_app.
      pose proof (scheduleLoops_spawn (Z.max 1 (Concurrency c))) as H0.
      unfold scheduleLoops in H0. rewrite H0.
      rewrite filter_cons_False by discriminate. reflexivity.
Qed.

Lemma New_Start_workers_witness :
  New "default-model" sampleConfig = Some sampleScheduler
  ∧ workerIDs (Start sampleScheduler sampleEnv 500 501 sampleStore).2 = [1; 2].
Proof.
  split; [reflexivity|].
  destruct (New_Start_workers "default-model" sampleConfig sampleEnv 500 501 sampleStore)
    as [_ H].
  destruct (H sampleScheduler eq_refl) as (_ & _ & _ & _ & Hon).
  destruct (Hon eq_refl) as [Hids _]. exact Hids.
Defined.

End StartFacts.

(** ** The unschedule_job tool and the jobs it disables *)

Section UnscheduleFacts.

Lemma lookupJob_some (jobID name : string) (st : Store) (job : CronJob.t) :
  lookupJob jobID name st = Some job →
  In job (jobs st)
  ∧ (jobID ≠ "" → CronJob.ID job = jobID)
  ∧ (jobID = "" → CronJob.Name job = name).
Proof.
  unfold lookupJob.
  destruct (String.eqb_spec jobID "") as [He|Hne]; cbn [negb]; intros Hf.
  - destruct (find_name_some _ _ _ Hf) as [Hin Hn].
    split; [exact Hin|]. split; [contradiction|auto].
  - pose proof (find_id _ _ _ Hf) as Hid. destruct (find_some _ _ Hf) as [Hin _].
    split; [exact Hin|]. split; [auto|contradiction].
Qed.

Lemma disabled_columns (env : Env) (j : CronJob.t) :
  let j' := assignJob ([ColEnabled false; ColNextRunAt None] ++ [ColJobUpdatedAt (dbNow env)]) j in
  CronJob.Enabled j' = false ∧ CronJob.NextRunAt j' = None ∧ CronJob.ID j' = CronJob.ID j.
Proof. cbn. auto. Qed.

(** X23.  unschedule_job.  A call that fails writes nothing.  A call that
    succeeds names a row of the job table, the one of the id asked for
    when an id is given (the name is then not looked at) and the one of
    the name asked for otherwise.  In the mode [disable], which is also
    the mode of a blank request, the rows of that id are written with
    [enabled] false and a null [next_run_at], no other row and no run
    changes, and no later call of enqueueJobIfDue for the job queues or
    changes anything.  In the mode [delete] the rows of that id leave the
    table and every other row stays; no run of another job is lost. *)
Theorem unscheduleJob_effect (env : Env) (fk : bool) (p : unscheduleParams) (st : Store) :
  let st' := (unscheduleJob env fk p st).1 in
  let res := (unscheduleJob env fk p st).2 in
  (∀ e, res = inl e → st' = st)
  ∧ ∀ out, res = inr out →
      (outMode out = "disable" ∨ outMode out = "delete")
      ∧ (∃ job, In job (jobs st)
           ∧ CronJob.ID job = outJobID out ∧ CronJob.Name job = outName out
           ∧ (TrimSpace (uJobID p) ≠ "" → CronJob.ID job = TrimSpace (uJobID p))
           ∧ (TrimSpace (uJobID p) = "" → CronJob.Name job = TrimSpace (uName p)))
      ∧ (outMode out = "disable" →
           runs st' = runs st
           ∧ length (jobs st') = length (jobs st)
           ∧ (∀ j, In j (jobs st') → CronJob.ID j = outJobID out →
                   CronJob.Enabled j = false ∧ CronJob.NextRunAt j = None)
           ∧ (∀ j, CronJob.ID j ≠ outJobID out → In j (jobs st') ↔ In j (jobs st))
           ∧ ∀ env2 now, enqueueJobIfDue env2 (outJobID out) now st' = (st', Ok false))
      ∧ (outMode out = "delete" →
           (∀ j, In j (jobs st') ↔ In j (jobs st) ∧ CronJob.ID j ≠ outJobID out)
           ∧ (∀ r, In r (runs st') → In r (runs st))
           ∧ (∀ r, In r (runs st) → CronRun.JobID r ≠ outJobID out → In r (runs st'))).
Proof.
  intros st' res. subst st' res. unfold unscheduleJob. cbv zeta.
  destruct (_ && _)%bool; [cbn [fst snd]; split; [reflexivity|discriminate]|].
  set (mode := if String.eqb (ToLower (TrimSpace (uMode p))) ""
               then "disable" else ToLower (TrimSpace (uMode p))).
  destruct (String.eqb_spec mode "disable") as [Hdis|Hdis]; cbn [negb andb].
  2: destruct (String.eqb_spec mode "delete") as [Hdel|Hdel]; cbn [negb].
  3: { cbn [fst snd]. split; [reflexivity|discriminate]. }
  all: destruct (lookupJob _ _ st) as [job|] eqn:Hlook;
    [|cbn [fst snd]; split; [reflexivity|discriminate]].
  all: destruct (lookupJob_some _ _ _ _ Hlook) as (Hin & Hbyid & Hbyname).
  - (* disable *)
    rewrite Hdis. cbn [String.eqb Ascii.eqb Bool.eqb fst snd].
    split; [discriminate|].
    intros out Hout. inversion Hout; subst out; clear Hout. cbn [outMode outJobID outName].
    split; [left; reflexivity|].
    split; [exists job; auto|].
    split; [|discriminate].
    intros _. unfold updateJobsWhereID. cbn [jobs runs].
    split; [reflexivity|]. split; [apply length_map|].
    split.
    { intros j Hj Hid. apply in_map_iff in Hj. destruct Hj as (x & Hx & _).
      destruct (String.eqb_spec (CronJob.ID x) (CronJob.ID job)) as [_|Hne].
      - subst j. cbn. auto.
      - subst j. contradiction. }
    split.
    { intros j Hid. rewrite in_map_iff. split.
      - intros (x & Hx & Hxin).
        destruct (String.eqb_spec (CronJob.ID x) (CronJob.ID job)) as [Heq|Hne];
          [|subst j; exact Hxin].
        exfalso. apply Hid. rewrite <- Hx, assignJob_ID. exact Heq.
      - intros Hjin. exists j. split; [|exact Hjin].
        destruct (String.eqb_spec (CronJob.ID j) (CronJob.ID job)); [contradiction|reflexivity]. }
    intros env2 now.
    assert (Hfind : ∃ x, find (λ j, String.eqb (CronJob.ID j) (CronJob.ID job)) (jobs st) = Some x).
    { destruct (find _ (jobs st)) as [x|] eqn:Hf; [eauto|].
      pose proof (find_none _ _ Hf job Hin) as Hb. cbn in Hb.
      rewrite String.eqb_refl in Hb. discriminate. }
    destruct Hfind as [x Hx].
    apply (enqueue_not_due env2 (CronJob.ID job) now _
             (assignJob ([ColEnabled false; ColNextRunAt None] ++ [ColJobUpdatedAt (dbNow env)]) x)).
    + cbn [jobs]. rewrite (find_map_id (CronJob.ID job) _ (jobs st) (assignJob_ID _)), Hx.
      reflexivity.
    + left. reflexivity.
  - (* delete *)
    rewrite Hdel. cbn [String.eqb Ascii.eqb Bool.eqb fst snd].
    split; [discriminate|].
    intros out Hout. inversion Hout; subst out; clear Hout. cbn [outMode outJobID outName].
    split; [right; reflexivity|].
    split; [exists job; auto|].
    split; [discriminate|].
    intros _. unfold deleteJob. cbn [jobs runs].
    split.
    { intros j. rewrite <- !list_elem_of_In, list_elem_of_filter.
      destruct (String.eqb_spec (CronJob.ID j) (CronJob.ID job)); split;
        intros [H1 H2]; try discriminate; try contradiction; auto. }
    destruct fk.
    + split.
      * intros r Hr. apply list_elem_of_In in Hr. apply list_elem_of_filter in Hr.
        apply list_elem_of_In. tauto.
      * intros r Hr Hne. apply list_elem_of_In, list_elem_of_filter.
        split; [|apply list_elem_of_In; exact Hr].
        destruct (String.eqb_spec (CronRun.JobID r) (CronJob.ID job)); [contradiction|reflexivity].
    + split; auto.
Qed.

Lemma unscheduleJob_effect_witness :
  (unscheduleJob sampleEnv true sampleDisable sampleStore).2
  = inr (mkUnscheduled "j1" "job" "disable")
  ∧ enqueueJobIfDue sampleEnv "j1" 1000
      (unscheduleJob sampleEnv true sampleDisable sampleStore).1
    = ((unscheduleJob sampleEnv true sampleDisable sampleStore).1, Ok false).
Proof.
  split; [reflexivity|].
  destruct (unscheduleJob_effect sampleEnv true sampleDisable sampleStore) as [_ H].
  destruct (H (mkUnscheduled "j1" "job" "disable") eq_refl) as (_ & _ & Hd & _).
  destruct (Hd eq_refl) as (_ & _ & _ & _ & Hq).
  exact (Hq sampleEnv 1000).
Defined.

(** A row of another id passes through an update by id. *)
Lemma updateJobsWhereID_other (env : Env) (id : string) (cols : list jobColumn)
  (st : Store) (j : CronJob.t) :
  CronJob.ID j ≠ id → In j (jobs st) → In j (jobs (updateJobsWhereID env id cols st)).
Proof.
  intros Hne Hin. unfold updateJobsWhereID. cbn [jobs].
  apply in_map_iff. exists j. split; [|exact Hin].
  destruct (String.eqb_spec (CronJob.ID j) id); [contradiction|reflexivity].
Qed.

Lemma reconcileMissing_fold_other (env : Env) (now : Z) (j : CronJob.t)
  (l : list CronJob.t) :
  Forall (λ job, CronJob.ID job ≠ CronJob.ID j) l →
  ∀ st, In j (jobs st) → In j (jobs (fold_left (reconcileMissingJob env now) l st)).
Proof.
  induction 1 as [|job l Hne _ IH]; intros st Hin; [exact Hin|].
  cbn [fold_left]. apply IH. unfold reconcileMissingJob.
  destruct (nextRunAt job now); apply updateJobsWhereID_other; auto.
Qed.

Lemma enqueueAll_other (envAt : nat → Env) (now : Z) (j : CronJob.t)
  (due : list CronJob.t) :
  Forall (λ job, CronJob.ID job ≠ CronJob.ID j) due →
  ∀ (i : nat) (st : Store),
    In j (jobs st) →
    In j (jobs (enqueueAll envAt i now due st))
    ∧ ∀ r, In r (runs (enqueueAll envAt i now due st)) →
           CronRun.JobID r = CronJob.ID j → In r (runs st).
Proof.
  induction 1 as [|job due Hne _ IH]; intros i st Hin; [cbn; auto|].
  cbn [enqueueAll].
  destruct (enqueue_cases (envAt i) (CronJob.ID job) now st)
    as [[Hsame _]|(jb & sf & cols & skip & Hfind & Hdue & Hcols & Heq)].
  - rewrite Hsame. apply IH. exact Hin.
  - rewrite Heq. cbn [fst].
    match goal with |- context [enqueueAll _ _ _ _ ?s] => set (st1 := s) end.
    assert (Hin1 : In j (jobs st1)).
    { subst st1. cbn [jobs]. apply in_map_iff. exists j. split; [|exact Hin].
      destruct (String.eqb_spec (CronJob.ID j) (CronJob.ID job)) as [Heq'|]; [|reflexivity].
      exfalso. apply Hne. symmetry. exact Heq'. }
    destruct (IH (S i) st1 Hin1) as [Hj Hruns].
    split; [exact Hj|].
    intros r Hr Hid. specialize (Hruns r Hr Hid).
    subst st1. cbn [runs] in Hruns. apply in_app_or in Hruns.
    destruct Hruns as [Hold|[Hnew|[]]]; [exact Hold|].
    exfalso. apply Hne. rewrite <- Hid, <- Hnew.
    pose proof (find_id _ _ _ Hfind) as Hjb. cbn. symmetry. exact Hjb.
Qed.

Lemma enabled_rows_other (l : list CronJob.t) (j : CronJob.t) (P : CronJob.t → Prop)
  `{∀ x, Decision (P x)} :
  NoDup (map CronJob.ID l) → In j l → CronJob.Enabled j = false →
  (∀ x, P x → CronJob.Enabled x = true) →
  Forall (λ job, CronJob.ID job ≠ CronJob.ID j) (filter P l).
Proof.
  intros Hnd Hin Hoff HP. apply Forall_forall. intros job Hjob Heq.
  apply list_elem_of_filter in Hjob. destruct Hjob as [HPjob Hjin].
  apply list_elem_of_In in Hjin.
  pose proof (NoDup_IDs_eq l job j Hnd Hjin Hin Heq) as ->.
  rewrite (HP j HPjob) in Hoff. discriminate.
Qed.

(** X24.  A tick leaves a disabled job alone.  In a job table without two
    rows of one id, the row of a job that is not enabled is the same row
    after the tick, and the tick adds no run of that job. *)
Theorem tick_skips_disabled (env : Env) (envAt : nat → Env) (now : Z) (st : Store)
  (j : CronJob.t) :
  uniqueJobIDs st → In j (jobs st) → CronJob.Enabled j = false →
  let st' := tick env envAt now st in
  In j (jobs st')
  ∧ ∀ r, In r (runs st') → CronRun.JobID r = CronJob.ID j → In r (runs st).
Proof.
  intros Hnd Hin Hoff st'. subst st'. unfold tick. cbv zeta.
  destruct (reconcileMissingNextRunAt_keeps env now st) as [Hruns Hids].
  assert (Hin1 : In j (jobs (reconcileMissingNextRunAt env now st))).
  { unfold reconcileMissingNextRunAt. apply reconcileMissing_fold_other; [|exact Hin].
    apply (enabled_rows_other (jobs st) j _ Hnd Hin Hoff). intros x [Hx _]. exact Hx. }
  set (st1 := reconcileMissingNextRunAt env now st) in *.
  assert (Hnd1 : NoDup (map CronJob.ID (jobs st1))) by (rewrite Hids; exact Hnd).
  assert (Hdue : Forall (λ job, CronJob.ID job ≠ CronJob.ID j)
                   (filter (λ x, dueNow now x = true) (jobs st1))).
  { apply (enabled_rows_other (jobs st1) j _ Hnd1 Hin1 Hoff).
    intros x Hx. unfold dueNow in Hx. apply andb_prop in Hx. tauto. }
  destruct (enqueueAll_other envAt now j _ Hdue 0%nat st1 Hin1) as [Hj Hr].
  split; [exact Hj|]. intros r Hrin Hid. rewrite <- Hruns. apply (Hr r Hrin Hid).
Qed.

Lemma tick_skips_disabled_witness :
  In jobOff (jobs (tick sampleEnv sampleEnvAt 1000 storeOff))
  ∧ length (runs (tick sampleEnv sampleEnvAt 1000 storeOff)) = 2%nat
  ∧ ∀ r, In r (runs (tick sampleEnv sampleEnvAt 1000 storeOff)) →
         CronRun.JobID r = "j3" → In r (runs storeOff).
Proof.
  destruct (tick_skips_disabled sampleEnv sampleEnvAt 1000 storeOff jobOff) as [Hj Hr].
  - unfold uniqueJobIDs. apply (bool_decide_unpack _). vm_compute. reflexivity.
  - right. left. reflexivity.
  - reflexivity.
  - split; [exact Hj|]. split; [vm_compute; reflexivity|exact Hr].
Defined.

Lemma filter_id_fresh (id : string) (l : list CronJob.t) :
  existsb (λ j, String.eqb (CronJob.ID j) id) l = false →
  filter (λ j, String.eqb (CronJob.ID j) id = false) l = l.
Proof.
  induction l as [|x l IH]; [reflexivity|].
  cbn [existsb]. intros Hex. apply orb_false_elim in Hex. destruct Hex as [Hx Hl].
  rewrite filter_cons_True by exact Hx. f_equal. apply IH. exact Hl.
Qed.

Lemma find_name_app_new (name : string) (l : list CronJob.t) (row : CronJob.t) :
  ¬ In name (map CronJob.Name l) → CronJob.Name row = name →
  find (λ j, String.eqb (CronJob.Name j) name) (l ++ [row]) = Some row.
Proof.
  intros Hnot Hrow. induction l as [|x l IH].
  - cbn. rewrite Hrow, String.eqb_refl. reflexivity.
  - cbn [app find].
    destruct (String.eqb_spec (CronJob.Name x) name) as [Heq|_].
    + exfalso. apply Hnot. left. exact Heq.
    + apply IH. intros Hin. apply Hnot. right. exact Hin.
Qed.

(** X25.  Round trip of the two tools.  When schedule_job has created a
    job (no row had the name), unschedule_job in the mode [delete], called
    with the same name and no job id, finds that job and leaves the job
    table as it was before the job was scheduled. *)
Theorem schedule_then_delete (env env2 : Env) (fk : bool) (p : jobParams)
  (mode : string) (st : Store) (row : CronJob.t) :
  (scheduleJob env p st).2 = inr row →
  ¬ In (TrimSpace (pName p)) (map CronJob.Name (jobs st)) →
  ToLower (TrimSpace mode) = "delete" →
  let st1 := (scheduleJob env p st).1 in
  let q := mkUnscheduleParams "" (pName p) mode in
  (unscheduleJob env2 fk q st1).2
  = inr (mkUnscheduled (uuid env) (TrimSpace (pName p)) "delete")
  ∧ jobs (unscheduleJob env2 fk q st1).1 = jobs st.
Proof.
  intros Hres Hnew Hmode st1 q. subst st1 q.
  destruct (scheduleJob_checked env p st row Hres) as (Hn & _ & _ & Hpath).
  destruct (find _ (jobs st)) as [found|] eqn:Hfind.
  { exfalso. apply Hnew. destruct (find_name_some _ _ _ Hfind) as [Hin Hname].
    rewrite <- Hname. apply in_map, Hin. }
  destruct Hpath as (Hrow & Hdup & Hst). rewrite Hst.
  assert (Hname : CronJob.Name row = TrimSpace (pName p)) by (subst row; reflexivity).
  assert (Hid : CronJob.ID row = uuid env) by (subst row; reflexivity).
  unfold unscheduleJob. cbv zeta. cbn [uJobID uName uMode].
  change (TrimSpace "") with "". cbn [String.eqb andb].
  destruct (String.eqb_spec (TrimSpace (pName p)) "") as [|_]; [contradiction|].
  rewrite Hmode. cbn [String.eqb Ascii.eqb Bool.eqb negb andb].
  unfold lookupJob. cbn [String.eqb negb jobs].
  rewrite (find_name_app_new _ _ row Hnew Hname).
  cbn [fst snd]. rewrite Hname, Hid. split; [reflexivity|].
  unfold deleteJob. cbn [jobs]. rewrite filter_app.
  rewrite filter_id_fresh by (rewrite <- Hid; exact Hdup).
  rewrite filter_cons_False by (rewrite Hid, String.eqb_refl; discriminate).
  apply app_nil_r.
Qed.

Lemma schedule_then_delete_witness :
  jobs (unscheduleJob sampleEnv false (mkUnscheduleParams "" " nightly " "DELETE")
          (scheduleJob sampleEnv sampleParams sampleStore).1).1
  = jobs sampleStore.
Proof.
  apply (schedule_then_delete sampleEnv sampleEnv false sampleParams "DELETE" sampleStore
           (createdJob sampleEnv (setJobFields sampleParams zeroJob))).
  - reflexivity.
  - cbn. intros [H|[]]. discriminate H.
  - reflexivity.
Defined.

End UnscheduleFacts.
